(** * String analyzer: analysis, content-addressed store, filters and
    the phrase interpreter of [index.js], embedded and verified.

    The repository ships two variants of [index.js].  The parts whose text
    is the same in both (the hash, the phrase interpreter, the filtering of
    the natural-language route, the single-record routes) are embedded once;
    the parts that differ (the analysis record, the create route and the
    list route with its validation) are embedded per variant, in the modules
    [V1] (first variant) and [V2] (second variant). *)

From Stdlib Require Import ZArith NArith Lia String Ascii.
From stdpp Require Import base list gmap sets.

Local Open Scope N_scope.

(** ** JavaScript strings

    A JavaScript string is a sequence of UTF-16 code units.  [length],
    [includes], [split("")], [trim] and regular expressions without the [u]
    flag work on code units; the string iterator ([for ... of], [new Set(s)])
    works on code points, pairing a high surrogate with the low surrogate that
    follows it. *)

Abbreviation codeunit := N (only parsing).
Abbreviation jsstring := (list N) (only parsing).

(** An ASCII literal of the source as a sequence of code units. *)
Definition lit (s : string) : jsstring :=
  map N_of_ascii (list_ascii_of_string s).

Definition inRange (lo hi c : N) : bool := (lo <=? c) && (c <=? hi).

(** The class [\s] of regular expressions, which is also what [trim]
    removes: WhiteSpace and LineTerminator of ECMAScript. *)
Definition isWhitespace (c : N) : bool :=
  inRange 9 13 c || (c =? 32) || (c =? 160) || (c =? 5760)
  || inRange 8192 8202 c || (c =? 8232) || (c =? 8233) || (c =? 8239)
  || (c =? 8287) || (c =? 12288) || (c =? 65279).

(** The class [\d]. *)
Definition isDigit (c : N) : bool := inRange 48 57 c.

Definition isAsciiUpper (c : N) : bool := inRange 65 90 c.
Definition isAsciiLower (c : N) : bool := inRange 97 122 c.

(** The class [\w]: ASCII letters, digits and the underscore. *)
Definition isWord (c : N) : bool :=
  isAsciiUpper c || isAsciiLower c || isDigit c || (c =? 95).

(** [s.startsWith(p)] and the rest of [s] after the prefix [p]. *)
Fixpoint stripPrefix (p s : jsstring) : option jsstring :=
  match p, s with
  | [], _ => Some s
  | _ :: _, [] => None
  | a :: p', b :: s' => if a =? b then stripPrefix p' s' else None
  end.

(** [s.includes(needle)]: [needle] occurs in [s] as a run of code units. *)
Fixpoint includes (needle s : jsstring) : bool :=
  match stripPrefix needle s with
  | Some _ => true
  | None => match s with
            | [] => false
            | _ :: s' => includes needle s'
            end
  end.

(** [s.replace(/\s/g, "")]. *)
Definition removeWhitespace (s : jsstring) : jsstring :=
  List.filter (fun c => negb (isWhitespace c)) s.

Fixpoint trimStart (s : jsstring) : jsstring :=
  match s with
  | c :: s' => if isWhitespace c then trimStart s' else s
  | [] => []
  end.

Definition trimEnd (s : jsstring) : jsstring := rev (trimStart (rev s)).

(** [s.trim()]. *)
Definition trim (s : jsstring) : jsstring := trimEnd (trimStart s).

(** [s.split(/\s+/)]: the pieces of [s] between the maximal runs of
    whitespace.  [insep] says that the scan is inside such a run, [cur] is
    the piece being read.  A string that has no whitespace, the empty one
    too, is its only piece. *)
Fixpoint splitWhitespaceFrom (insep : bool) (cur s : jsstring) : list jsstring :=
  match s with
  | [] => [cur]
  | c :: s' =>
      if isWhitespace c
      then (if insep then splitWhitespaceFrom true [] s'
            else cur :: splitWhitespaceFrom true [] s')
      else splitWhitespaceFrom false (cur ++ [c]) s'
  end.

Definition splitWhitespace (s : jsstring) : list jsstring :=
  splitWhitespaceFrom false [] s.

(** Truthiness of a string: [Boolean(s)]. *)
Definition Boolean (s : jsstring) : bool :=
  match s with [] => false | _ => true end.

Definition isHighSurrogate (c : N) : bool := inRange 55296 56319 c.
Definition isLowSurrogate (c : N) : bool := inRange 56320 57343 c.

(** The string iterator: one string per code point. *)
Fixpoint codePoints (s : jsstring) : list jsstring :=
  match s with
  | [] => []
  | c :: s' =>
      match s' with
      | d :: s'' =>
          if isHighSurrogate c && isLowSurrogate d
          then [c; d] :: codePoints s''
          else [c] :: codePoints s'
      | [] => [[c]]
      end
  end.

(** ** Numbers

    [parseInt] yields NaN, an integer-valued double or an infinity, and the
    lengths and counts of the analysis are integers.  A number is modelled
    as NaN or an integer of [Z]: [Num z] is the double of value [z], and
    [Num infinity] and [Num (- infinity)], with [infinity] = 2^1024 just
    above every finite double, stand for [Infinity] and [-Infinity].  The
    source only compares numbers, tests them with [isNaN] and adds 1 to
    them, and in these an infinity behaves as a number above (below)
    every finite one that absorbs what is added to it.

    [roundNat n] is the integer-valued double nearest to [n] when the
    exponent is not bounded: [n] itself up to 53 bits, else the 53 leading
    bits rounded to nearest, ties to the even significand. *)

Definition roundNat (n : N) : N :=
  let bits := N.size n in
  if bits <=? 53 then n
  else
    let p := 2 ^ (bits - 53) in
    let q := n / p in
    let r := n mod p in
    (if (p <? 2 * r) || ((2 * r =? p) && N.odd q) then q + 1 else q) * p.

Definition infinity : N := 2 ^ 1024.
Arguments infinity : simpl never.

(** The magnitude of the double nearest to [n]: what rounds to 2^1024 or
    above overflows to an infinity. *)
Definition roundDouble (n : N) : N :=
  let m := roundNat n in
  if 1024 <? N.size m then infinity else m.

Inductive number := NaN | Num (z : Z).

Definition isNaN (n : number) : bool :=
  match n with NaN => true | Num _ => false end.

(** [a < b], [a > b], [a <= b], [a >= b], [a === b] and [a + b]: every
    comparison with NaN is false. *)
Definition num_lt (a b : number) : bool :=
  match a, b with Num x, Num y => (x <? y)%Z | _, _ => false end.
Definition num_gt (a b : number) : bool := num_lt b a.
Definition num_le (a b : number) : bool :=
  match a, b with Num x, Num y => (x <=? y)%Z | _, _ => false end.
Definition num_ge (a b : number) : bool := num_le b a.
Definition num_eq (a b : number) : bool :=
  match a, b with Num x, Num y => (x =? y)%Z | _, _ => false end.

(** The double nearest to the integer [z]. *)
Definition toDouble (z : Z) : number :=
  Num (Z.sgn z * Z.of_N (roundDouble (Z.abs_N z))).

Definition isInfinite (z : Z) : bool := 1024 <? N.size (Z.abs_N z).

(** [a + b] is the exact sum rounded to the nearest double; the sum of the
    two opposite infinities is NaN. *)
Definition num_add (a b : number) : number :=
  match a, b with
  | Num x, Num y =>
      if isInfinite x && isInfinite y && (x + y =? 0)%Z then NaN
      else toDouble (x + y)
  | _, _ => NaN
  end.

Definition digitValue (c : N) : option N :=
  if isDigit c then Some (c - 48)
  else if isAsciiLower c then Some (c - 97 + 10)
  else if isAsciiUpper c then Some (c - 65 + 10)
  else None.

(** The longest prefix of [s] made of digits of radix [R], most significant
    first, folded into [acc]; [None] when there is no such digit. *)
Fixpoint parseDigits (R : N) (acc : option N) (s : jsstring) : option N :=
  match s with
  | c :: s' =>
      match digitValue c with
      | Some d =>
          if d <? R then parseDigits R (Some (R * default 0 acc + d)) s'
          else acc
      | None => acc
      end
  | [] => acc
  end.

(** A leading sign, and what follows it. *)
Definition stripSign (s : jsstring) : Z * jsstring :=
  match s with
  | c :: rest =>
      if c =? 45 then ((-1)%Z, rest)
      else if c =? 43 then (1%Z, rest)
      else (1%Z, s)
  | [] => (1%Z, s)
  end.

(** What follows a leading "0x" or "0X", if there is one. *)
Definition stripHexPrefix (s : jsstring) : option jsstring :=
  match s with
  | c :: x :: rest =>
      if (c =? 48) && ((x =? 120) || (x =? 88)) then Some rest else None
  | _ => None
  end.

(** [parseInt(s, radix)] for a radix between 2 and 36; [radix = None] is a
    call without a radix.  The result is the double nearest to the integer
    that the digits denote, as Node computes it for radix 10. *)
Definition parseInt (s : jsstring) (radix : option N) : number :=
  let inputS := trimStart s in
  let '(sign, inputS) := stripSign inputS in
  let '(R, inputS) :=
    match radix with
    | Some R =>
        (R, if R =? 16 then default inputS (stripHexPrefix inputS) else inputS)
    | None =>
        match stripHexPrefix inputS with
        | Some rest => (16, rest)
        | None => (10, inputS)
        end
    end in
  if (R <? 2) || (36 <? R) then NaN
  else match parseDigits R None inputS with
       | Some n => toDouble (sign * Z.of_N n)
       | None => NaN
       end.

(** ** The runtime's part

    What [index.js] takes from the JavaScript runtime and from Node's
    [crypto] and does not define itself. *)
Class JsBuiltins := {
  (** [String.prototype.toLowerCase]. *)
  toLowerCase : jsstring -> jsstring;
  (** [crypto.createHash("sha256").update(v).digest("hex")]. *)
  sha256_hex : jsstring -> jsstring;
  (** The comparison [s > n] of a string with a number, that is
      [ToNumber(s) > n], false when [ToNumber(s)] is NaN. *)
  string_gt_number : jsstring -> Z -> bool;
}.

Definition asciiLowerUnit (c : N) : N :=
  if isAsciiUpper c then c + 32 else c.

(** ** Regular expressions of the source

    [s.match(re)] without the [g] flag tries every start position from the
    left and answers with the first match.  [regexSearch at s] is that scan
    for a pattern whose match anchored at the start of its input is [at]. *)
Fixpoint regexSearch {A} (at_start : jsstring -> option A) (s : jsstring)
  : option A :=
  match at_start s with
  | Some m => Some m
  | None => match s with
            | [] => None
            | _ :: s' => regexSearch at_start s'
            end
  end.

(** The longest prefix whose code units are in a class: a greedy [c+] or
    [c*]. *)
Fixpoint takeClass (cls : N -> bool) (s : jsstring) : jsstring :=
  match s with
  | c :: s' => if cls c then c :: takeClass cls s' else []
  | [] => []
  end.

(** [/longer than (\d+)/] anchored: group 1. *)
Definition longerThanAt (s : jsstring) : option jsstring :=
  match stripPrefix (lit "longer than ") s with
  | Some rest => match takeClass isDigit rest with
                 | [] => None
                 | ds => Some ds
                 end
  | None => None
  end.

(** [/containing the letter (\w)/] anchored: group 1. *)
Definition containingLetterAt (s : jsstring) : option jsstring :=
  match stripPrefix (lit "containing the letter ") s with
  | Some (c :: _) => if isWord c then Some [c] else None
  | _ => None
  end.

(** ** Filter sets

    The [filters] object of the routes: a field is [None] while the
    property is [undefined]. *)
Module Filters.
Record t := mk {
  is_palindrome : option bool;
  min_length : option number;
  max_length : option number;
  word_count : option number;
  contains_character : option jsstring;
}.

(** [{}]. *)
Definition empty : t := mk None None None None None.

Definition count {A} (o : option A) : nat :=
  match o with Some _ => 1%nat | None => 0%nat end.

(** [Object.keys(filters).length]. *)
Definition keys_length (f : t) : nat :=
  (count (is_palindrome f) + count (min_length f) + count (max_length f)
   + count (word_count f) + count (contains_character f))%nat.

Definition set_is_palindrome (b : bool) (f : t) : t :=
  mk (Some b) (min_length f) (max_length f) (word_count f)
     (contains_character f).
Definition set_min_length (n : number) (f : t) : t :=
  mk (is_palindrome f) (Some n) (max_length f) (word_count f)
     (contains_character f).
Definition set_max_length (n : number) (f : t) : t :=
  mk (is_palindrome f) (min_length f) (Some n) (word_count f)
     (contains_character f).
Definition set_word_count (n : number) (f : t) : t :=
  mk (is_palindrome f) (min_length f) (max_length f) (Some n)
     (contains_character f).
Definition set_contains_character (c : jsstring) (f : t) : t :=
  mk (is_palindrome f) (min_length f) (max_length f) (word_count f)
     (Some c).
End Filters.

(** ** The phrase interpreter (same text in both variants) *)
Section Interpreter.
Context `{JsBuiltins}.

Definition interpretQuery (query : jsstring) : option Filters.t :=
  let lower := toLowerCase query in
  let filters := Filters.empty in
  let filters :=
    if includes (lit "palindromic") lower
    then Filters.set_is_palindrome true filters else filters in
  let filters :=
    if includes (lit "single word") lower || includes (lit "one word") lower
    then Filters.set_word_count (Num 1) filters else filters in
  let matchLength := regexSearch longerThanAt lower in
  let filters :=
    match matchLength with
    | Some group1 =>
        Filters.set_min_length (num_add (parseInt group1 None) (Num 1))
          filters
    | None => filters
    end in
  let matchContains := regexSearch containingLetterAt lower in
  let filters :=
    match matchContains with
    | Some group1 => Filters.set_contains_character group1 filters
    | None => filters
    end in
  if Nat.eqb (Filters.keys_length filters) 0 then None else Some filters.
End Interpreter.

(** ** The store: a JavaScript [Map]

    A [Map] keeps its entries in insertion order, one entry per key: [set]
    on a key that is present replaces the value where it stands, [set] on a
    new key appends, and [values()] lists the values in that order. *)
Module JsMap.
Section Defs.
Context {V : Type}.

Definition t := list (list N * V).

Fixpoint get (k : jsstring) (m : t) : option V :=
  match m with
  | [] => None
  | (k', v) :: m' => if bool_decide (k' = k) then Some v else get k m'
  end.

Definition has (k : jsstring) (m : t) : bool :=
  match get k m with Some _ => true | None => false end.

Fixpoint set (k : jsstring) (v : V) (m : t) : t :=
  match m with
  | [] => [(k, v)]
  | (k', v') :: m' =>
      if bool_decide (k' = k) then (k, v) :: m' else (k', v') :: set k v m'
  end.

Fixpoint delete (k : jsstring) (m : t) : t :=
  match m with
  | [] => []
  | (k', v') :: m' =>
      if bool_decide (k' = k) then m' else (k', v') :: delete k m'
  end.

Definition keys (m : t) : list jsstring := map fst m.
Definition values (m : t) : list V := map snd m.
End Defs.
Arguments t : clear implicits.
End JsMap.

(** ** Requests and responses *)

(** The [value] field of a request body. *)
Inductive json := JUndefined | JString (s : list N) | JOther.

(** The bodies the routes answer with, over the record type [R] of a
    variant. *)
Inductive body (R : Type) :=
| Error (error : string)
| ErrorMessage (error message : string)
| ErrorExisting (error message : string) (existing : option R)
| ErrorDetails (error : string) (details : list string)
| ErrorMessageDetails (error message : string) (details : list string)
| Analyzed (r : R)
| Listing (data : list R) (count : nat) (filters_applied : Filters.t)
| Interpreted (data : list R) (count : nat) (original : list N)
    (parsed_filters : Filters.t)
| NoContent.
Arguments Error {R}.
Arguments ErrorMessage {R}.
Arguments ErrorExisting {R}.
Arguments ErrorDetails {R}.
Arguments ErrorMessageDetails {R}.
Arguments Analyzed {R}.
Arguments Listing {R}.
Arguments Interpreted {R}.
Arguments NoContent {R}.

Record response (R : Type) := respond { status : nat; payload : body R }.
Arguments respond {R}.
Arguments status {R}.
Arguments payload {R}.

(** The query parameters of [GET /strings], [None] for [undefined].  A
    parameter that is given once, as [name=text], is a string; that is the
    case modelled.  A parameter repeated or written [name[]=text] reaches
    the route as an array, and one written [name[key]=text] as an object;
    such requests are outside [Raw.t], and nothing below speaks of them. *)
Module Raw.
Record t := mk {
  is_palindrome : option (list N);
  min_length : option (list N);
  max_length : option (list N);
  word_count : option (list N);
  contains_character : option (list N);
}.
End Raw.

(** A message text between double quotes. *)
Definition quoted (s : string) : string :=
  (String "034" s ++ String "034" EmptyString)%string.

Definition str_eq (a b : jsstring) : bool := bool_decide (a = b).

Section Hash.
Context `{JsBuiltins}.

Definition generateHash (value : jsstring) : jsstring := sha256_hex value.
End Hash.

(** ** First variant of [index.js] *)
Module V1.
Record Properties := {
  length : nat;
  is_palindrome : bool;
  unique_characters : nat;
  word_count : nat;
  sha256_hash : list N;
  character_frequency_map : gmap (list N) nat;
}.

Record AnalyzedString := {
  id : list N;
  value : list N;
  properties : Properties;
  created_at : list N;
}.

Section Routes.
Context `{JsBuiltins}.

(** [analyzeString(value)]; [now] is what [new Date().toISOString()]
    gives at the call. *)
Definition analyzeString (now value : jsstring) : AnalyzedString :=
  let length := List.length value in
  let normalized := removeWhitespace (toLowerCase value) in
  let isPalindrome := str_eq normalized (rev normalized) in
  let wordCount :=
    List.length (List.filter Boolean (splitWhitespace (trim value))) in
  let uniqueChars := size (list_to_set (codePoints value) : gset (list N)) in
  let charFrequency :=
    foldl (fun (freq : gmap (list N) nat) char =>
             <[char := (default 0 (freq !! char) + 1)%nat]> freq)
          ∅ (codePoints value) in
  let sha256 := generateHash value in
  {| id := sha256;
     value := value;
     properties :=
       {| length := length;
          is_palindrome := isPalindrome;
          unique_characters := uniqueChars;
          word_count := wordCount;
          sha256_hash := sha256;
          character_frequency_map := charFrequency |};
     created_at := now |}.

(** The state of the process: [analyzedStrings]. *)
Definition store := JsMap.t AnalyzedString.

(** [POST /strings]. *)
Definition post_strings (now : jsstring) (value : json)
    (analyzedStrings : store) : response AnalyzedString * store :=
  match value with
  | JUndefined =>
      (respond 400 (Error "Missing 'value' field"), analyzedStrings)
  | JOther =>
      (respond 422 (Error "Value must be a string"), analyzedStrings)
  | JString value =>
      let hash := generateHash value in
      if JsMap.has hash analyzedStrings
      then (respond 409
              (ErrorMessage "Duplicate string" "This string already exists"),
            analyzedStrings)
      else
        let result := analyzeString now value in
        (respond 201 (Analyzed result),
         JsMap.set hash result analyzedStrings)
  end.

(** The filtering of [GET /strings/filter-by-natural-language]. *)
Definition applyParsedFilters (parsedFilters : Filters.t)
    (results : list AnalyzedString) : list AnalyzedString :=
  let results :=
    match Filters.is_palindrome parsedFilters with
    | Some b =>
        List.filter
          (fun item => Bool.eqb (is_palindrome (properties item)) b)
          results
    | None => results
    end in
  let results :=
    match Filters.word_count parsedFilters with
    | Some n =>
        List.filter
          (fun item =>
             num_eq (Num (Z.of_nat (word_count (properties item)))) n)
          results
    | None => results
    end in
  let results :=
    match Filters.min_length parsedFilters with
    | Some n =>
        List.filter
          (fun item => num_ge (Num (Z.of_nat (length (properties item)))) n)
          results
    | None => results
    end in
  match Filters.contains_character parsedFilters with
  | Some c => List.filter (fun item => includes c (value item)) results
  | None => results
  end.

(** [GET /strings/filter-by-natural-language]; an absent [query] is
    [None]. *)
Definition get_strings_filter_by_natural_language
    (query : option jsstring) (analyzedStrings : store)
    : response AnalyzedString :=
  match query with
  | None | Some [] => respond 400 (Error "Query is required")
  | Some query =>
      match interpretQuery query with
      | None =>
          respond 400 (Error "Unable to parse natural language query")
      | Some parsedFilters =>
          let results :=
            applyParsedFilters parsedFilters
              (JsMap.values analyzedStrings) in
          respond 200
            (Interpreted results (List.length results) query parsedFilters)
      end
  end.

(** [GET /strings/:string_value]. *)
Definition get_string (string_value : jsstring) (analyzedStrings : store)
    : response AnalyzedString :=
  let hash := generateHash string_value in
  if negb (JsMap.has hash analyzedStrings)
  then respond 404
         (ErrorMessage "Not Found" "String does not exist in the system")
  else match JsMap.get hash analyzedStrings with
       | Some r => respond 200 (Analyzed r)
       | None => respond 200 NoContent
       end.

(** The validation of [GET /strings]: the [filters] and the [errors]
    the route has built when it reaches its check of [errors.length]. *)
Definition validate (q : Raw.t) : Filters.t * list string :=
  let filters := Filters.empty in
  let errors := [] in
  let '(filters, errors) :=
    match Raw.is_palindrome q with
    | Some is_palindrome =>
        if negb (str_eq is_palindrome (lit "true"))
           && negb (str_eq is_palindrome (lit "false"))
        then (filters,
              errors ++ [("is_palindrome must be " ++ quoted "true"
                          ++ " or " ++ quoted "false")%string])
        else (Filters.set_is_palindrome
                (str_eq is_palindrome (lit "true")) filters, errors)
    | None => (filters, errors)
    end in
  let '(filters, errors) :=
    match Raw.min_length q with
    | Some min_length =>
        let min := parseInt min_length (Some 10) in
        if isNaN min || num_lt min (Num 0)
        then (filters,
              errors ++ ["min_length must be a non-negative integer"%string])
        else (Filters.set_min_length min filters, errors)
    | None => (filters, errors)
    end in
  let '(filters, errors) :=
    match Raw.max_length q with
    | Some max_length =>
        let max := parseInt max_length (Some 10) in
        if isNaN max || num_lt max (Num 0)
        then (filters,
              errors ++ ["max_length must be a non-negative integer"%string])
        else (Filters.set_max_length max filters, errors)
    | None => (filters, errors)
    end in
  let '(filters, errors) :=
    match Raw.word_count q with
    | Some word_count =>
        let wc := parseInt word_count (Some 10) in
        if isNaN wc || num_lt wc (Num 0)
        then (filters,
              errors ++ ["word_count must be a non-negative integer"%string])
        else (Filters.set_word_count wc filters, errors)
    | None => (filters, errors)
    end in
  let '(filters, errors) :=
    match Raw.contains_character q with
    | Some contains_character =>
        if negb (Nat.eqb (List.length contains_character) 1)
        then (filters,
              errors ++ ["contains_character must be a single character"%string])
        else (Filters.set_contains_character contains_character filters,
              errors)
    | None => (filters, errors)
    end in
  let errors :=
    match Filters.min_length filters, Filters.max_length filters with
    | Some min, Some max =>
        if num_gt min max
        then errors ++ ["min_length cannot be greater than max_length"%string]
        else errors
    | _, _ => errors
    end in
  (filters, errors).

(** The filtering of [GET /strings]. *)
Definition applyFilters (filters : Filters.t)
    (results : list AnalyzedString) : list AnalyzedString :=
  let results :=
    match Filters.is_palindrome filters with
    | Some b =>
        List.filter
          (fun item => Bool.eqb (is_palindrome (properties item)) b)
          results
    | None => results
    end in
  let results :=
    match Filters.min_length filters with
    | Some n =>
        List.filter
          (fun item => num_ge (Num (Z.of_nat (length (properties item)))) n)
          results
    | None => results
    end in
  let results :=
    match Filters.max_length filters with
    | Some n =>
        List.filter
          (fun item => num_le (Num (Z.of_nat (length (properties item)))) n)
          results
    | None => results
    end in
  let results :=
    match Filters.word_count filters with
    | Some n =>
        List.filter
          (fun item =>
             num_eq (Num (Z.of_nat (word_count (properties item)))) n)
          results
    | None => results
    end in
  match Filters.contains_character filters with
  | Some c => List.filter (fun item => includes c (value item)) results
  | None => results
  end.

(** [GET /strings]. *)
Definition get_strings (q : Raw.t) (analyzedStrings : store)
    : response AnalyzedString :=
  let '(filters, errors) := validate q in
  if (0 <? List.length errors)%nat
  then respond 400 (ErrorDetails "Bad Request" errors)
  else
    let results := applyFilters filters (JsMap.values analyzedStrings) in
    respond 200 (Listing results (List.length results) filters).

(** [DELETE /strings/:string_value]. *)
Definition delete_string (string_value : jsstring)
    (analyzedStrings : store) : response AnalyzedString * store :=
  let hash := generateHash string_value in
  if negb (JsMap.has hash analyzedStrings)
  then (respond 404
          (ErrorMessage "Not Found" "String does not exist in the system"),
        analyzedStrings)
  else (respond 204 NoContent, JsMap.delete hash analyzedStrings).
(** A sequence of creations, each with the time of its call, served
    one after the other. *)
Definition puts (calls : list (list N * list N)) (analyzedStrings : store)
    : store :=
  foldl (fun st call => (post_strings call.1 (JString call.2) st).2)
        analyzedStrings calls.

(** The calls of the five routes, each with what its handler reads from
    the request, and the process serving them in turn, from the left.
    [handle] is the handler called; which handler a request reaches is
    the router's part, [route] below. *)
Inductive request :=
| Post (now : list N) (value : json)
| GetNaturalLanguage (query : option (list N))
| GetOne (string_value : list N)
| GetAll (q : Raw.t)
| Delete (string_value : list N).

Definition handle (r : request) (analyzedStrings : store)
    : response AnalyzedString * store :=
  match r with
  | Post now value => post_strings now value analyzedStrings
  | GetNaturalLanguage query =>
      (get_strings_filter_by_natural_language query analyzedStrings,
       analyzedStrings)
  | GetOne string_value =>
      (get_string string_value analyzedStrings, analyzedStrings)
  | GetAll q => (get_strings q analyzedStrings, analyzedStrings)
  | Delete string_value => delete_string string_value analyzedStrings
  end.

Definition serve (requests : list request) (analyzedStrings : store)
    : store :=
  foldl (fun st r => (handle r st).2) analyzedStrings requests.

(** The router.  A request to the service has a method, a path and what
    the handlers read from it; [segment] is the text that the path has
    after [/strings/], decoded, and is empty for the paths [/strings] and
    [/strings/].  A client writes the segment with [encodeURIComponent],
    which leaves letters and hyphens as they are.

    Express tries the routes in the order of their registration, matches
    paths without regard to the case of letters nor to a slash at the end,
    and lets [:string_value] match a segment of one character or more.
    So [GET /strings/filter-by-natural-language], in any case of its
    letters, reaches the route of that name, registered before
    [GET /strings/:string_value]; an empty segment reaches the routes of
    [/strings]; and [DELETE /strings/] and [POST /strings/text] match no
    route. *)
Inductive http :=
| HttpPost (segment : list N) (now : list N) (value : json)
| HttpGet (segment : list N) (q : Raw.t) (query : option (list N))
| HttpDelete (segment : list N).

Definition route (h : http) : option request :=
  match h with
  | HttpPost segment now value =>
      if str_eq segment [] then Some (Post now value) else None
  | HttpGet segment q query =>
      if str_eq (map asciiLowerUnit segment)
                (lit "filter-by-natural-language")
      then Some (GetNaturalLanguage query)
      else if str_eq segment [] then Some (GetAll q)
      else Some (GetOne segment)
  | HttpDelete segment =>
      if str_eq segment [] then None else Some (Delete segment)
  end.

(** The answer to a request and the store after it; Express itself
    answers 404, with no JSON body, a request that matches no route. *)
Definition answer (h : http) (analyzedStrings : store)
    : response AnalyzedString * store :=
  match route h with
  | Some r => handle r analyzedStrings
  | None => (respond 404 NoContent, analyzedStrings)
  end.

Definition served (requests : list http) (analyzedStrings : store)
    : store :=
  foldl (fun st h => (answer h st).2) analyzedStrings requests.
End Routes.
End V1.

(** ** Second variant of [index.js] *)

(** [array.toString()], that is [array.join(",")]. *)
Fixpoint joinComma (l : list jsstring) : jsstring :=
  match l with
  | [] => []
  | [s] => s
  | s :: l' => s ++ 44 :: joinComma l'
  end.

Module V2.
Record Properties := {
  length : nat;
  is_palindrome : bool;
  unique_characters : nat;
  word_count : nat;
  sha256_hash : list N;
  character_frequency_map : gmap (list N) nat;
  created_at : list N;
}.

Record AnalyzedString := {
  id : list N;
  value : list N;
  properties : Properties;
}.

Section Routes.
Context `{JsBuiltins}.

Definition analyzeString (now value : jsstring) : AnalyzedString :=
  let length := List.length value in
  let normalized := removeWhitespace (toLowerCase value) in
  let isPalindrome := str_eq normalized (rev normalized) in
  let wordCount :=
    List.length
      (List.filter (fun word => (0 <? List.length word)%nat)
         (splitWhitespace (trim value))) in
  let uniqueChars := size (list_to_set (codePoints value) : gset (list N)) in
  let charFrequency :=
    foldl (fun (freq : gmap (list N) nat) char =>
             <[char := (default 0 (freq !! char) + 1)%nat]> freq)
          ∅ (codePoints value) in
  let sha256 := generateHash value in
  {| id := sha256;
     value := value;
     properties :=
       {| length := length;
          is_palindrome := isPalindrome;
          unique_characters := uniqueChars;
          word_count := wordCount;
          sha256_hash := sha256;
          character_frequency_map := charFrequency;
          created_at := now |} |}.

(** The state of the process: [analyzedString]. *)
Definition store := JsMap.t AnalyzedString.

(** [POST /strings]. *)
Definition post_strings (now : jsstring) (value : json)
    (analyzedString : store) : response AnalyzedString * store :=
  match value with
  | JUndefined =>
      (respond 404 (Error "Value field is required"), analyzedString)
  | JOther =>
      (respond 422
         (ErrorMessage "Unprocessable Content"
            "Value must be a string, Kindly insert a string"),
       analyzedString)
  | JString value =>
      let sha256 := generateHash value in
      if JsMap.has sha256 analyzedString
      then (respond 409
              (ErrorExisting "Conflict"
                 " String already exists in the system"
                 (JsMap.get sha256 analyzedString)),
            analyzedString)
      else
        let result := analyzeString now value in
        (respond 201 (Analyzed result),
         JsMap.set sha256 result analyzedString)
  end.

(** The validation of [GET /strings].  The test
    [typeof contains_character !== "string"] of this variant is false of
    every parameter that is a string, so the test of the length decides. *)
Definition validate (q : Raw.t) : Filters.t * list string :=
  let filters := Filters.empty in
  let errors := [] in
  let '(filters, errors) :=
    match Raw.is_palindrome q with
    | Some is_palindrome =>
        if negb (str_eq is_palindrome (lit "true"))
           && negb (str_eq is_palindrome (lit "false"))
        then (filters,
              errors ++ ["is_palindrome must be true or false"%string])
        else (Filters.set_is_palindrome
                (str_eq is_palindrome (lit "true")) filters, errors)
    | None => (filters, errors)
    end in
  let '(filters, errors) :=
    match Raw.min_length q with
    | Some min_length =>
        let minlen := parseInt min_length (Some 10) in
        if isNaN minlen || num_lt minlen (Num 0)
        then (filters,
              errors ++ ["Minlength must not be a negative number"%string])
        else (Filters.set_min_length minlen filters, errors)
    | None => (filters, errors)
    end in
  let '(filters, errors) :=
    match Raw.max_length q with
    | Some max_length =>
        let maxlen := parseInt max_length (Some 10) in
        if isNaN maxlen || num_lt maxlen (Num 0)
        then (filters,
              errors ++ ["Maxlength must not be a negative number"%string])
        else (Filters.set_max_length maxlen filters, errors)
    | None => (filters, errors)
    end in
  let '(filters, errors) :=
    match Raw.word_count q with
    | Some word_count =>
        let wc := parseInt word_count (Some 10) in
        if isNaN wc || num_lt wc (Num 0)
        then (filters,
              errors ++ ["Wordcount must not be a negative number"%string])
        else (Filters.set_word_count wc filters, errors)
    | None => (filters, errors)
    end in
  let '(filters, errors) :=
    match Raw.contains_character q with
    | Some contains_character =>
        if negb (Nat.eqb (List.length contains_character) 1)
        then (filters,
              errors ++ ["contains_character must be a single character"%string])
        else (Filters.set_contains_character contains_character filters,
              errors)
    | None => (filters, errors)
    end in
  let errors :=
    match Filters.min_length filters, Filters.max_length filters with
    | Some min, Some max =>
        if num_gt min max
        then errors ++ ["min_length cannot be greater than max_length"%string]
        else errors
    | _, _ => errors
    end in
  (filters, errors).

(** The filtering of [GET /strings]. *)
Definition applyFilters (filters : Filters.t)
    (filteredStrings : list AnalyzedString) : list AnalyzedString :=
  let filteredStrings :=
    match Filters.is_palindrome filters with
    | Some b =>
        List.filter
          (fun item => Bool.eqb (is_palindrome (properties item)) b)
          filteredStrings
    | None => filteredStrings
    end in
  let filteredStrings :=
    match Filters.min_length filters with
    | Some n =>
        List.filter
          (fun item => num_ge (Num (Z.of_nat (length (properties item)))) n)
          filteredStrings
    | None => filteredStrings
    end in
  let filteredStrings :=
    match Filters.max_length filters with
    | Some n =>
        List.filter
          (fun item => num_le (Num (Z.of_nat (length (properties item)))) n)
          filteredStrings
    | None => filteredStrings
    end in
  let filteredStrings :=
    match Filters.word_count filters with
    | Some n =>
        List.filter
          (fun item =>
             num_eq (Num (Z.of_nat (word_count (properties item)))) n)
          filteredStrings
    | None => filteredStrings
    end in
  match Filters.contains_character filters with
  | Some c =>
      List.filter (fun item => includes c (value item)) filteredStrings
  | None => filteredStrings
  end.

(** [errors > 0] for the array [errors]: the array is turned into a
    string by [toString] and that string is compared as a number. *)
Definition errors_gt_zero (errors : list string) : bool :=
  string_gt_number (joinComma (map lit errors)) 0.

(** [GET /strings].  The check of the errors is [errors > 0] and its
    branch has no [return]: were the check true, the 400 response would
    be sent and the route would run on into the filtering, whose own
    response could no longer be sent.  The response modelled is the one
    the caller receives. *)
Definition get_strings (q : Raw.t) (analyzedString : store)
    : response AnalyzedString :=
  let '(filters, errors) := validate q in
  let filteredStrings :=
    applyFilters filters (JsMap.values analyzedString) in
  if errors_gt_zero errors
  then respond 400
         (ErrorMessageDetails "Bad Request"
            "Invalid query parameter values" errors)
  else respond 200
         (Listing filteredStrings (List.length filteredStrings) filters).
Definition puts (calls : list (list N * list N)) (analyzedString : store)
    : store :=
  foldl (fun st call => (post_strings call.1 (JString call.2) st).2)
        analyzedString calls.
(** The filtering of [GET /strings/filter-by-natural-language]. *)
Definition applyParsedFilters (parsedFilters : Filters.t)
    (results : list AnalyzedString) : list AnalyzedString :=
  let results :=
    match Filters.is_palindrome parsedFilters with
    | Some b =>
        List.filter
          (fun item => Bool.eqb (is_palindrome (properties item)) b)
          results
    | None => results
    end in
  let results :=
    match Filters.word_count parsedFilters with
    | Some n =>
        List.filter
          (fun item =>
             num_eq (Num (Z.of_nat (word_count (properties item)))) n)
          results
    | None => results
    end in
  let results :=
    match Filters.min_length parsedFilters with
    | Some n =>
        List.filter
          (fun item => num_ge (Num (Z.of_nat (length (properties item)))) n)
          results
    | None => results
    end in
  match Filters.contains_character parsedFilters with
  | Some c => List.filter (fun item => includes c (value item)) results
  | None => results
  end.

(** [GET /strings/filter-by-natural-language]. *)
Definition get_strings_filter_by_natural_language
    (query : option jsstring) (analyzedString : store)
    : response AnalyzedString :=
  match query with
  | None | Some [] => respond 400 (Error "Query is required")
  | Some query =>
      match interpretQuery query with
      | None =>
          respond 400 (Error "Unable to parse natural language query")
      | Some parsedFilters =>
          let results :=
            applyParsedFilters parsedFilters
              (JsMap.values analyzedString) in
          respond 200
            (Interpreted results (List.length results) query parsedFilters)
      end
  end.

(** [GET /strings/:string_value]. *)
Definition get_string (string_value : jsstring) (analyzedString : store)
    : response AnalyzedString :=
  let hash := generateHash string_value in
  if JsMap.has hash analyzedString
  then match JsMap.get hash analyzedString with
       | Some r => respond 200 (Analyzed r)
       | None => respond 200 NoContent
       end
  else respond 404
         (ErrorMessage "Not Found" "String does not exist in the system").

(** [DELETE /strings/:string_value].  The route gives a message to
    [json] with the status 204, with which no body is sent. *)
Definition delete_string (string_value : jsstring)
    (analyzedString : store) : response AnalyzedString * store :=
  let hash := generateHash string_value in
  if JsMap.has hash analyzedString
  then (respond 204 NoContent, JsMap.delete hash analyzedString)
  else (respond 404
          (ErrorMessage "Not Found" "String does not exist in the system"),
        analyzedString).

(** The calls of the five routes, each with what its handler reads from
    the request, and the process serving them in turn, from the left.
    [handle] is the handler called; the routes are registered in the
    order of the first variant, whose router is [V1.route]. *)
Inductive request :=
| Post (now : list N) (value : json)
| GetNaturalLanguage (query : option (list N))
| GetOne (string_value : list N)
| GetAll (q : Raw.t)
| Delete (string_value : list N).

Definition handle (r : request) (analyzedString : store)
    : response AnalyzedString * store :=
  match r with
  | Post now value => post_strings now value analyzedString
  | GetNaturalLanguage query =>
      (get_strings_filter_by_natural_language query analyzedString,
       analyzedString)
  | GetOne string_value =>
      (get_string string_value analyzedString, analyzedString)
  | GetAll q => (get_strings q analyzedString, analyzedString)
  | Delete string_value => delete_string string_value analyzedString
  end.

Definition serve (requests : list request) (analyzedString : store)
    : store :=
  foldl (fun st r => (handle r st).2) analyzedString requests.
End Routes.
End V2.

(** ** What the runtime is relied on for

    Facts of ECMAScript about the parts taken from the runtime, each stated
    where a property needs it. *)
Section Laws.
Context `{JsBuiltins}.

(** On ASCII text [toLowerCase] turns A-Z into a-z and leaves the rest. *)
Definition LowerCaseOfAscii : Prop :=
  forall s, forallb (fun c => c <? 128) s = true ->
            toLowerCase s = map asciiLowerUnit s.

(** No code unit of a lower-cased string is one of A-Z. *)
Definition LowerCaseHasNoUpper : Prop :=
  forall s c, In c (toLowerCase s) -> isAsciiUpper c = false.

(** Whitespace has no case. *)
Definition LowerCaseOfWhitespace : Prop :=
  forall s, forallb isWhitespace s = true -> toLowerCase s = s.

(** The empty string converts to 0, and a string that starts with an
    ASCII letter other than I (of Infinity) converts to NaN. *)
Definition LetterStringIsNaN : Prop :=
  string_gt_number [] 0 = false /\
  forall c s n, (isAsciiUpper c || isAsciiLower c) && negb (c =? 73) = true ->
                string_gt_number (c :: s) n = false.
End Laws.

(** ** Words of the specification, for the comparisons below *)

(** [needle] occurs in [s]. *)
Definition Contains (needle s : jsstring) : Prop :=
  exists pre post, s = pre ++ needle ++ post.

(** The decimal numeral [ds] read from the left, continuing from [acc]. *)
Definition decimalValue (acc : N) (ds : jsstring) : N :=
  fold_left (fun a d => 10 * a + (d - 48)) ds acc.

(** After [pre], [s] reads "longer than " and then the decimal numeral [ds],
    which is followed by no further digit. *)
Definition LongerThanMatch (s pre ds : jsstring) : Prop :=
  exists post,
    s = pre ++ lit "longer than " ++ ds ++ post /\
    ds <> [] /\ Forall (fun c => isDigit c = true) ds /\
    (forall c post', post = c :: post' -> isDigit c = false).

(** After [pre], [s] reads "containing the letter " and then the word
    character [c]. *)
Definition ContainingLetterMatch (s pre : jsstring) (c : N) : Prop :=
  exists post,
    s = pre ++ lit "containing the letter " ++ c :: post /\ isWord c = true.

(** [s] has, after [pre], a match of the anchored pattern [at_start] with
    result [m]. *)
Definition MatchAt {A} (at_start : jsstring -> option A) (s pre : jsstring)
    (m : A) : Prop :=
  exists suf, s = pre ++ suf /\ at_start suf = Some m.

(** [pre] is the shortest of the prefixes that [M] accepts: the leftmost
    match. *)
Definition Leftmost (M : jsstring -> Prop) (pre : jsstring) : Prop :=
  M pre /\ forall pre', M pre' -> (List.length pre <= List.length pre')%nat.

(** The number of times [k] is in [l]. *)
Definition occurrences (k : jsstring) (l : list jsstring) : nat :=
  List.length (List.filter (str_eq k) l).

(** The FilterSet of the specification: validated values only. *)
Module FilterSet.
Record t := mk {
  is_palindrome : option bool;
  min_length : option nat;
  max_length : option nat;
  word_count : option nat;
  contains_character : option N;
}.

Definition number_of (n : nat) : number := Num (Z.of_nat n).

(** The [filters] object that holds these values. *)
Definition filters (fs : t) : Filters.t :=
  Filters.mk (is_palindrome fs)
    (option_map number_of (min_length fs))
    (option_map number_of (max_length fs))
    (option_map number_of (word_count fs))
    (option_map (fun c => [c]) (contains_character fs)).

(** A record satisfies every filter that is present. *)
Definition Satisfies (fs : t) (r : V1.AnalyzedString) : Prop :=
  (forall b, is_palindrome fs = Some b ->
             V1.is_palindrome (V1.properties r) = b) /\
  (forall n, min_length fs = Some n ->
             (n <= V1.length (V1.properties r))%nat) /\
  (forall n, max_length fs = Some n ->
             (V1.length (V1.properties r) <= n)%nat) /\
  (forall n, word_count fs = Some n ->
             V1.word_count (V1.properties r) = n) /\
  (forall c, contains_character fs = Some c -> In c (V1.value r)).
End FilterSet.

(** The decimal numeral of a non-negative integer, as a query would spell
    it. *)
Fixpoint toDecimalFrom (fuel : nat) (n : N) (acc : jsstring) : jsstring :=
  match fuel with
  | O => acc
  | S fuel =>
      let acc := (48 + n mod 10) :: acc in
      if n <? 10 then acc else toDecimalFrom fuel (n / 10) acc
  end.

Definition toDecimal (n : N) : jsstring :=
  toDecimalFrom (Datatypes.S (N.to_nat n)) n [].

(** A decimal numeral that [parseInt] reads as the number [n]: the digits
    of its value, which for the infinity are the 309 digits of 2^1024. *)
Definition numeralOf (n : number) : jsstring :=
  match n with
  | Num z => toDecimal (Z.to_N z)
  | NaN => lit "NaN"
  end.

(** The query parameters that spell out a [filters] object. *)
Definition queryOf (f : Filters.t) : Raw.t :=
  Raw.mk
    (option_map (fun b : bool => if b then lit "true" else lit "false")
       (Filters.is_palindrome f))
    (option_map numeralOf (Filters.min_length f))
    (option_map numeralOf (Filters.max_length f))
    (option_map numeralOf (Filters.word_count f))
    (Filters.contains_character f).

(** ** A runtime for ASCII text

    Lower-casing letter by letter, the digest replaced by the text itself,
    and a comparison with a number that reads unsigned decimal numerals
    only.  It satisfies the facts above and serves to run the routes on
    concrete requests. *)
Definition asciiToLowerCase (s : jsstring) : jsstring := map asciiLowerUnit s.

Definition decimal_gt_number (s : jsstring) (n : Z) : bool :=
  match s with
  | [] => (n <? 0)%Z
  | _ => if forallb isDigit s
         then num_gt (parseInt s (Some 10)) (Num n) else false
  end.

Definition asciiRuntime : JsBuiltins :=
  {| toLowerCase := asciiToLowerCase;
     sha256_hex := fun s => s;
     string_gt_number := decimal_gt_number |}.

(** ** The rules of validation, for the comparisons below *)

(** The message of a rule when the parameter is there and breaks it. *)
Definition ruleError (raw : option jsstring) (broken : jsstring -> bool)
    (msg : string) : list string :=
  match raw with
  | Some v => if broken v then [msg] else []
  | None => []
  end.

(** Not the literal "true" nor the literal "false". *)
Definition notBoolean (v : jsstring) : bool :=
  negb (str_eq v (lit "true")) && negb (str_eq v (lit "false")).

(** Not read by [parseInt] in base 10 as an integer that is 0 or more. *)
Definition notNatural (v : jsstring) : bool :=
  isNaN (parseInt v (Some 10)) || num_lt (parseInt v (Some 10)) (Num 0).

(** Not exactly one code unit. *)
Definition notSingle (v : jsstring) : bool :=
  negb (Nat.eqb (List.length v) 1).

(** The message of the rule on the two bounds: both are there, both are
    valid, and the lower one is the greater. *)
Definition boundsError (q : Raw.t) (msg : string) : list string :=
  match Raw.min_length q, Raw.max_length q with
  | Some lo, Some hi =>
      if negb (notNatural lo) && negb (notNatural hi)
         && num_gt (parseInt lo (Some 10)) (parseInt hi (Some 10))
      then [msg] else []
  | _, _ => []
  end.

(** The messages of the second variant. *)
Definition messages2 : list string :=
  ["is_palindrome must be true or false";
   "Minlength must not be a negative number";
   "Maxlength must not be a negative number";
   "Wordcount must not be a negative number";
   "contains_character must be a single character";
   "min_length cannot be greater than max_length"]%string.

(** ** The invariant of the store

    Every entry stands under the digest of its own record, and no key
    stands twice. *)
Definition KeyedBy {R} (digest : R -> jsstring) (st : JsMap.t R) : Prop :=
  NoDup (JsMap.keys st) /\ forall k r, (k, r) ∈ st -> k = digest r.

(** The invariant in each variant: the key of an entry is the digest of
    the record's [value], and is the record's [id] and [sha256_hash]. *)
Definition StoreInvariant1 `{JsBuiltins} (st : V1.store) : Prop :=
  KeyedBy (fun r => generateHash (V1.value r)) st /\
  forall k r, (k, r) ∈ st ->
              V1.id r = k /\ V1.sha256_hash (V1.properties r) = k.

Definition StoreInvariant2 `{JsBuiltins} (st : V2.store) : Prop :=
  KeyedBy (fun r => generateHash (V2.value r)) st /\
  forall k r, (k, r) ∈ st ->
              V2.id r = k /\ V2.sha256_hash (V2.properties r) = k.

(** The step of the loop that fills [charFrequency]. *)
Abbreviation countChar :=
  (fun (freq : gmap (list N) nat) (char : list N) =>
     <[char := (default 0 (freq !! char) + 1)%nat]> freq).

(** Bounds of the classes of code units, for [lia]. *)
Ltac class_bounds :=
  unfold isWhitespace, isWord, isDigit, isAsciiUpper, isAsciiLower,
    isHighSurrogate, isLowSurrogate, asciiLowerUnit, inRange in *;
  repeat match goal with
    | H : _ = true |- _ =>
        rewrite ?Bool.orb_true_iff, ?Bool.andb_true_iff, ?N.leb_le, ?N.eqb_eq,
          ?N.ltb_lt in H
    | H : _ = false |- _ =>
        rewrite ?Bool.orb_false_iff, ?Bool.andb_false_iff, ?N.leb_gt,
          ?N.eqb_neq, ?N.ltb_ge in H
    end.

(** Cases on every test of a conditional, for the rules of validation. *)
Ltac split_rules :=
  repeat match goal with
    | |- context [if ?b then _ else _] => destruct b eqn:?; simpl
    end.

(** ** Further words for the comparisons below *)

(** The number of words of [s], counted directly: a word is a maximal run
    of code units that are not whitespace.  [inword] says that the code unit
    before [s] is in a word, which is counted where it ends. *)
Fixpoint wordRuns (inword : bool) (s : jsstring) : nat :=
  match s with
  | [] => if inword then 1%nat else 0%nat
  | c :: s' =>
      if isWhitespace c
      then ((if inword then 1 else 0) + wordRuns false s')%nat
      else wordRuns true s'
  end.

(** Text made of ASCII code units. *)
Definition isAscii (s : jsstring) : bool := forallb (fun c => c <? 128) s.

(** The sum of the counts of a frequency map. *)
Definition totalCount (freq : gmap (list N) nat) : nat :=
  map_fold (fun _ n acc => (n + acc)%nat) 0%nat freq.

(** What a record of either variant says, whatever its layout: [id],
    [value], the six properties and [created_at]. *)
Definition facts1 (r : V1.AnalyzedString) :=
  (V1.id r, V1.value r,
   (V1.length (V1.properties r), V1.is_palindrome (V1.properties r),
    V1.unique_characters (V1.properties r), V1.word_count (V1.properties r),
    V1.sha256_hash (V1.properties r),
    V1.character_frequency_map (V1.properties r)),
   V1.created_at r).

Definition facts2 (r : V2.AnalyzedString) :=
  (V2.id r, V2.value r,
   (V2.length (V2.properties r), V2.is_palindrome (V2.properties r),
    V2.unique_characters (V2.properties r), V2.word_count (V2.properties r),
    V2.sha256_hash (V2.properties r),
    V2.character_frequency_map (V2.properties r)),
   V2.created_at (V2.properties r)).

(** The same request for either variant. *)
Definition request2 (r : V1.request) : V2.request :=
  match r with
  | V1.Post now value => V2.Post now value
  | V1.GetNaturalLanguage query => V2.GetNaturalLanguage query
  | V1.GetOne string_value => V2.GetOne string_value
  | V1.GetAll q => V2.GetAll q
  | V1.Delete string_value => V2.Delete string_value
  end.

(** Two stores, one of each variant, with the same keys in the same order
    and records that say the same. *)
Definition alike (st1 : V1.store) (st2 : V2.store) : Prop :=
  map (fun entry => (entry.1, facts1 entry.2)) st1
  = map (fun entry => (entry.1, facts2 entry.2)) st2.

(** A filter set as one test on a record: every filter that is there
    passes. *)
Definition passes (f : Filters.t) (item : V1.AnalyzedString) : bool :=
  match Filters.is_palindrome f with
  | Some b => Bool.eqb (V1.is_palindrome (V1.properties item)) b
  | None => true
  end
  && match Filters.min_length f with
     | Some n => num_ge (Num (Z.of_nat (V1.length (V1.properties item)))) n
     | None => true
     end
  && match Filters.max_length f with
     | Some n => num_le (Num (Z.of_nat (V1.length (V1.properties item)))) n
     | None => true
     end
  && match Filters.word_count f with
     | Some n => num_eq (Num (Z.of_nat (V1.word_count (V1.properties item)))) n
     | None => true
     end
  && match Filters.contains_character f with
     | Some c => includes c (V1.value item)
     | None => true
     end.

Section FirstCreations.
Context `{JsBuiltins}.

(** The calls of a sequence of creations that are the first for their
    digest, the digests in [seen] counting as met already. *)
Fixpoint firstCreations (seen : list jsstring)
    (calls : list (list N * list N)) : list (list N * list N) :=
  match calls with
  | [] => []
  | call :: calls' =>
      if bool_decide (generateHash call.2 ∈ seen)
      then firstCreations seen calls'
      else call :: firstCreations (seen ++ [generateHash call.2]) calls'
  end.
End FirstCreations.

(** * Properties *)

(** ** The frequency map and the set of characters *)

Lemma occurrences_cons (k ch : list N) (l : list (list N)) :
  occurrences k (ch :: l) =
  (if bool_decide (k = ch) then Datatypes.S (occurrences k l)
   else occurrences k l).
Proof.
  unfold occurrences, str_eq. simpl. by destruct (bool_decide (k = ch)).
Qed.

Lemma occurrences_zero (k : list N) (l : list (list N)) : occurrences k l = 0%nat <-> k ∉ l.
Proof.
  induction l as [|ch l IH].
  - split; [intros _; apply not_elem_of_nil | done].
  - rewrite occurrences_cons, not_elem_of_cons.
    case_bool_decide; [|tauto].
    split; [discriminate | tauto].
Qed.

(** The keys of the map after the loop over [l]. *)
Lemma dom_countChar (l : list (list N)) (freq : gmap (list N) nat) :
  dom (foldl countChar freq l) = dom freq ∪ list_to_set l.
Proof.
  revert freq. induction l as [|ch l IH]; intros freq; simpl.
  - by rewrite (right_id_L ∅ (∪)).
  - rewrite IH, dom_insert_L.
    by rewrite (comm_L (∪) {[ch]} (dom freq)), (assoc_L (∪)).
Qed.

(** The counts of the map after the loop over [l]. *)
Lemma lookup_countChar (l : list (list N)) (freq : gmap (list N) nat)
    (k : list N) :
  foldl countChar freq l !! k =
  (if Nat.eqb (occurrences k l) 0 then freq !! k
   else Some (default 0 (freq !! k) + occurrences k l)%nat).
Proof.
  revert freq. induction l as [|ch l IH]; intros freq; simpl; [done|].
  rewrite IH, occurrences_cons.
  case_bool_decide as Hk.
  - subst ch. rewrite lookup_insert_eq. simpl.
    destruct (Nat.eqb_spec (occurrences k l) 0) as [->|_]; f_equal; lia.
  - rewrite lookup_insert_ne by congruence. done.
Qed.

Lemma lookup_countChar_empty (l : list (list N)) (k : list N) :
  foldl countChar (∅ : gmap (list N) nat) l !! k =
  (if Nat.eqb (occurrences k l) 0 then None else Some (occurrences k l)).
Proof. rewrite lookup_countChar, lookup_empty. done. Qed.

(** C9. In the record [analyzeString] returns, [unique_characters] is the
    number of keys of [character_frequency_map], and a character is a key of
    the map exactly when it is a member of the set that was counted, which is
    exactly when the string iterator yields it. *)
Theorem unique_characters_is_number_of_frequency_keys
    `{JsBuiltins} (now v : jsstring) :
  let p := V1.properties (V1.analyzeString now v) in
  V1.unique_characters p = size (V1.character_frequency_map p) /\
  forall ch : list N,
    (is_Some (V1.character_frequency_map p !! ch) <->
     ch ∈ (list_to_set (codePoints v) : gset (list N))) /\
    (ch ∈ (list_to_set (codePoints v) : gset (list N)) <-> ch ∈ codePoints v).
Proof.
  simpl. split.
  - rewrite <- size_dom. rewrite dom_countChar, dom_empty_L.
    by rewrite (left_id_L ∅ (∪)).
  - intros ch. split.
    + rewrite <- elem_of_dom, dom_countChar, dom_empty_L.
      by rewrite (left_id_L ∅ (∪)).
    + apply elem_of_list_to_set.
Qed.

(** ** Classes of code units *)

Lemma whitespace_not_high_surrogate c :
  isWhitespace c = true -> isHighSurrogate c = false.
Proof.
  intros Hc. destruct (isHighSurrogate c) eqn:Hs; [|done].
  class_bounds. lia.
Qed.

Lemma whitespace_not_upper c : isWhitespace c = true -> isAsciiUpper c = false.
Proof.
  intros Hc. destruct (isAsciiUpper c) eqn:Hs; [|done].
  class_bounds. lia.
Qed.

(** ** Strings made of whitespace *)

Lemma trimStart_whitespace s : forallb isWhitespace s = true -> trimStart s = [].
Proof.
  induction s as [|c s IH]; simpl; [done|].
  intros [Hc Hs]%Bool.andb_true_iff. rewrite Hc. auto.
Qed.

Lemma trim_whitespace s : forallb isWhitespace s = true -> trim s = [].
Proof. intros Hs. unfold trim. by rewrite trimStart_whitespace. Qed.

Lemma removeWhitespace_whitespace s :
  forallb isWhitespace s = true -> removeWhitespace s = [].
Proof.
  unfold removeWhitespace.
  induction s as [|c s IH]; simpl; [done|].
  intros [Hc Hs]%Bool.andb_true_iff. rewrite Hc. simpl. auto.
Qed.

Lemma codePoints_whitespace s :
  forallb isWhitespace s = true -> codePoints s = map (fun c => [c]) s.
Proof.
  induction s as [|c s IH]; [done|].
  intros [Hc Hs]%Bool.andb_true_iff.
  change (codePoints (c :: s)) with
    (match s with
     | d :: s'' => if isHighSurrogate c && isLowSurrogate d
                   then [c; d] :: codePoints s'' else [c] :: codePoints s
     | [] => [[c]]
     end).
  rewrite (whitespace_not_high_surrogate c Hc). simpl.
  destruct s; [done|]. by rewrite IH.
Qed.

Lemma occurrences_singletons (k : list N) (s : list N) :
  occurrences k (map (fun c => [c]) s) =
  match k with
  | [c] => count_occ N.eq_dec s c
  | _ => 0%nat
  end.
Proof.
  induction s as [|d s IH]; simpl.
  - by destruct k as [|? [|]].
  - rewrite occurrences_cons, IH.
    destruct k as [|c [|]]; try (by case_bool_decide).
    destruct (N.eq_dec d c) as [->|Hne].
    + by rewrite bool_decide_eq_true_2.
    + rewrite bool_decide_eq_false_2; [done | congruence].
Qed.

(** C3. Two calls of [analyzeString] on the same string, at whatever
    times, give records with the same [id], [value] and properties. In the
    first variant the whole [properties] object is the same and [created_at]
    stands beside it; in the second variant [created_at] is a member of
    [properties], whose six other members are the same. [created_at] is the
    time of the call, so it is the one member that can differ. *)
Theorem analyzeString_same_but_for_created_at
    `{JsBuiltins} (t1 t2 v : jsstring) :
  (V1.id (V1.analyzeString t1 v) = V1.id (V1.analyzeString t2 v) /\
   V1.value (V1.analyzeString t1 v) = V1.value (V1.analyzeString t2 v) /\
   V1.properties (V1.analyzeString t1 v)
   = V1.properties (V1.analyzeString t2 v) /\
   V1.created_at (V1.analyzeString t1 v) = t1 /\
   V1.created_at (V1.analyzeString t2 v) = t2) /\
  (let p1 := V2.properties (V2.analyzeString t1 v) in
   let p2 := V2.properties (V2.analyzeString t2 v) in
   V2.id (V2.analyzeString t1 v) = V2.id (V2.analyzeString t2 v) /\
   V2.value (V2.analyzeString t1 v) = V2.value (V2.analyzeString t2 v) /\
   V2.length p1 = V2.length p2 /\
   V2.is_palindrome p1 = V2.is_palindrome p2 /\
   V2.unique_characters p1 = V2.unique_characters p2 /\
   V2.word_count p1 = V2.word_count p2 /\
   V2.sha256_hash p1 = V2.sha256_hash p2 /\
   V2.character_frequency_map p1 = V2.character_frequency_map p2 /\
   V2.created_at p1 = t1 /\ V2.created_at p2 = t2).
Proof. repeat split. Qed.

(** C7. The empty string is analyzed to length 0, word count 0, no
    unique character, palindrome, and an empty frequency map. A string [s]
    made of whitespace only is analyzed to word count 0 and palindrome, while
    its length is its number of code units and its frequency map has, for
    each whitespace character of [s], the number of times it stands in [s],
    and no other key. *)
Theorem analyzeString_empty_and_whitespace
    `{JsBuiltins} (Hlower : LowerCaseOfWhitespace)
    (now s : jsstring) (Hs : forallb isWhitespace s = true) :
  (let p := V1.properties (V1.analyzeString now []) in
   V1.length p = 0%nat /\ V1.word_count p = 0%nat /\
   V1.unique_characters p = 0%nat /\ V1.is_palindrome p = true /\
   V1.character_frequency_map p = ∅) /\
  (let p := V1.properties (V1.analyzeString now s) in
   V1.word_count p = 0%nat /\ V1.is_palindrome p = true /\
   V1.length p = List.length s /\
   forall ch : list N,
     V1.character_frequency_map p !! ch =
     match ch with
     | [c] => if Nat.eqb (count_occ N.eq_dec s c) 0 then None
              else Some (count_occ N.eq_dec s c)
     | _ => None
     end).
Proof.
  split.
  - simpl. rewrite (Hlower [] eq_refl). repeat split.
  - simpl. rewrite (Hlower s Hs), removeWhitespace_whitespace by done.
    rewrite trim_whitespace by done. repeat split.
    intros ch. rewrite lookup_countChar_empty, codePoints_whitespace by done.
    rewrite occurrences_singletons. by destruct ch as [|c [|]].
Qed.

(** ** The map of the store *)
Section JsMapFacts.
Context {V : Type}.
Implicit Types (m : JsMap.t V) (k : list N) (v : V).

Lemma has_get k m : JsMap.has k m = true <-> is_Some (JsMap.get k m).
Proof.
  unfold JsMap.has. destruct (JsMap.get k m); split; done.
Qed.

Lemma has_false_get k m : JsMap.has k m = false <-> JsMap.get k m = None.
Proof. unfold JsMap.has. by destruct (JsMap.get k m). Qed.

Lemma get_elem_of k v m : JsMap.get k m = Some v -> (k, v) ∈ m.
Proof.
  induction m as [|[k' v'] m IH]; simpl; [done|].
  case_bool_decide as Hk.
  - intros [= ->]. subst. apply elem_of_cons. by left.
  - intros Hg. apply elem_of_cons. right. auto.
Qed.

Lemma get_None_keys k m : JsMap.get k m = None <-> k ∉ JsMap.keys m.
Proof.
  induction m as [|[k' v'] m IH]; simpl.
  - split; [intros _; apply not_elem_of_nil | done].
  - rewrite not_elem_of_cons. case_bool_decide as Hk.
    + split; [done | intros [Hne _]; congruence].
    + rewrite IH. split; [intros ?; split; [congruence | done] | tauto].
Qed.

Lemma elem_of_get k v m : NoDup (JsMap.keys m) -> (k, v) ∈ m -> JsMap.get k m = Some v.
Proof.
  induction m as [|[k' v'] m IH]; simpl.
  - intros _ Hin. by apply elem_of_nil in Hin.
  - intros [Hk' Hnd]%NoDup_cons [Heq|Hin]%elem_of_cons.
    + injection Heq as -> ->. by rewrite bool_decide_eq_true_2.
    + case_bool_decide as Hk; [|auto].
      subst k'. exfalso. apply Hk'.
      apply list_elem_of_fmap. by exists (k, v).
Qed.

(** [set] on a key that is not there appends the entry. *)
Lemma set_absent k v m : JsMap.has k m = false -> JsMap.set k v m = m ++ [(k, v)].
Proof.
  rewrite has_false_get.
  induction m as [|[k' v'] m IH]; simpl; [done|].
  case_bool_decide as Hk; [done|]. intros Hg. by rewrite IH.
Qed.

Lemma elem_of_delete k k' v m :
  NoDup (JsMap.keys m) ->
  (k', v) ∈ JsMap.delete k m <-> (k', v) ∈ m /\ k' <> k.
Proof.
  induction m as [|[k0 v0] m IH]; simpl.
  - intros _. split; [intros Hin; by apply elem_of_nil in Hin | intros [Hin _]; by apply elem_of_nil in Hin].
  - intros [Hk0 Hnd]%NoDup_cons. case_bool_decide as Hk.
    + subst k0. rewrite elem_of_cons. split.
      * intros Hin. split; [by right|]. intros ->. apply Hk0.
        apply list_elem_of_fmap. by exists (k, v).
      * intros [[Heq|Hin] Hne]; [congruence | done].
    + rewrite !elem_of_cons, IH by done. split.
      * intros [Heq|[Hin Hne]]; [|tauto].
        split; [by left | congruence].
      * intros [[Heq|Hin] Hne]; [by left | right; done].
Qed.

Lemma keys_delete k m : JsMap.keys (JsMap.delete k m) ⊆ JsMap.keys m.
Proof.
  induction m as [|[k0 v0] m IH]; simpl; [done|].
  case_bool_decide.
  - intros x Hx. apply elem_of_cons. by right.
  - intros x [->|Hx]%elem_of_cons; apply elem_of_cons; [by left|].
    right. by apply IH.
Qed.

Lemma NoDup_keys_delete k m : NoDup (JsMap.keys m) -> NoDup (JsMap.keys (JsMap.delete k m)).
Proof.
  induction m as [|[k0 v0] m IH]; simpl; [done|].
  intros [Hk0 Hnd]%NoDup_cons. case_bool_decide; [done|].
  simpl. apply NoDup_cons. split; [|auto].
  intros Hin. apply Hk0. by apply (keys_delete k m).
Qed.

(** An absent key keeps a keyed map keyed when its entry is appended. *)
Lemma KeyedBy_append (digest : V -> jsstring) k v m :
  KeyedBy digest m -> JsMap.has k m = false -> k = digest v ->
  KeyedBy digest (m ++ [(k, v)]).
Proof.
  intros [Hnd Hkey] Habs Hk. split.
  - unfold JsMap.keys. rewrite fmap_app. simpl.
    apply NoDup_app. split; [done|]. split; [|apply NoDup_singleton].
    intros x Hx ->%list_elem_of_singleton.
    apply has_false_get, get_None_keys in Habs. by apply Habs.
  - intros k' r [Hin|Hin]%elem_of_app; [auto|].
    apply list_elem_of_singleton in Hin. congruence.
Qed.

Lemma KeyedBy_delete (digest : V -> jsstring) k m :
  KeyedBy digest m -> KeyedBy digest (JsMap.delete k m).
Proof.
  intros [Hnd Hkey]. split; [by apply NoDup_keys_delete|].
  intros k' r Hin. apply elem_of_delete in Hin; [|done]. apply Hkey, Hin.
Qed.

(** In a keyed map at most one record has a given digest. *)
Lemma KeyedBy_at_most_one (digest : V -> jsstring) (P : V -> bool) k m :
  KeyedBy digest m -> (forall r, P r = true -> digest r = k) ->
  (List.length (List.filter P (JsMap.values m)) <= 1)%nat.
Proof.
  intros [Hnd Hkey] HP.
  induction m as [|[k0 v0] m IH]; simpl; [lia|].
  apply NoDup_cons in Hnd as [Hk0 Hnd].
  assert (Hm : forall k' r, (k', r) ∈ m -> k' = digest r).
  { intros k' r Hin. apply Hkey, elem_of_cons. by right. }
  specialize (IH Hnd Hm).
  destruct (P v0) eqn:Hv0; [|done]. simpl.
  assert (Hnone : List.filter P (JsMap.values m) = []).
  { clear IH. induction m as [|[k1 v1] m IHm]; simpl; [done|].
    destruct (P v1) eqn:Hv1.
    - exfalso. apply Hk0. simpl. apply elem_of_cons. left.
      rewrite (Hkey k0 v0) by (apply elem_of_cons; by left).
      rewrite (Hm k1 v1) by (apply elem_of_cons; by left).
      by rewrite (HP v0 Hv0), (HP v1 Hv1).
    - apply IHm.
      + intros Hin. apply Hk0. simpl. apply elem_of_cons. by right.
      + by apply NoDup_cons in Hnd as [_ ?].
      + intros k' r [Heq|Hin]%elem_of_cons; apply Hkey.
        * apply elem_of_cons. by left.
        * apply elem_of_cons. right. apply elem_of_cons. by right.
      + intros k' r Hin. apply Hm, elem_of_cons. by right. }
  rewrite Hnone. simpl. lia.
Qed.

Lemma get_set_eq k v m : JsMap.get k (JsMap.set k v m) = Some v.
Proof.
  induction m as [|[k' v'] m IH]; simpl.
  - by rewrite bool_decide_eq_true_2.
  - case_bool_decide as Hk; simpl.
    + by rewrite bool_decide_eq_true_2.
    + by rewrite bool_decide_eq_false_2.
Qed.

Lemma KeyedBy_nil (digest : V -> jsstring) : KeyedBy digest [].
Proof.
  split; [apply NoDup_nil_2|]. intros k r Hin. by apply elem_of_nil in Hin.
Qed.
End JsMapFacts.

(** ** Creation: conflict or insertion *)
Section Creation.
Context `{JsBuiltins}.

Lemma post_strings1 (now v : jsstring) (st : V1.store) :
  V1.post_strings now (JString v) st =
  (if JsMap.has (generateHash v) st
   then (respond 409
           (ErrorMessage "Duplicate string" "This string already exists"),
         st)
   else (respond 201 (Analyzed (V1.analyzeString now v)),
         st ++ [(generateHash v, V1.analyzeString now v)])).
Proof.
  simpl. destruct (JsMap.has (generateHash v) st) eqn:Hhas; [done|].
  by rewrite set_absent.
Qed.

Lemma post_strings2 (now v : jsstring) (st : V2.store) :
  V2.post_strings now (JString v) st =
  (if JsMap.has (generateHash v) st
   then (respond 409
           (ErrorExisting "Conflict" " String already exists in the system"
              (JsMap.get (generateHash v) st)),
         st)
   else (respond 201 (Analyzed (V2.analyzeString now v)),
         st ++ [(generateHash v, V2.analyzeString now v)])).
Proof.
  simpl. destruct (JsMap.has (generateHash v) st) eqn:Hhas; [done|].
  by rewrite set_absent.
Qed.

Lemma has_after_post1 (now v : jsstring) (st : V1.store) :
  JsMap.has (generateHash v) (V1.post_strings now (JString v) st).2 = true.
Proof.
  simpl. destruct (JsMap.has (generateHash v) st) eqn:Hhas; [done|].
  simpl. apply has_get. rewrite get_set_eq. by eexists.
Qed.

Lemma has_after_post2 (now v : jsstring) (st : V2.store) :
  JsMap.has (generateHash v) (V2.post_strings now (JString v) st).2 = true.
Proof.
  simpl. destruct (JsMap.has (generateHash v) st) eqn:Hhas; [done|].
  simpl. apply has_get. rewrite get_set_eq. by eexists.
Qed.

Lemma post_strings_invariant1 now value (st : V1.store) :
  StoreInvariant1 st -> StoreInvariant1 (V1.post_strings now value st).2.
Proof.
  intros [Hkey Hid]. destruct value as [|v|]; [done| |done].
  rewrite post_strings1.
  destruct (JsMap.has (generateHash v) st) eqn:Hhas; [done|]. simpl. split.
  - by apply KeyedBy_append.
  - intros k r [Hin|Hin]%elem_of_app; [auto|].
    apply list_elem_of_singleton in Hin. by injection Hin as -> ->.
Qed.

Lemma post_strings_invariant2 now value (st : V2.store) :
  StoreInvariant2 st -> StoreInvariant2 (V2.post_strings now value st).2.
Proof.
  intros [Hkey Hid]. destruct value as [|v|]; [done| |done].
  rewrite post_strings2.
  destruct (JsMap.has (generateHash v) st) eqn:Hhas; [done|]. simpl. split.
  - by apply KeyedBy_append.
  - intros k r [Hin|Hin]%elem_of_app; [auto|].
    apply list_elem_of_singleton in Hin. by injection Hin as -> ->.
Qed.

Lemma puts_invariant1 calls (st : V1.store) :
  StoreInvariant1 st -> StoreInvariant1 (V1.puts calls st).
Proof.
  revert st. induction calls as [|call calls IH]; intros st Hst; [done|].
  apply IH. by apply post_strings_invariant1.
Qed.

Lemma puts_invariant2 calls (st : V2.store) :
  StoreInvariant2 st -> StoreInvariant2 (V2.puts calls st).
Proof.
  revert st. induction calls as [|call calls IH]; intros st Hst; [done|].
  apply IH. by apply post_strings_invariant2.
Qed.

Lemma invariant_nil1 : StoreInvariant1 [].
Proof.
  split; [apply KeyedBy_nil|]. intros k r Hin. by apply elem_of_nil in Hin.
Qed.

Lemma invariant_nil2 : StoreInvariant2 [].
Proof.
  split; [apply KeyedBy_nil|]. intros k r Hin. by apply elem_of_nil in Hin.
Qed.

(** C1. In both variants, creating [v] in a store that has the key
    [generateHash v] answers 409 and leaves the store as it was; otherwise
    it answers 201 with the analysis of [v] and appends that record under
    [generateHash v], so that creating [v] again is answered 409.  After any
    sequence of creations from the empty store, at most one record has a
    given value. *)
Theorem put_conflicts_or_inserts_once :
  (forall (st : V1.store) (now v : jsstring),
      V1.post_strings now (JString v) st =
      (if JsMap.has (generateHash v) st
       then (respond 409
               (ErrorMessage "Duplicate string" "This string already exists"),
             st)
       else (respond 201 (Analyzed (V1.analyzeString now v)),
             st ++ [(generateHash v, V1.analyzeString now v)]))) /\
  (forall (st : V1.store) (now again v : jsstring),
      status (V1.post_strings again (JString v)
                (V1.post_strings now (JString v) st).2).1 = 409%nat) /\
  (forall (calls : list (list N * list N)) (w : jsstring),
      (List.length
         (List.filter (fun r => str_eq (V1.value r) w)
            (JsMap.values (V1.puts calls []))) <= 1)%nat) /\
  (forall (st : V2.store) (now v : jsstring),
      V2.post_strings now (JString v) st =
      (if JsMap.has (generateHash v) st
       then (respond 409
               (ErrorExisting "Conflict"
                  " String already exists in the system"
                  (JsMap.get (generateHash v) st)),
             st)
       else (respond 201 (Analyzed (V2.analyzeString now v)),
             st ++ [(generateHash v, V2.analyzeString now v)]))) /\
  (forall (st : V2.store) (now again v : jsstring),
      status (V2.post_strings again (JString v)
                (V2.post_strings now (JString v) st).2).1 = 409%nat) /\
  (forall (calls : list (list N * list N)) (w : jsstring),
      (List.length
         (List.filter (fun r => str_eq (V2.value r) w)
            (JsMap.values (V2.puts calls []))) <= 1)%nat).
Proof.
  split_and!.
  - intros st now v. apply post_strings1.
  - intros st now again v.
    pose proof (has_after_post1 now v st) as Hhas.
    rewrite (post_strings1 again). by rewrite Hhas.
  - intros calls w.
    destruct (puts_invariant1 calls [] invariant_nil1) as [Hkey _].
    apply (KeyedBy_at_most_one _ _ (generateHash w) _ Hkey).
    intros r Hr. unfold str_eq in Hr.
    apply bool_decide_eq_true in Hr. by rewrite Hr.
  - intros st now v. apply post_strings2.
  - intros st now again v.
    pose proof (has_after_post2 now v st) as Hhas.
    rewrite (post_strings2 again). by rewrite Hhas.
  - intros calls w.
    destruct (puts_invariant2 calls [] invariant_nil2) as [Hkey _].
    apply (KeyedBy_at_most_one _ _ (generateHash w) _ Hkey).
    intros r Hr. unfold str_eq in Hr.
    apply bool_decide_eq_true in Hr. by rewrite Hr.
Qed.
End Creation.

(** ** The store stays keyed by the digest of the value *)
Section Keyed.
Context `{JsBuiltins}.

Lemma delete_string_invariant v (st : V1.store) :
  StoreInvariant1 st -> StoreInvariant1 (V1.delete_string v st).2.
Proof.
  intros [Hkey Hid]. unfold V1.delete_string.
  destruct (JsMap.has (generateHash v) st); simpl; [|done].
  split; [by apply KeyedBy_delete|].
  intros k r Hin. apply elem_of_delete in Hin; [|apply Hkey].
  apply Hid, Hin.
Qed.

Lemma handle_invariant (r : V1.request) (st : V1.store) :
  StoreInvariant1 st -> StoreInvariant1 (V1.handle r st).2.
Proof.
  destruct r; simpl; try done.
  - apply post_strings_invariant1.
  - apply delete_string_invariant.
Qed.

Lemma serve_invariant requests (st : V1.store) :
  StoreInvariant1 st -> StoreInvariant1 (V1.serve requests st).
Proof.
  revert st. induction requests as [|r requests IH]; intros st Hst; [done|].
  apply IH. by apply handle_invariant.
Qed.

(** C8. Whatever requests the process has served since its start, every
    entry of the store stands under the digest of its record's [value],
    which is also the record's [id] and [sha256_hash]; reading [v] answers
    only with the record under [generateHash v], whose value has that
    digest; and deleting [v] removes the entry under [generateHash v] and
    no other. *)
Theorem store_keyed_by_digest_of_value (requests : list V1.request) :
  let st := V1.serve requests [] in
  (forall k r, (k, r) ∈ st ->
     k = generateHash (V1.value r) /\ V1.id r = k /\
     V1.sha256_hash (V1.properties r) = k) /\
  (forall v r, payload (V1.get_string v st) = Analyzed r ->
     (generateHash v, r) ∈ st /\
     generateHash (V1.value r) = generateHash v) /\
  (forall v k r, (k, r) ∈ (V1.delete_string v st).2 <->
     (k, r) ∈ st /\ k <> generateHash v).
Proof.
  intros st.
  destruct (serve_invariant requests [] invariant_nil1) as [[Hnd Hkey] Hid].
  fold st in Hnd, Hkey, Hid. split_and!.
  - intros k r Hin. split; [by apply Hkey | by apply Hid].
  - intros v r. unfold V1.get_string.
    destruct (JsMap.has (generateHash v) st); simpl; [|done].
    destruct (JsMap.get (generateHash v) st) as [r'|] eqn:Hget; [|done].
    simpl. intros [= ->]. apply get_elem_of in Hget.
    split; [done|]. symmetry. by apply Hkey.
  - intros v k r. unfold V1.delete_string.
    destruct (JsMap.has (generateHash v) st) eqn:Hhas; simpl.
    + by apply elem_of_delete.
    + split; [|tauto]. intros Hin. split; [done|]. intros ->.
      apply has_false_get, get_None_keys in Hhas. apply Hhas.
      apply list_elem_of_fmap. by exists (generateHash v, r).
Qed.
End Keyed.

(** ** Filtering *)

Lemma filter_filter_and {A} (f g : A -> bool) (l : list A) :
  List.filter g (List.filter f l) = List.filter (fun x => f x && g x) l.
Proof.
  induction l as [|x l IH]; simpl; [done|].
  destruct (f x); simpl; [|done]. destruct (g x); by rewrite IH.
Qed.

Lemma filter_all {A} (l : list A) : List.filter (fun _ => true) l = l.
Proof. induction l as [|x l IH]; simpl; [done | by rewrite IH]. Qed.

(** An optional filter is a filter by a test that passes when the filter is
    absent. *)
Lemma filter_optional {A B} (o : option B) (test : B -> A -> bool) (l : list A) :
  match o with Some b => List.filter (test b) l | None => l end =
  List.filter (fun x => match o with Some b => test b x | None => true end) l.
Proof. destruct o; [done | by rewrite filter_all]. Qed.

Lemma stripPrefix_Some p s rest : stripPrefix p s = Some rest <-> s = p ++ rest.
Proof.
  revert s. induction p as [|a p IH]; intros s; simpl.
  - split; congruence.
  - destruct s as [|b s]; [split; discriminate|].
    destruct (N.eqb_spec a b) as [->|Hne].
    + rewrite IH. split; congruence.
    + split; [discriminate | congruence].
Qed.

Lemma stripPrefix_app p rest : stripPrefix p (p ++ rest) = Some rest.
Proof. by apply stripPrefix_Some. Qed.

Lemma includes_Contains needle s : includes needle s = true <-> Contains needle s.
Proof.
  induction s as [|c s IH]; simpl.
  - destruct (stripPrefix needle []) as [rest|] eqn:Hp.
    + apply stripPrefix_Some in Hp. split; [intros _|done].
      exists [], rest. done.
    + split; [done|]. intros (pre & post & Heq).
      destruct pre; [|done]. simpl in Heq.
      apply stripPrefix_Some in Heq. congruence.
  - destruct (stripPrefix needle (c :: s)) as [rest|] eqn:Hp.
    + apply stripPrefix_Some in Hp. split; [intros _|done].
      exists [], rest. done.
    + rewrite IH. split.
      * intros (pre & post & ->). by exists (c :: pre), post.
      * intros (pre & post & Heq). destruct pre as [|c' pre].
        -- simpl in Heq. apply stripPrefix_Some in Heq. congruence.
        -- injection Heq as -> ->. by exists pre, post.
Qed.

(** With a single code unit, [includes] is membership. *)
Lemma includes_singleton c s : includes [c] s = true <-> In c s.
Proof.
  rewrite includes_Contains. split.
  - intros (pre & post & ->). apply in_or_app. right. by left.
  - intros (pre & post & ->)%in_split. by exists pre, post.
Qed.

(** C4. For every FilterSet and every sequence of records, the filtering
    of [GET /strings] returns the records of the sequence, in their order,
    that pass a test which holds exactly of the records satisfying every
    filter that is present: the palindrome flag and the word count equal,
    the length between the inclusive bounds, the character among the code
    units of the value, compared as they are. With the empty [filters] all
    records are returned. *)
Theorem applyFilters_returns_the_satisfying_records
    (fs : FilterSet.t) (rs : list V1.AnalyzedString) :
  (exists keep : V1.AnalyzedString -> bool,
      (forall r, keep r = true <-> FilterSet.Satisfies fs r) /\
      V1.applyFilters (FilterSet.filters fs) rs = List.filter keep rs) /\
  V1.applyFilters Filters.empty rs = rs.
Proof.
  split; [|done].
  destruct fs as [pal lo hi wc ch].
  unfold V1.applyFilters, FilterSet.filters; simpl.
  rewrite (filter_optional pal
             (fun b item => Bool.eqb (V1.is_palindrome (V1.properties item)) b)).
  rewrite (filter_optional (option_map FilterSet.number_of lo)
             (fun n item =>
                num_ge (Num (Z.of_nat (V1.length (V1.properties item)))) n)).
  rewrite (filter_optional (option_map FilterSet.number_of hi)
             (fun n item =>
                num_le (Num (Z.of_nat (V1.length (V1.properties item)))) n)).
  rewrite (filter_optional (option_map FilterSet.number_of wc)
             (fun n item =>
                num_eq (Num (Z.of_nat (V1.word_count (V1.properties item)))) n)).
  rewrite (filter_optional (option_map (fun c => [c]) ch)
             (fun c item => includes c (V1.value item))).
  rewrite !filter_filter_and.
  eexists. split; [|reflexivity].
  intros r. unfold FilterSet.Satisfies; simpl.
  rewrite !Bool.andb_true_iff.
  assert (Hpal : match pal with
                 | Some b => Bool.eqb (V1.is_palindrome (V1.properties r)) b
                 | None => true
                 end = true <->
                 forall b, pal = Some b -> V1.is_palindrome (V1.properties r) = b).
  { destruct pal as [b|]; [|split; [intros _ ?; discriminate | done]].
    rewrite Bool.eqb_true_iff. split; [congruence | auto]. }
  assert (Hlo : match option_map FilterSet.number_of lo with
                | Some n =>
                    num_ge (Num (Z.of_nat (V1.length (V1.properties r)))) n
                | None => true
                end = true <->
                forall n, lo = Some n -> (n <= V1.length (V1.properties r))%nat).
  { destruct lo as [n|]; simpl; [|split; [intros _ ?; discriminate | done]].
    rewrite Z.leb_le. split.
    - intros Hle ? [= <-]. lia.
    - intros Hle. specialize (Hle n eq_refl). lia. }
  assert (Hhi : match option_map FilterSet.number_of hi with
                | Some n =>
                    num_le (Num (Z.of_nat (V1.length (V1.properties r)))) n
                | None => true
                end = true <->
                forall n, hi = Some n -> (V1.length (V1.properties r) <= n)%nat).
  { destruct hi as [n|]; simpl; [|split; [intros _ ?; discriminate | done]].
    rewrite Z.leb_le. split.
    - intros Hle ? [= <-]. lia.
    - intros Hle. specialize (Hle n eq_refl). lia. }
  assert (Hwc : match option_map FilterSet.number_of wc with
                | Some n =>
                    num_eq (Num (Z.of_nat (V1.word_count (V1.properties r)))) n
                | None => true
                end = true <->
                forall n, wc = Some n -> V1.word_count (V1.properties r) = n).
  { destruct wc as [n|]; simpl; [|split; [intros _ ?; discriminate | done]].
    rewrite Z.eqb_eq. split.
    - intros Heq ? [= <-]. lia.
    - intros Heq. specialize (Heq n eq_refl). lia. }
  assert (Hch : match option_map (fun c => [c]) ch with
                | Some c => includes c (V1.value r)
                | None => true
                end = true <->
                forall c, ch = Some c -> In c (V1.value r)).
  { destruct ch as [c|]; simpl; [|split; [intros _ ?; discriminate | done]].
    rewrite includes_singleton. split; [congruence | auto]. }
  rewrite Hpal, Hlo, Hhi, Hwc, Hch. tauto.
Qed.

(** ** The ASCII runtime meets what is relied on *)

Lemma asciiRuntime_whitespace : @LowerCaseOfWhitespace asciiRuntime.
Proof.
  intros s. simpl. unfold asciiToLowerCase.
  induction s as [|c s IH]; simpl; [done|].
  intros [Hc Hs]%Bool.andb_true_iff. rewrite IH by done.
  unfold asciiLowerUnit. by rewrite (whitespace_not_upper c Hc).
Qed.

Lemma analyzeString_empty_and_whitespace_witness :
  @LowerCaseOfWhitespace asciiRuntime /\
  forallb isWhitespace [32; 9; 32] = true /\
  (let p := V1.properties (@V1.analyzeString asciiRuntime (lit "t") []) in
   V1.length p = 0%nat /\ V1.word_count p = 0%nat /\
   V1.unique_characters p = 0%nat /\ V1.is_palindrome p = true /\
   V1.character_frequency_map p = ∅) /\
  (let p := V1.properties (@V1.analyzeString asciiRuntime (lit "t") [32; 9; 32]) in
   V1.word_count p = 0%nat /\ V1.is_palindrome p = true /\
   V1.length p = 3%nat /\
   forall ch : list N,
     V1.character_frequency_map p !! ch =
     match ch with
     | [c] => if Nat.eqb (count_occ N.eq_dec [32; 9; 32] c) 0 then None
              else Some (count_occ N.eq_dec [32; 9; 32] c)
     | _ => None
     end).
Proof.
  split; [exact asciiRuntime_whitespace|]. split; [reflexivity|].
  exact (@analyzeString_empty_and_whitespace asciiRuntime
           asciiRuntime_whitespace (lit "t") [32; 9; 32] eq_refl).
Defined.

(** ** Searches of the interpreter *)

Lemma regexSearch_cases {A} (at_start : jsstring -> option A) (s : jsstring) :
  match regexSearch at_start s with
  | Some m =>
      exists pre, MatchAt at_start s pre m /\
        forall pre' m', MatchAt at_start s pre' m' ->
                        (List.length pre <= List.length pre')%nat
  | None => forall pre m, ~ MatchAt at_start s pre m
  end.
Proof.
  induction s as [|c s IH]; simpl.
  - destruct (at_start []) as [m|] eqn:Hat.
    + exists []. split; [by exists []|]. intros; simpl; lia.
    + intros pre m (suf & Heq & Hm).
      symmetry in Heq. apply app_eq_nil in Heq as [-> ->]. congruence.
  - destruct (at_start (c :: s)) as [m|] eqn:Hat.
    + exists []. split; [by exists (c :: s)|]. intros; simpl; lia.
    + destruct (regexSearch at_start s) as [m|].
      * destruct IH as (pre & (suf & -> & Hm) & Hleast).
        exists (c :: pre). split; [by exists suf|].
        intros pre' m' (suf' & Heq & Hm').
        destruct pre' as [|c' pre']; simpl in Heq.
        -- subst suf'. congruence.
        -- injection Heq as -> Heq. simpl.
           specialize (Hleast pre' m'). apply le_n_S, Hleast. by exists suf'.
      * intros pre m (suf & Heq & Hm).
        destruct pre as [|c' pre]; simpl in Heq.
        -- subst suf. congruence.
        -- injection Heq as -> Heq. apply (IH pre m). by exists suf.
Qed.

Lemma MatchAt_functional {A} (at_start : jsstring -> option A) s pre pre' m m' :
  MatchAt at_start s pre m -> MatchAt at_start s pre' m' ->
  List.length pre = List.length pre' -> m = m'.
Proof.
  intros (suf & -> & Hm) (suf' & Heq & Hm') Hlen.
  apply app_inj_1 in Heq as [_ ->]; [congruence | done].
Qed.

(** The result of a search is the match at the leftmost prefix. *)
Lemma regexSearch_leftmost {A} (at_start : jsstring -> option A) s pre m :
  MatchAt at_start s pre m ->
  (forall pre' m', MatchAt at_start s pre' m' ->
                   (List.length pre <= List.length pre')%nat) ->
  regexSearch at_start s = Some m.
Proof.
  intros Hm Hleast. pose proof (regexSearch_cases at_start s) as Hcases.
  destruct (regexSearch at_start s) as [m0|].
  - destruct Hcases as (pre0 & Hm0 & Hleast0). f_equal.
    apply (MatchAt_functional at_start s pre0 pre m0 m Hm0 Hm).
    specialize (Hleast _ _ Hm0). specialize (Hleast0 _ _ Hm). lia.
  - by destruct (Hcases pre m).
Qed.

Lemma regexSearch_None {A} (at_start : jsstring -> option A) s :
  regexSearch at_start s = None <-> forall pre m, ~ MatchAt at_start s pre m.
Proof.
  pose proof (regexSearch_cases at_start s) as Hcases.
  destruct (regexSearch at_start s) as [m0|]; [|done].
  split; [done|]. intros Hno.
  destruct Hcases as (pre0 & Hm0 & _). by destruct (Hno pre0 m0).
Qed.

Lemma takeClass_split cls s :
  exists post,
    s = takeClass cls s ++ post /\
    Forall (fun c => cls c = true) (takeClass cls s) /\
    (forall c post', post = c :: post' -> cls c = false).
Proof.
  induction s as [|c s (post & Heq & Hall & Hpost)]; simpl.
  - exists []. split; [done|]. split; [constructor | done].
  - destruct (cls c) eqn:Hc.
    + exists post. split; [simpl; congruence|]. split; [by constructor | done].
    + exists (c :: s). split; [done|]. split; [constructor|].
      by intros ? ? [= <- <-].
Qed.

Lemma takeClass_unique cls ds post :
  Forall (fun c => cls c = true) ds ->
  (forall c post', post = c :: post' -> cls c = false) ->
  takeClass cls (ds ++ post) = ds.
Proof.
  intros Hall Hpost. induction Hall as [|c ds Hc Hall IH]; simpl.
  - destruct post as [|c post']; [done|]. simpl. by rewrite (Hpost c post').
  - by rewrite Hc, IH.
Qed.

Lemma LongerThanMatch_MatchAt s pre ds :
  LongerThanMatch s pre ds <-> MatchAt longerThanAt s pre ds.
Proof.
  unfold LongerThanMatch, MatchAt, longerThanAt. split.
  - intros (post & -> & Hne & Hall & Hpost).
    exists (lit "longer than " ++ ds ++ post). split; [done|].
    rewrite stripPrefix_app, takeClass_unique by done.
    by destruct ds.
  - intros (suf & -> & Hat).
    destruct (stripPrefix (lit "longer than ") suf) as [rest|] eqn:Hp; [|done].
    apply stripPrefix_Some in Hp as ->.
    destruct (takeClass_split isDigit rest) as (post & Heq & Hall & Hpost).
    destruct (takeClass isDigit rest) as [|d ds'] eqn:Htake; [done|].
    injection Hat as <-. exists post. by rewrite Heq.
Qed.

Lemma ContainingLetterMatch_MatchAt s pre c :
  ContainingLetterMatch s pre c <-> MatchAt containingLetterAt s pre [c].
Proof.
  unfold ContainingLetterMatch, MatchAt, containingLetterAt. split.
  - intros (post & -> & Hc).
    exists (lit "containing the letter " ++ c :: post). split; [done|].
    by rewrite stripPrefix_app, Hc.
  - intros (suf & -> & Hat).
    destruct (stripPrefix (lit "containing the letter ") suf)
      as [[|c' post]|] eqn:Hp; [done| |done].
    apply stripPrefix_Some in Hp as ->.
    destruct (isWord c') eqn:Hc; [|done].
    injection Hat as ->. by exists post.
Qed.

Lemma containingLetterAt_singleton suf m :
  containingLetterAt suf = Some m -> exists c, m = [c] /\ isWord c = true.
Proof.
  unfold containingLetterAt.
  destruct (stripPrefix (lit "containing the letter ") suf)
    as [[|c post]|]; [done| |done].
  destruct (isWord c) eqn:Hc; [|done].
  intros [= <-]. by exists c.
Qed.

(** ** Doubles *)

Lemma size_unique (m k : N) :
  2 ^ k <= m < 2 ^ (N.succ k) -> N.size m = N.succ k.
Proof.
  intros Hm. assert (m <> 0).
  { pose proof (N.pow_nonzero 2 k). lia. }
  rewrite N.size_log2 by done. f_equal. apply N.log2_unique; lia.
Qed.

Lemma size_le_lt (m k : N) : N.size m <= k <-> m < 2 ^ k.
Proof.
  split.
  - intros Hle. eapply N.lt_le_trans; [apply N.size_gt|].
    apply N.pow_le_mono_r; lia.
  - intros Hlt. destruct (N.eq_dec m 0) as [->|Hm]; [simpl; lia|].
    rewrite N.size_log2 by done.
    apply N.log2_lt_pow2 in Hlt; lia.
Qed.

(** Up to 53 bits nothing is rounded. *)
Lemma roundNat_small (n : N) : n < 2 ^ 53 -> roundNat n = n.
Proof.
  intros Hn. unfold roundNat.
  apply (proj2 (size_le_lt _ _)) in Hn. by apply N.leb_le in Hn as ->.
Qed.

(** Above 53 bits the result is a significand of 53 bits, or 2^53, times
    the power of two that the rounding dropped. *)
Lemma roundNat_large (n : N) :
  53 < N.size n ->
  exists e q',
    N.size n = 53 + e /\ 0 < e /\
    roundNat n = q' * 2 ^ e /\ 2 ^ 52 <= q' <= 2 ^ 53 /\
    (n / 2 ^ e <= q' <= n / 2 ^ e + 1).
Proof.
  intros Hbits. unfold roundNat.
  destruct (N.leb_spec (N.size n) 53) as [|_]; [lia|].
  set (e := N.size n - 53).
  assert (He : N.size n = 53 + e) by lia.
  assert (Hn0 : n <> 0) by (intros ->; simpl in *; lia).
  pose proof (N.log2_spec n ltac:(lia)) as [Hlo Hhi].
  rewrite <- N.size_log2 in Hhi by done.
  assert (Hlog : N.log2 n = 52 + e).
  { pose proof (N.size_log2 n Hn0). lia. }
  rewrite Hlog, N.pow_add_r in Hlo. rewrite He, N.pow_add_r in Hhi.
  assert (Hp : 2 ^ e <> 0) by (apply N.pow_nonzero; lia).
  assert (Hq1 : 2 ^ 52 <= n / 2 ^ e).
  { apply N.div_le_lower_bound; [done|]. lia. }
  assert (Hq2 : n / 2 ^ e < 2 ^ 53).
  { apply N.Div0.div_lt_upper_bound. lia. }
  exists e. eexists. split; [done|]. split; [lia|]. split; [done|].
  destruct (_ || _); lia.
Qed.

(** A rounded value is a double: rounding it again changes nothing. *)
Lemma roundNat_idempotent (n : N) : roundNat (roundNat n) = roundNat n.
Proof.
  destruct (N.le_gt_cases (N.size n) 53) as [Hsmall|Hlarge].
  { apply (proj1 (size_le_lt _ _)) in Hsmall.
    rewrite (roundNat_small n) by done. by apply roundNat_small. }
  destruct (roundNat_large n Hlarge)
    as (e & q' & He & Hpos & -> & [Hq1 Hq2] & _).
  assert (Hp : 2 ^ e <> 0) by (apply N.pow_nonzero; lia).
  assert (Hcases : q' < 2 ^ 53 \/ q' = 2 ^ 53) by lia.
  destruct Hcases as [Hlt| ->].
  - assert (Hsize : N.size (q' * 2 ^ e) = 53 + e).
    { replace (53 + e) with (N.succ (52 + e)) by lia. apply size_unique.
      rewrite N.pow_succ_r', !N.pow_add_r.
      change (2 ^ 52) with 4503599627370496 in *.
      change (2 ^ 53) with 9007199254740992 in *. nia. }
    unfold roundNat. rewrite Hsize.
    destruct (N.leb_spec (53 + e) 53) as [|_]; [lia|].
    replace (53 + e - 53) with e by lia.
    rewrite N.div_mul, N.Div0.mod_mul by done.
    replace (2 ^ e <? 2 * 0) with false by (symmetry; apply N.ltb_ge; lia).
    replace (2 * 0 =? 2 ^ e) with false
      by (symmetry; apply N.eqb_neq; lia).
    done.
  - assert (Hsize : N.size (2 ^ 53 * 2 ^ e) = 54 + e).
    { replace (54 + e) with (N.succ (53 + e)) by lia. apply size_unique.
      rewrite N.pow_succ_r', !N.pow_add_r.
      change (2 ^ 53) with 9007199254740992 in *. nia. }
    unfold roundNat. rewrite Hsize.
    destruct (N.leb_spec (54 + e) 53) as [|_]; [lia|].
    replace (54 + e - 53) with (N.succ e) by lia.
    rewrite N.pow_succ_r'.
    replace (2 ^ 53 * 2 ^ e) with (2 ^ 52 * (2 * 2 ^ e))
      by (change (2 ^ 53) with (2 ^ 52 * 2); lia).
    rewrite N.div_mul, N.Div0.mod_mul by lia.
    replace (2 * 2 ^ e <? 2 * 0) with false
      by (symmetry; apply N.ltb_ge; lia).
    replace (2 * 0 =? 2 * 2 ^ e) with false
      by (symmetry; apply N.eqb_neq; lia).
    done.
Qed.

Lemma roundNat_positive (n : N) : 0 < n -> 0 < roundNat n.
Proof.
  intros Hn. destruct (N.le_gt_cases (N.size n) 53) as [Hsmall|Hlarge].
  { apply (proj1 (size_le_lt _ _)) in Hsmall. by rewrite roundNat_small. }
  destruct (roundNat_large n Hlarge) as (e & q' & _ & _ & -> & [Hq1 _] & _).
  assert (Hp : 2 ^ e <> 0) by (apply N.pow_nonzero; lia).
  change (2 ^ 52) with 4503599627370496 in *. nia.
Qed.

Lemma roundDouble_small (n : N) : n < 2 ^ 53 -> roundDouble n = n.
Proof.
  intros Hn. unfold roundDouble. rewrite roundNat_small by done.
  apply (proj2 (size_le_lt _ _)) in Hn.
  by destruct (N.ltb_spec 1024 (N.size n)) as [|_]; [lia|].
Qed.

Lemma roundDouble_small_le (n : N) : n <= 2 ^ 53 -> roundDouble n = n.
Proof.
  intros Hn. destruct (N.eq_dec n (2 ^ 53)) as [->|Hne]; [by vm_compute|].
  apply roundDouble_small. lia.
Qed.

Lemma roundDouble_infinity : roundDouble infinity = infinity.
Proof. by vm_compute. Qed.

Lemma roundDouble_idempotent (n : N) :
  roundDouble (roundDouble n) = roundDouble n.
Proof.
  unfold roundDouble at 2 3.
  destruct (1024 <? N.size (roundNat n)) eqn:Hinf.
  - apply roundDouble_infinity.
  - unfold roundDouble. by rewrite roundNat_idempotent, Hinf.
Qed.

Lemma roundDouble_positive (n : N) : 0 < n -> 0 < roundDouble n.
Proof.
  intros Hn. unfold roundDouble.
  destruct (1024 <? N.size (roundNat n)); [by vm_compute|].
  by apply roundNat_positive.
Qed.

(** Every value of [roundDouble] is at most the infinity. *)
Lemma roundDouble_le_infinity (n : N) : roundDouble n <= infinity.
Proof.
  unfold roundDouble.
  destruct (N.ltb_spec 1024 (N.size (roundNat n))) as [|Hle]; [lia|].
  apply (proj1 (size_le_lt _ _)) in Hle. unfold infinity. lia.
Qed.

(** Above 53 bits the result is a multiple of the power of two dropped,
    at most half of it away from the number. *)
Lemma roundNat_nearest (n : N) :
  53 < N.size n ->
  let p := 2 ^ (N.size n - 53) in
  roundNat n mod p = 0 /\ 2 * (roundNat n - n) <= p /\ 2 * (n - roundNat n) <= p.
Proof.
  intros Hbits p. unfold roundNat.
  destruct (N.leb_spec (N.size n) 53) as [|_]; [lia|]. fold p.
  assert (Hp : p <> 0) by (apply N.pow_nonzero; lia).
  pose proof (N.Div0.div_mod n p) as Hdiv.
  pose proof (N.mod_upper_bound n p Hp) as Hr.
  rewrite N.Div0.mod_mul. split; [done|].
  generalize dependent (n mod p). generalize dependent (n / p).
  intros q r Hdiv Hr.
  destruct (N.ltb_spec p (2 * r)); simpl; [nia|].
  destruct (N.eqb_spec (2 * r) p); simpl; [destruct (N.odd q); nia|nia].
Qed.

(** The largest finite double is 2^1024 - 2^971; what is at least halfway
    from it to 2^1024 is read as the infinity, and nothing below is. *)
Lemma roundDouble_overflow (n : N) :
  2 ^ 1024 - 2 ^ 970 <= n -> roundDouble n = infinity.
Proof.
  intros Hn. unfold roundDouble.
  destruct (N.ltb_spec 1024 (N.size (roundNat n))) as [|Hle]; [done|].
  exfalso. apply (proj1 (size_le_lt _ _)) in Hle.
  assert (H1023 : 2 ^ 1023 <= 2 ^ 1024 - 2 ^ 970) by by vm_compute.
  assert (H1024 : 2 ^ 1024 = 2 ^ 53 * 2 ^ 971) by by vm_compute.
  assert (H970 : 2 * 2 ^ 970 = 2 ^ 971) by by vm_compute.
  assert (H971 : 2 ^ 971 <> 0) by by vm_compute.
  destruct (N.le_gt_cases (N.size n) 1023) as [Hs|Hs].
  { apply (proj1 (size_le_lt _ _)) in Hs. lia. }
  destruct (N.le_gt_cases (N.size n) 1024) as [Hs'|Hs'].
  - assert (Hsize : N.size n = 1024) by lia.
    pose proof (N.size_gt n) as Hlt. rewrite Hsize in Hlt.
    unfold roundNat in Hle. rewrite Hsize in Hle.
    change (1024 <=? 53) with false in Hle.
    change (1024 - 53) with 971 in Hle. cbv iota zeta in Hle.
    pose proof (N.Div0.div_mod n (2 ^ 971)) as Hdiv.
    pose proof (N.mod_upper_bound n (2 ^ 971) H971) as Hr.
    generalize dependent (n mod 2 ^ 971). generalize dependent (n / 2 ^ 971).
    intros q r Hle Hdiv Hr.
    change (2 ^ 53) with 9007199254740992 in *.
    set (a := 2 ^ 1024) in *. set (c := 2 ^ 971) in *.
    set (b := 2 ^ 970) in *. set (d := 2 ^ 1023) in *.
    clearbody a b c d. subst a.
    assert (Hq : q = 9007199254740991) by nia. subst q.
    assert (Hup : (c <? 2 * r) || ((2 * r =? c) && N.odd 9007199254740991)
                  = true).
    { destruct (N.ltb_spec c (2 * r)); [done|]. simpl orb.
      assert (2 * r = c) as -> by nia. by rewrite N.eqb_refl. }
    rewrite Hup in Hle. lia.
  - destruct (roundNat_large n ltac:(lia))
      as (e & q' & He & Hpos & Hround & [Hq1 Hq2] & Hq).
    rewrite Hround in Hle.
    assert (He' : 2 ^ 972 <= 2 ^ e) by (apply N.pow_le_mono_r; lia).
    assert (H972 : 2 ^ 1024 = 2 ^ 52 * 2 ^ 972) by by vm_compute.
    change (2 ^ 52) with 4503599627370496 in *.
    set (a := 2 ^ 1024) in *. set (c := 2 ^ 972) in *.
    set (p := 2 ^ e) in *. clearbody a c p. nia.
Qed.

Lemma roundDouble_finite (n : N) :
  n < 2 ^ 1024 - 2 ^ 970 -> roundDouble n < infinity.
Proof.
  intros Hn. unfold roundDouble.
  assert (Hlt : roundNat n < 2 ^ 1024).
  { destruct (N.le_gt_cases (N.size n) 53) as [Hsmall|Hlarge].
    { apply (proj1 (size_le_lt _ _)) in Hsmall.
      rewrite roundNat_small by done. lia. }
    pose proof (roundNat_nearest n Hlarge) as (_ & Hnear & _).
    cbv zeta in Hnear.
    assert (Hsize : N.size n <= 1024).
    { apply size_le_lt. lia. }
    assert (Hp : 2 ^ (N.size n - 53) <= 2 ^ 971)
      by (apply N.pow_le_mono_r; lia).
    assert (H970 : 2 * 2 ^ 970 = 2 ^ 971) by by vm_compute.
    assert (H1024 : 2 ^ 970 < 2 ^ 1024) by by vm_compute.
    set (p := 2 ^ (N.size n - 53)) in *.
    set (a := 2 ^ 1024) in *. set (c := 2 ^ 971) in *.
    set (b := 2 ^ 970) in *. clearbody a b c p. lia. }
  apply (proj2 (size_le_lt _ _)) in Hlt.
  destruct (N.ltb_spec 1024 (N.size (roundNat n))) as [|_]; [lia|].
  apply size_le_lt. lia.
Qed.

Lemma toDouble_of_N (n : N) :
  toDouble (Z.of_N n) = Num (Z.of_N (roundDouble n)).
Proof.
  unfold toDouble. rewrite Zabs2N.id. f_equal.
  destruct n as [|p]; [by vm_compute|]. simpl Z.sgn. lia.
Qed.

Lemma toDouble_opp_of_N (n : N) :
  toDouble (- Z.of_N n) = Num (- Z.of_N (roundDouble n)).
Proof.
  unfold toDouble. rewrite Zabs2N.inj_opp, Zabs2N.id. f_equal.
  destruct n as [|p]; [by vm_compute|]. simpl Z.sgn. lia.
Qed.

Lemma toDouble_small (z : Z) : (Z.abs z < 2 ^ 53)%Z -> toDouble z = Num z.
Proof.
  intros Hz. destruct (Z.abs_spec z) as [[Hpos Habs]|[Hneg Habs]].
  - rewrite <- (Z2N.id z) by done. rewrite toDouble_of_N.
    rewrite roundDouble_small; [done|].
    change (2 ^ 53) with 9007199254740992. change (2 ^ 53)%Z
      with 9007199254740992%Z in Hz. lia.
  - replace z with (- Z.of_N (Z.to_N (- z)))%Z by lia.
    rewrite toDouble_opp_of_N.
    rewrite roundDouble_small; [done|].
    change (2 ^ 53) with 9007199254740992. change (2 ^ 53)%Z
      with 9007199254740992%Z in Hz. lia.
Qed.

(** A value of [toDouble] that is not negative is a double. *)
Lemma toDouble_range (x z : Z) :
  toDouble x = Num z -> (0 <= z)%Z -> roundDouble (Z.to_N z) = Z.to_N z.
Proof.
  unfold toDouble. intros [= <-] Hz.
  destruct x as [|p|p]; [by vm_compute| |].
  - replace (Z.sgn (Z.pos p) * Z.of_N (roundDouble (Z.abs_N (Z.pos p))))%Z
      with (Z.of_N (roundDouble (Z.abs_N (Z.pos p))))
      by (simpl Z.sgn; lia).
    rewrite N2Z.id. apply roundDouble_idempotent.
  - simpl Z.sgn in *.
    replace (Z.to_N (-1 * Z.of_N (roundDouble (Z.abs_N (Z.neg p))))) with 0
      by lia.
    by vm_compute.
Qed.

Lemma parseInt_range (s : jsstring) (radix : option N) (z : Z) :
  parseInt s radix = Num z -> (0 <= z)%Z ->
  roundDouble (Z.to_N z) = Z.to_N z.
Proof.
  unfold parseInt. destruct (stripSign (trimStart s)) as [sign rest].
  destruct (match radix with
            | Some R =>
                (R, if R =? 16 then default rest (stripHexPrefix rest)
                    else rest)
            | None =>
                match stripHexPrefix rest with
                | Some rest' => (16, rest')
                | None => (10, rest)
                end
            end) as [R digits].
  destruct ((R <? 2) || (36 <? R)); [done|].
  destruct (parseDigits R None digits) as [n|]; [|done].
  apply toDouble_range.
Qed.

(** Adding 1 to a double that is not negative: the sum, rounded. *)
Lemma num_add_one (n : N) :
  num_add (Num (Z.of_N n)) (Num 1) = Num (Z.of_N (roundDouble (n + 1))).
Proof.
  unfold num_add.
  replace (isInfinite 1) with false by by vm_compute.
  rewrite Bool.andb_false_r. simpl andb. cbv iota.
  rewrite <- toDouble_of_N. f_equal. lia.
Qed.

(** ** [parseInt] on a decimal numeral *)

Lemma digitValue_digit c : isDigit c = true -> digitValue c = Some (c - 48).
Proof. intros Hc. unfold digitValue. by rewrite Hc. Qed.

Lemma parseDigits_decimal acc ds :
  Forall (fun c => isDigit c = true) ds ->
  parseDigits 10 (Some acc) ds = Some (decimalValue acc ds).
Proof.
  intros Hall. revert acc.
  induction Hall as [|c ds Hc Hall IH]; intros acc; simpl; [done|].
  rewrite (digitValue_digit c Hc).
  assert (Hlt : (c - 48 <? 10) = true) by (apply N.ltb_lt; class_bounds; lia).
  rewrite Hlt. apply IH.
Qed.

Lemma parseInt_decimal ds radix :
  ds <> [] -> Forall (fun c => isDigit c = true) ds ->
  radix = None \/ radix = Some 10 ->
  parseInt ds radix = Num (Z.of_N (roundDouble (decimalValue 0 ds))).
Proof.
  intros Hne Hall Hradix. destruct ds as [|d ds]; [done|].
  apply Forall_cons in Hall as [Hd Hall].
  assert (Hws : isWhitespace d = false).
  { destruct (isWhitespace d) eqn:Hw; [|done]. class_bounds. lia. }
  assert (H45 : (d =? 45) = false) by (apply N.eqb_neq; class_bounds; lia).
  assert (H43 : (d =? 43) = false) by (apply N.eqb_neq; class_bounds; lia).
  assert (Hhex : stripHexPrefix (d :: ds) = None).
  { unfold stripHexPrefix. destruct ds as [|x rest]; [done|].
    apply Forall_cons in Hall as [Hx _].
    assert ((x =? 120) = false) as -> by (apply N.eqb_neq; class_bounds; lia).
    assert ((x =? 88) = false) as -> by (apply N.eqb_neq; class_bounds; lia).
    by rewrite Bool.andb_false_r. }
  assert (Hdigits : parseDigits 10 None (d :: ds)
                    = Some (decimalValue 0 (d :: ds))).
  { simpl. rewrite (digitValue_digit d Hd).
    assert (Hlt : (d - 48 <? 10) = true) by (apply N.ltb_lt; class_bounds; lia).
    rewrite Hlt. apply parseDigits_decimal, Hall. }
  unfold parseInt. simpl trimStart. rewrite Hws.
  unfold stripSign. rewrite H45, H43.
  destruct Hradix as [-> | ->].
  - rewrite Hhex. simpl orb. cbv iota. rewrite Hdigits.
    rewrite Z.mul_1_l. apply toDouble_of_N.
  - simpl N.eqb. cbv iota. simpl orb. cbv iota. rewrite Hdigits.
    rewrite Z.mul_1_l. apply toDouble_of_N.
Qed.

(** ** The phrase interpreter *)

Lemma longerThan_search (lower : jsstring) :
  let longer := fun pre => exists ds, LongerThanMatch lower pre ds in
  (forall n,
      option_map (fun g => num_add (parseInt g None) (Num 1))
        (regexSearch longerThanAt lower) = Some n <->
      exists pre ds, Leftmost longer pre /\ LongerThanMatch lower pre ds /\
        n = Num (Z.of_N
                   (roundDouble (roundDouble (decimalValue 0 ds) + 1)))) /\
  (regexSearch longerThanAt lower = None <-> forall pre, ~ longer pre).
Proof.
  intros longer.
  assert (Hvalue : forall pre ds, LongerThanMatch lower pre ds ->
            num_add (parseInt ds None) (Num 1)
            = Num (Z.of_N
                     (roundDouble (roundDouble (decimalValue 0 ds) + 1)))).
  { intros pre ds (post & _ & Hne & Hall & _).
    rewrite parseInt_decimal by auto. apply num_add_one. }
  pose proof (regexSearch_cases longerThanAt lower) as Hcases.
  destruct (regexSearch longerThanAt lower) as [g|]; simpl.
  - destruct Hcases as (pre0 & Hg & Hleast).
    assert (Hg' := proj2 (LongerThanMatch_MatchAt lower pre0 g) Hg).
    assert (Hleft : Leftmost longer pre0).
    { split; [by exists g|]. intros pre' [ds' Hds'].
      apply (Hleast pre' ds'). by apply LongerThanMatch_MatchAt. }
    split.
    + intros n. split.
      * intros [= <-]. exists pre0, g. split_and!; [done..|].
        by apply (Hvalue pre0).
      * intros (pre & ds & [Hex Hmin] & Hds & ->). f_equal.
        assert (g = ds) as ->; [|by apply (Hvalue pre)].
        apply (MatchAt_functional longerThanAt lower pre0 pre); [done| |].
        -- by apply LongerThanMatch_MatchAt.
        -- destruct Hleft as [Hex0 Hmin0].
           specialize (Hmin pre0 Hex0). specialize (Hmin0 pre Hex). lia.
    + split; [done|]. intros Hno. destruct (Hno pre0). by exists g.
  - split.
    + intros n. split; [done|].
      intros (pre & ds & _ & Hds & _).
      destruct (Hcases pre ds). by apply LongerThanMatch_MatchAt.
    + split; [|done]. intros _ pre [ds Hds].
      destruct (Hcases pre ds). by apply LongerThanMatch_MatchAt.
Qed.

Lemma containingLetter_search (lower : jsstring) :
  let letter := fun pre => exists c, ContainingLetterMatch lower pre c in
  (forall m,
      regexSearch containingLetterAt lower = Some m <->
      exists pre c, Leftmost letter pre /\ ContainingLetterMatch lower pre c /\
                    m = [c]) /\
  (regexSearch containingLetterAt lower = None <-> forall pre, ~ letter pre).
Proof.
  intros letter.
  pose proof (regexSearch_cases containingLetterAt lower) as Hcases.
  destruct (regexSearch containingLetterAt lower) as [g|]; simpl.
  - destruct Hcases as (pre0 & Hg & Hleast).
    assert (exists c0, g = [c0]) as [c0 ->].
    { destruct Hg as (suf & _ & Hat).
      apply containingLetterAt_singleton in Hat as (c & -> & _). by exists c. }
    assert (Hg' := proj2 (ContainingLetterMatch_MatchAt lower pre0 c0) Hg).
    assert (Hleft : Leftmost letter pre0).
    { split; [by exists c0|]. intros pre' [c' Hc'].
      apply (Hleast pre' [c']). by apply ContainingLetterMatch_MatchAt. }
    split.
    + intros m. split.
      * intros [= <-]. by exists pre0, c0.
      * intros (pre & c & [Hex Hmin] & Hc & ->). f_equal.
        apply (MatchAt_functional containingLetterAt lower pre0 pre); [done| |].
        -- by apply ContainingLetterMatch_MatchAt.
        -- destruct Hleft as [Hex0 Hmin0].
           specialize (Hmin pre0 Hex0). specialize (Hmin0 pre Hex). lia.
    + split; [done|]. intros Hno. destruct (Hno pre0). by exists c0.
  - split.
    + intros m. split; [done|].
      intros (pre & c & _ & Hc & _).
      destruct (Hcases pre [c]). by apply ContainingLetterMatch_MatchAt.
    + split; [|done]. intros _ pre [c Hc].
      destruct (Hcases pre [c]). by apply ContainingLetterMatch_MatchAt.
Qed.

Section InterpreterFacts.
Context `{JsBuiltins}.

(** The object [filters] at the [return] of [interpretQuery]. *)
Lemma interpretQuery_filters (query : jsstring) :
  let lower := toLowerCase query in
  let filters :=
    Filters.mk
      (if includes (lit "palindromic") lower then Some true else None)
      (option_map (fun g => num_add (parseInt g None) (Num 1))
         (regexSearch longerThanAt lower))
      None
      (if includes (lit "single word") lower || includes (lit "one word") lower
       then Some (Num 1) else None)
      (regexSearch containingLetterAt lower) in
  interpretQuery query =
  if Nat.eqb (Filters.keys_length filters) 0 then None else Some filters.
Proof.
  unfold interpretQuery. simpl.
  destruct (includes (lit "palindromic") (toLowerCase query));
    destruct (includes (lit "single word") (toLowerCase query)
              || includes (lit "one word") (toLowerCase query));
    destruct (regexSearch longerThanAt (toLowerCase query));
    destruct (regexSearch containingLetterAt (toLowerCase query));
    reflexivity.
Qed.

Lemma interpretQuery_same_lower (p q : jsstring) :
  toLowerCase p = toLowerCase q -> interpretQuery p = interpretQuery q.
Proof. intros Heq. unfold interpretQuery. by rewrite Heq. Qed.
End InterpreterFacts.

Lemma keys_length_zero (f : Filters.t) :
  Filters.keys_length f = 0%nat <->
  Filters.is_palindrome f = None /\ Filters.min_length f = None /\
  Filters.max_length f = None /\ Filters.word_count f = None /\
  Filters.contains_character f = None.
Proof.
  destruct f as [[?|] [?|] [?|] [?|] [?|]]; unfold Filters.keys_length; simpl;
    split; try discriminate; try (intros (? & ? & ? & ? & ?); discriminate).
  all: done.
Qed.

(** C5. [interpretQuery] matches its four patterns on the lower-cased
    phrase, each on its own.  It answers [null] exactly when none of them is
    there.  Otherwise, in the filters it returns: [is_palindrome] is [true]
    when "palindromic" occurs and is unset when not; [word_count] is 1 when
    "single word" or "one word" occurs and is unset when not; [min_length]
    is, for the numeral N of the leftmost "longer than N", the double
    nearest to N plus 1, rounded to a double again, and is unset when there
    is no such match; that number is N + 1 whenever N is below 2^53;
    [contains_character] is the word character of the leftmost "containing
    the letter c" and is unset when there is none; [max_length] is never
    set.  On a runtime that lower-cases ASCII text letter by letter, two
    ASCII phrases that differ only in the case of their letters are
    interpreted alike. *)
Theorem interpretQuery_sets_a_filter_per_pattern
    `{JsBuiltins} (p : jsstring) :
  let lower := toLowerCase p in
  let palindromic := Contains (lit "palindromic") lower in
  let single :=
    Contains (lit "single word") lower \/ Contains (lit "one word") lower in
  let longer := fun pre => exists ds, LongerThanMatch lower pre ds in
  let letter := fun pre => exists c, ContainingLetterMatch lower pre c in
  (interpretQuery p = None <->
   ~ palindromic /\ ~ single /\
   (forall pre, ~ longer pre) /\ (forall pre, ~ letter pre)) /\
  (forall f, interpretQuery p = Some f ->
     (Filters.is_palindrome f = Some true <-> palindromic) /\
     (Filters.is_palindrome f = None <-> ~ palindromic) /\
     (Filters.word_count f = Some (Num 1) <-> single) /\
     (Filters.word_count f = None <-> ~ single) /\
     (forall n, Filters.min_length f = Some n <->
        exists pre ds, Leftmost longer pre /\ LongerThanMatch lower pre ds /\
          n = Num (Z.of_N
                     (roundDouble (roundDouble (decimalValue 0 ds) + 1)))) /\
     (forall pre ds, Leftmost longer pre -> LongerThanMatch lower pre ds ->
        decimalValue 0 ds < 2 ^ 53 ->
        Filters.min_length f = Some (Num (Z.of_N (decimalValue 0 ds) + 1))) /\
     (Filters.min_length f = None <-> forall pre, ~ longer pre) /\
     (forall m, Filters.contains_character f = Some m <->
        exists pre c, Leftmost letter pre /\
                      ContainingLetterMatch lower pre c /\ m = [c]) /\
     (Filters.contains_character f = None <-> forall pre, ~ letter pre) /\
     Filters.max_length f = None) /\
  (LowerCaseOfAscii ->
   forall q, forallb (fun c => c <? 128) p = true ->
             forallb (fun c => c <? 128) q = true ->
             map asciiLowerUnit p = map asciiLowerUnit q ->
             interpretQuery p = interpretQuery q).
Proof.
  intros lower palindromic single longer letter.
  pose proof (longerThan_search lower) as [Hlong Hnolong].
  pose proof (containingLetter_search lower) as [Hlet Hnolet].
  fold longer in Hlong, Hnolong. fold letter in Hlet, Hnolet.
  assert (Hcase : LowerCaseOfAscii ->
            forall q, forallb (fun c => c <? 128) p = true ->
                      forallb (fun c => c <? 128) q = true ->
                      map asciiLowerUnit p = map asciiLowerUnit q ->
                      interpretQuery p = interpretQuery q).
  { intros Hlaw q Hp Hq Heq. apply interpretQuery_same_lower.
    by rewrite (Hlaw p Hp), (Hlaw q Hq). }
  rewrite interpretQuery_filters in *. fold lower.
  set (filters := Filters.mk _ _ _ _ _).
  assert (Hpal : (Filters.is_palindrome filters = Some true <-> palindromic) /\
                 (Filters.is_palindrome filters = None <-> ~ palindromic)).
  { subst filters palindromic. simpl.
    rewrite <- includes_Contains.
    destruct (includes (lit "palindromic") lower); split; split; congruence. }
  assert (Hwc : (Filters.word_count filters = Some (Num 1) <-> single) /\
                (Filters.word_count filters = None <-> ~ single)).
  { subst filters single. simpl.
    rewrite <- !includes_Contains, <- Bool.orb_true_iff.
    destruct (includes (lit "single word") lower
              || includes (lit "one word") lower); split; split; congruence. }
  assert (Hmin : Filters.min_length filters = None <-> forall pre, ~ longer pre).
  { subst filters. simpl. split.
    - intros Hnone. apply Hnolong.
      by destruct (regexSearch longerThanAt lower).
    - intros Hno. apply Hnolong in Hno. by rewrite Hno. }
  split_and!.
  - destruct (Nat.eqb_spec (Filters.keys_length filters) 0) as [Hz|Hnz].
    + apply keys_length_zero in Hz as (Hp & Hl & _ & Hw & Hc).
      split; [intros _|done]. split_and!.
      * by apply Hpal.
      * by apply Hwc.
      * by apply Hmin.
      * by apply Hnolet.
    + split; [done|]. intros (Hp & Hw & Hl & Hc). exfalso. apply Hnz.
      apply keys_length_zero. split_and!; [| |done| |].
      * by apply Hpal.
      * by apply Hmin.
      * by apply Hwc.
      * by apply Hnolet.
  - intros f Hf.
    destruct (Nat.eqb (Filters.keys_length filters) 0); [done|].
    injection Hf as <-. split_and!; try tauto; try done.
    intros pre ds Hleft Hds Hbound. apply Hlong. exists pre, ds.
    split_and!; [done..|]. f_equal.
    rewrite (roundDouble_small (decimalValue 0 ds)) by done.
    rewrite roundDouble_small_le; [lia|].
    change (2 ^ 53) with 9007199254740992 in *. lia.
  - exact Hcase.
Qed.

(** C5, where [min_length] is not N + 1.  In "longer than
    9007199254740992" the numeral N is 2^53, and [min_length] is 2^53 as
    well: N + 1 lies halfway between the doubles 2^53 and 2^53 + 2, and the
    sum is rounded to the first. *)
Lemma interpretQuery_min_length_beyond_2_53 :
  @interpretQuery asciiRuntime (lit "longer than 9007199254740992")
  = Some (Filters.mk None (Some (Num 9007199254740992)) None None None) /\
  LongerThanMatch
    (@toLowerCase asciiRuntime (lit "longer than 9007199254740992"))
    [] (lit "9007199254740992") /\
  Num 9007199254740992
  <> Num (Z.of_N (decimalValue 0 (lit "9007199254740992")) + 1).
Proof.
  split; [by vm_compute|]. split; [|by vm_compute].
  exists []. split; [reflexivity|]. split; [discriminate|].
  split; [repeat constructor | intros; discriminate].
Qed.

(** ** Decimal numerals *)

Lemma decimalValue_app acc ds ds' :
  decimalValue acc (ds ++ ds') = decimalValue (decimalValue acc ds) ds'.
Proof. unfold decimalValue. apply fold_left_app. Qed.

Lemma toDecimalFrom_numeral fuel n acc :
  (N.to_nat n < fuel)%nat ->
  exists ds, toDecimalFrom fuel n acc = ds ++ acc /\ ds <> [] /\
             Forall (fun c => isDigit c = true) ds /\ decimalValue 0 ds = n.
Proof.
  revert n acc. induction fuel as [|fuel IH]; intros n acc Hfuel; [lia|].
  cbn [toDecimalFrom].
  assert (Hm : n mod 10 < 10) by (apply N.mod_upper_bound; lia).
  pose proof (N.Div0.div_mod n 10) as Hdm.
  pose proof (IH (n / 10) ((48 + n mod 10) :: acc)) as IHq.
  revert Hm Hdm IHq. generalize (n mod 10) (n / 10). intros d q Hm Hdm IHq.
  assert (Hd : isDigit (48 + d) = true).
  { unfold isDigit, inRange. apply Bool.andb_true_iff.
    rewrite !N.leb_le. lia. }
  destruct (N.ltb_spec n 10) as [Hlt|Hge].
  - exists [48 + d]. split_and!; [done|done|by constructor|].
    unfold decimalValue. cbn [fold_left]. lia.
  - destruct IHq as (ds & Heq & Hne & Hall & Hv); [lia|].
    exists (ds ++ [48 + d]). split_and!.
    + by rewrite Heq, <- app_assoc.
    + by destruct ds.
    + apply Forall_app. split; [done | by constructor].
    + rewrite decimalValue_app, Hv. unfold decimalValue. cbn [fold_left]. lia.
Qed.

Lemma toDecimal_numeral n :
  toDecimal n <> [] /\ Forall (fun c => isDigit c = true) (toDecimal n) /\
  decimalValue 0 (toDecimal n) = n.
Proof.
  unfold toDecimal.
  destruct (toDecimalFrom_numeral (Datatypes.S (N.to_nat n)) n [])
    as (ds & -> & Hne & Hall & Hv); [lia|].
  by rewrite app_nil_r.
Qed.

(** Reading back the numeral of a non-negative integer gives the double
    nearest to it. *)
Lemma parseInt_toDecimal n radix :
  radix = None \/ radix = Some 10 ->
  parseInt (toDecimal n) radix = Num (Z.of_N (roundDouble n)).
Proof.
  intros Hradix. destruct (toDecimal_numeral n) as (Hne & Hall & Hv).
  by rewrite parseInt_decimal, Hv.
Qed.

(** ** The two routes that filter *)

(** The natural-language route applies its filters in another order and has
    no step for [max_length]. *)
Lemma applyParsedFilters_applyFilters (f : Filters.t) (rs : list V1.AnalyzedString) :
  Filters.max_length f = None ->
  V1.applyParsedFilters f rs = V1.applyFilters f rs.
Proof.
  destruct f as [pal lo hi wc ch]. simpl. intros ->.
  unfold V1.applyParsedFilters, V1.applyFilters; simpl.
  rewrite (filter_optional pal
             (fun b item => Bool.eqb (V1.is_palindrome (V1.properties item)) b)).
  rewrite !(filter_optional wc
              (fun n item =>
                 num_eq (Num (Z.of_nat (V1.word_count (V1.properties item)))) n)).
  rewrite !(filter_optional lo
              (fun n item =>
                 num_ge (Num (Z.of_nat (V1.length (V1.properties item)))) n)).
  rewrite !(filter_optional ch (fun c item => includes c (V1.value item))).
  rewrite !filter_filter_and. apply List.filter_ext. intros r.
  destruct pal, wc, lo, ch; simpl;
    repeat match goal with |- context [?a && ?b] => destruct a; simpl end;
    reflexivity.
Qed.

Lemma parseInt_of_nat (n : nat) :
  roundDouble (N.of_nat n) = N.of_nat n ->
  parseInt (toDecimal (Z.to_N (Z.of_nat n))) (Some 10) = Num (Z.of_nat n).
Proof.
  intros Hdouble. rewrite parseInt_toDecimal by auto. f_equal.
  replace (Z.to_N (Z.of_nat n)) with (N.of_nat n) by lia.
  rewrite Hdouble. lia.
Qed.

Lemma of_nat_not_negative (n : nat) : (Z.of_nat n <? 0)%Z = false.
Proof. apply Z.ltb_ge. lia. Qed.

(** The query that spells out a FilterSet whose numbers are doubles and
    whose bounds are in order is validated to that FilterSet, with no
    error. *)
Lemma validate_queryOf (fs : FilterSet.t) :
  (forall n, FilterSet.min_length fs = Some n \/
             FilterSet.max_length fs = Some n \/
             FilterSet.word_count fs = Some n ->
             roundDouble (N.of_nat n) = N.of_nat n) ->
  (forall lo hi, FilterSet.min_length fs = Some lo ->
                 FilterSet.max_length fs = Some hi -> (lo <= hi)%nat) ->
  V1.validate (queryOf (FilterSet.filters fs)) = (FilterSet.filters fs, []).
Proof.
  destruct fs as [pal lo hi wc ch]. simpl. intros Hdouble Hbounds.
  unfold V1.validate, queryOf, FilterSet.filters, FilterSet.number_of.
  destruct pal as [[|]|], lo as [lo|], hi as [hi|], wc as [wc|], ch as [ch|];
    simpl;
    repeat (first [ rewrite parseInt_of_nat by (apply Hdouble; auto)
                  | rewrite of_nat_not_negative ]; simpl);
    try reflexivity.
  all: assert ((Z.of_nat hi <? Z.of_nat lo)%Z = false) as ->
         by (apply Z.ltb_ge; specialize (Hbounds lo hi eq_refl eq_refl); lia).
  all: reflexivity.
Qed.

Section RouteFacts.
Context `{JsBuiltins}.

Lemma interpretQuery_FilterSet (p : jsstring) (f : Filters.t) :
  interpretQuery p = Some f ->
  exists fs, f = FilterSet.filters fs /\ FilterSet.max_length fs = None /\
    forall n, FilterSet.min_length fs = Some n \/
              FilterSet.max_length fs = Some n \/
              FilterSet.word_count fs = Some n ->
              roundDouble (N.of_nat n) = N.of_nat n.
Proof.
  rewrite interpretQuery_filters. simpl.
  set (lower := toLowerCase p).
  destruct (Nat.eqb _ 0); [done|]. intros [= <-].
  pose proof (regexSearch_cases longerThanAt lower) as Hlong.
  pose proof (regexSearch_cases containingLetterAt lower) as Hlet.
  exists (FilterSet.mk
            (if includes (lit "palindromic") lower then Some true else None)
            (option_map
               (fun g => N.to_nat
                           (roundDouble (roundDouble (decimalValue 0 g) + 1)))
               (regexSearch longerThanAt lower))
            None
            (if includes (lit "single word") lower
                || includes (lit "one word") lower
             then Some 1%nat else None)
            (match regexSearch containingLetterAt lower with
             | Some (c :: _) => Some c
             | _ => None
             end)).
  split; [|split; [done|]].
  2: { simpl. intros n [Hn|[Hn|Hn]]; [|done|].
       - destruct (regexSearch longerThanAt lower) as [g|]; [|done].
         injection Hn as <-. rewrite N2Nat.id.
         apply roundDouble_idempotent.
       - destruct (includes (lit "single word") lower
                   || includes (lit "one word") lower); [|done].
         injection Hn as <-. by vm_compute. }
  unfold FilterSet.filters. simpl. f_equal.
  - destruct (regexSearch longerThanAt lower) as [g|]; [|done]. simpl.
    destruct Hlong as (pre & Hg & _).
    apply LongerThanMatch_MatchAt in Hg as (post & _ & Hne & Hall & _).
    rewrite parseInt_decimal by auto. rewrite num_add_one.
    unfold FilterSet.number_of. do 2 f_equal. lia.
  - by destruct (includes (lit "single word") lower
                 || includes (lit "one word") lower).
  - destruct (regexSearch containingLetterAt lower) as [g|]; [|done].
    destruct Hlet as (pre & (suf & _ & Hat) & _).
    by apply containingLetterAt_singleton in Hat as (c & -> & _).
Qed.

Lemma interpretQuery_nonempty (Hascii : LowerCaseOfAscii) (p : jsstring) (f : Filters.t) :
  interpretQuery p = Some f -> p <> [].
Proof.
  intros Hf ->. rewrite interpretQuery_filters in Hf.
  rewrite (Hascii [] eq_refl) in Hf. discriminate.
Qed.
End RouteFacts.

Lemma asciiRuntime_ascii : @LowerCaseOfAscii asciiRuntime.
Proof. intros s _. reflexivity. Qed.

Lemma asciiRuntime_no_upper : @LowerCaseHasNoUpper asciiRuntime.
Proof.
  intros s c. simpl. unfold asciiToLowerCase.
  intros (d & <- & _)%in_map_iff.
  unfold asciiLowerUnit. destruct (isAsciiUpper d) eqn:Hd; [|done].
  destruct (isAsciiUpper (d + 32)) eqn:Hd'; [|done].
  class_bounds. lia.
Qed.

(** C6. When [interpretQuery] succeeds on a phrase, the natural-language
    route answers with the records that the filtering of [GET /strings]
    keeps for the same filters; the query that spells these filters out is
    validated to the very same filters without error, and [GET /strings] on
    it answers with the same records.  The phrase "single word palindromic
    strings" is interpreted as [is_palindrome = true] and [word_count = 1],
    spelled out as [is_palindrome=true&word_count=1]. *)
Theorem natural_language_route_agrees_with_structured_route
    `{JsBuiltins} (Hascii : LowerCaseOfAscii)
    (phrase : jsstring) (f : Filters.t) (st : V1.store)
    (Hf : interpretQuery phrase = Some f) :
  let data := V1.applyFilters f (JsMap.values st) in
  V1.get_strings_filter_by_natural_language (Some phrase) st
  = respond 200 (Interpreted data (List.length data) phrase f) /\
  V1.validate (queryOf f) = (f, []) /\
  V1.get_strings (queryOf f) st
  = respond 200 (Listing data (List.length data) f) /\
  interpretQuery (lit "single word palindromic strings")
  = Some (Filters.mk (Some true) None None (Some (Num 1)) None) /\
  queryOf (Filters.mk (Some true) None None (Some (Num 1)) None)
  = Raw.mk (Some (lit "true")) None None (Some (lit "1")) None.
Proof.
  intros data.
  destruct (interpretQuery_FilterSet phrase f Hf)
    as (fs & -> & Hmax & Hdouble).
  assert (Hvalid : V1.validate (queryOf (FilterSet.filters fs))
                   = (FilterSet.filters fs, [])).
  { apply validate_queryOf; [done|]. intros lo hi _. by rewrite Hmax. }
  split_and!.
  - unfold V1.get_strings_filter_by_natural_language.
    pose proof (interpretQuery_nonempty Hascii phrase _ Hf) as Hne.
    destruct phrase as [|c phrase]; [done|]. rewrite Hf.
    rewrite applyParsedFilters_applyFilters; [done|].
    unfold FilterSet.filters. simpl. by rewrite Hmax.
  - done.
  - unfold V1.get_strings. by rewrite Hvalid.
  - unfold interpretQuery.
    by rewrite (Hascii (lit "single word palindromic strings") eq_refl).
  - reflexivity.
Qed.

Lemma natural_language_route_agrees_witness :
  @LowerCaseOfAscii asciiRuntime /\
  @interpretQuery asciiRuntime (lit "Single word PALINDROMIC strings")
  = Some (Filters.mk (Some true) None None (Some (Num 1)) None) /\
  let phrase := lit "Single word PALINDROMIC strings" in
  let f := Filters.mk (Some true) None None (Some (Num 1)) None in
  let st := @V1.puts asciiRuntime
              [(lit "t1", lit "Racecar"); (lit "t2", lit "hello");
               (lit "t3", lit "a b a")] [] in
  let data := V1.applyFilters f (JsMap.values st) in
  @V1.get_strings_filter_by_natural_language asciiRuntime (Some phrase) st
  = respond 200 (Interpreted data (List.length data) phrase f) /\
  V1.validate (queryOf f) = (f, []) /\
  V1.get_strings (queryOf f) st
  = respond 200 (Listing data (List.length data) f) /\
  @interpretQuery asciiRuntime (lit "single word palindromic strings")
  = Some (Filters.mk (Some true) None None (Some (Num 1)) None) /\
  queryOf (Filters.mk (Some true) None None (Some (Num 1)) None)
  = Raw.mk (Some (lit "true")) None None (Some (lit "1")) None.
Proof.
  split; [exact asciiRuntime_ascii|]. split; [reflexivity|].
  exact (@natural_language_route_agrees_with_structured_route asciiRuntime
           asciiRuntime_ascii (lit "Single word PALINDROMIC strings")
           (Filters.mk (Some true) None None (Some (Num 1)) None)
           (@V1.puts asciiRuntime
              [(lit "t1", lit "Racecar"); (lit "t2", lit "hello");
               (lit "t3", lit "a b a")] [])
           eq_refl).
Defined.

Lemma in_filter_optional {A B} (o : option B) (test : B -> A -> bool)
    (l : list A) (x : A) :
  In x (match o with Some b => List.filter (test b) l | None => l end) ->
  In x l /\ forall b, o = Some b -> test b x = true.
Proof.
  destruct o as [b|].
  - intros [Hin Htest]%filter_In. split; [done|]. by intros ? [= <-].
  - intros Hin. split; [done|]. intros ?; discriminate.
Qed.

(** What the natural-language route returns is among the records given,
    and has the character of the filter, as it is, in its value. *)
Lemma applyParsedFilters_contains (f : Filters.t) (rs : list V1.AnalyzedString)
    (r : V1.AnalyzedString) :
  In r (V1.applyParsedFilters f rs) ->
  In r rs /\
  forall c, Filters.contains_character f = Some c ->
            includes c (V1.value r) = true.
Proof.
  unfold V1.applyParsedFilters.
  intros [Hin Hc]%(in_filter_optional (Filters.contains_character f)
                     (fun c item => includes c (V1.value item))).
  apply (in_filter_optional (Filters.min_length f)
           (fun n item =>
              num_ge (Num (Z.of_nat (V1.length (V1.properties item)))) n))
    in Hin as [Hin _].
  apply (in_filter_optional (Filters.word_count f)
           (fun n item =>
              num_eq (Num (Z.of_nat (V1.word_count (V1.properties item)))) n))
    in Hin as [Hin _].
  apply (in_filter_optional (Filters.is_palindrome f)
           (fun b item => Bool.eqb (V1.is_palindrome (V1.properties item)) b))
    in Hin as [Hin _].
  done.
Qed.

Lemma includes_singleton_existsb (c : N) (s : jsstring) :
  includes [c] s = existsb (N.eqb c) s.
Proof.
  destruct (existsb (N.eqb c) s) eqn:Hex.
  - apply includes_singleton. apply existsb_exists in Hex as (x & Hin & Hx).
    by apply N.eqb_eq in Hx as ->.
  - destruct (includes [c] s) eqn:Hinc; [|done].
    apply includes_singleton in Hinc.
    assert (existsb (N.eqb c) s = true); [|congruence].
    apply existsb_exists. exists c. split; [done | apply N.eqb_refl].
Qed.

(** The test of [contains_character] is the last one of the route. *)
Lemma applyParsedFilters_last (f : Filters.t) (u : N)
    (rs : list V1.AnalyzedString) :
  Filters.contains_character f = Some [u] ->
  V1.applyParsedFilters f rs
  = List.filter (fun r => existsb (N.eqb u) (V1.value r))
      (V1.applyParsedFilters
         (Filters.mk (Filters.is_palindrome f) (Filters.min_length f)
            (Filters.max_length f) (Filters.word_count f) None) rs).
Proof.
  intros Hc. unfold V1.applyParsedFilters. rewrite Hc. cbn [Filters.is_palindrome
    Filters.min_length Filters.word_count Filters.contains_character].
  apply List.filter_ext. intros r. apply includes_singleton_existsb.
Qed.

(** C10. The character that [interpretQuery] puts in
    [contains_character] is read from the lower-cased phrase, after
    "containing the letter ": it is one code unit, a letter a-z, a digit or
    the underscore, never one of A-Z.  The route then answers with exactly
    the records that pass the other filters and whose value has that very
    code unit, compared unit by unit, in their order.  So "containing the
    letter Z" gives [contains_character = "z"]; of the records of "Zebra"
    and "zebra" the filtering keeps the second only, and so does the route
    on a store that holds the two. *)
Theorem contains_character_is_read_lower_cased
    `{JsBuiltins} (Hupper : LowerCaseHasNoUpper) (Hascii : LowerCaseOfAscii)
    (phrase : jsstring) (f : Filters.t) (c : jsstring)
    (Hf : interpretQuery phrase = Some f)
    (Hc : Filters.contains_character f = Some c) :
  (exists pre u,
      c = [u] /\ ContainingLetterMatch (toLowerCase phrase) pre u /\
      isAsciiUpper u = false /\
      isAsciiLower u || isDigit u || (u =? 95) = true) /\
  (exists u, c = [u] /\ forall st : V1.store,
      let others :=
        Filters.mk (Filters.is_palindrome f) (Filters.min_length f)
          (Filters.max_length f) (Filters.word_count f) None in
      let data :=
        List.filter (fun r => existsb (N.eqb u) (V1.value r))
          (V1.applyParsedFilters others (JsMap.values st)) in
      V1.get_strings_filter_by_natural_language (Some phrase) st
      = respond 200 (Interpreted data (List.length data) phrase f) /\
      (forall r, In r data <->
                 In r (V1.applyParsedFilters others (JsMap.values st)) /\
                 In u (V1.value r)) /\
      (forall r, In r data -> In r (JsMap.values st))) /\
  interpretQuery (lit "containing the letter Z")
  = Some (Filters.mk None None None None (Some (lit "z"))) /\
  (forall now,
      V1.applyParsedFilters (Filters.mk None None None None (Some (lit "z")))
        [V1.analyzeString now (lit "Zebra"); V1.analyzeString now (lit "zebra")]
      = [V1.analyzeString now (lit "zebra")]) /\
  (forall now k1 k2,
      V1.get_strings_filter_by_natural_language
        (Some (lit "containing the letter Z"))
        [(k1, V1.analyzeString now (lit "Zebra"));
         (k2, V1.analyzeString now (lit "zebra"))]
      = respond 200
          (Interpreted [V1.analyzeString now (lit "zebra")] 1
             (lit "containing the letter Z")
             (Filters.mk None None None None (Some (lit "z"))))).
Proof.
  assert (Hread : exists pre u,
             c = [u] /\ ContainingLetterMatch (toLowerCase phrase) pre u /\
             isAsciiUpper u = false /\
             isAsciiLower u || isDigit u || (u =? 95) = true).
  { pose proof Hf as Hf'. rewrite interpretQuery_filters in Hf'.
    destruct (Nat.eqb _ 0); [done|]. injection Hf' as <-. simpl in Hc.
    apply (containingLetter_search (toLowerCase phrase)) in Hc
      as (pre & u & _ & Hu & ->).
    exists pre, u. split; [done|]. split; [done|].
    pose proof Hu as (post & Heq & Hword).
    assert (Hup : isAsciiUpper u = false).
    { apply (Hupper phrase). rewrite Heq.
      apply in_or_app. right. apply in_or_app. right. by left. }
    split; [done|]. unfold isWord in Hword. by rewrite Hup in Hword. }
  assert (HZ : interpretQuery (lit "containing the letter Z")
               = Some (Filters.mk None None None None (Some (lit "z")))).
  { unfold interpretQuery.
    by rewrite (Hascii (lit "containing the letter Z") eq_refl). }
  split_and!.
  - exact Hread.
  - destruct Hread as (pre & u & -> & _). exists u. split; [done|].
    intros st others data. split_and!.
    + unfold V1.get_strings_filter_by_natural_language.
      pose proof (interpretQuery_nonempty Hascii phrase _ Hf) as Hne.
      destruct phrase as [|c0 phrase]; [done|]. rewrite Hf.
      by rewrite (applyParsedFilters_last f u) by done.
    + intros r. subst data. rewrite filter_In, existsb_exists.
      split.
      * intros [Hin (x & Hx & ->%N.eqb_eq)]. done.
      * intros [Hin Hu]. split; [done|]. exists u. split; [done|].
        apply N.eqb_refl.
    + intros r [Hin _]%filter_In.
      by apply applyParsedFilters_contains in Hin as [Hin _].
  - exact HZ.
  - reflexivity.
  - intros now k1 k2. unfold V1.get_strings_filter_by_natural_language.
    cbv match. rewrite HZ. reflexivity.
Qed.

Lemma contains_character_is_read_lower_cased_witness :
  @LowerCaseHasNoUpper asciiRuntime /\ @LowerCaseOfAscii asciiRuntime /\
  @interpretQuery asciiRuntime (lit "Strings containing the letter Z")
  = Some (Filters.mk None None None None (Some (lit "z"))) /\
  Filters.contains_character
    (Filters.mk None None None None (Some (lit "z"))) = Some (lit "z") /\
  (exists pre u,
      lit "z" = [u] /\
      ContainingLetterMatch
        (asciiToLowerCase (lit "Strings containing the letter Z")) pre u /\
      isAsciiUpper u = false /\
      isAsciiLower u || isDigit u || (u =? 95) = true) /\
  (exists u, lit "z" = [u] /\ forall st : V1.store,
      let others := Filters.mk None None None None None in
      let data :=
        List.filter (fun r => existsb (N.eqb u) (V1.value r))
          (V1.applyParsedFilters others (JsMap.values st)) in
      @V1.get_strings_filter_by_natural_language asciiRuntime
        (Some (lit "Strings containing the letter Z")) st
      = respond 200
          (Interpreted data (List.length data)
             (lit "Strings containing the letter Z")
             (Filters.mk None None None None (Some (lit "z")))) /\
      (forall r, In r data <->
                 In r (V1.applyParsedFilters others (JsMap.values st)) /\
                 In u (V1.value r)) /\
      (forall r, In r data -> In r (JsMap.values st))) /\
  @interpretQuery asciiRuntime (lit "containing the letter Z")
  = Some (Filters.mk None None None None (Some (lit "z"))) /\
  (forall now,
      V1.applyParsedFilters (Filters.mk None None None None (Some (lit "z")))
        [@V1.analyzeString asciiRuntime now (lit "Zebra");
         @V1.analyzeString asciiRuntime now (lit "zebra")]
      = [@V1.analyzeString asciiRuntime now (lit "zebra")]) /\
  (forall now k1 k2,
      @V1.get_strings_filter_by_natural_language asciiRuntime
        (Some (lit "containing the letter Z"))
        [(k1, @V1.analyzeString asciiRuntime now (lit "Zebra"));
         (k2, @V1.analyzeString asciiRuntime now (lit "zebra"))]
      = respond 200
          (Interpreted [@V1.analyzeString asciiRuntime now (lit "zebra")] 1
             (lit "containing the letter Z")
             (Filters.mk None None None None (Some (lit "z"))))).
Proof.
  split; [exact asciiRuntime_no_upper|]. split; [exact asciiRuntime_ascii|].
  split; [reflexivity|]. split; [reflexivity|].
  exact (@contains_character_is_read_lower_cased asciiRuntime
           asciiRuntime_no_upper asciiRuntime_ascii
           (lit "Strings containing the letter Z")
           (Filters.mk None None None None (Some (lit "z"))) (lit "z")
           eq_refl eq_refl).
Defined.

(** ** Validation *)

(** First variant: every rule that is broken contributes its message,
    whatever the other rules say, in the order of the rules. *)
Lemma validate_errors1 (q : Raw.t) :
  (V1.validate q).2 =
  (ruleError (Raw.is_palindrome q) notBoolean
     ("is_palindrome must be " ++ quoted "true" ++ " or " ++ quoted "false")%string
   ++ ruleError (Raw.min_length q) notNatural
        "min_length must be a non-negative integer"
   ++ ruleError (Raw.max_length q) notNatural
        "max_length must be a non-negative integer"
   ++ ruleError (Raw.word_count q) notNatural
        "word_count must be a non-negative integer"
   ++ ruleError (Raw.contains_character q) notSingle
        "contains_character must be a single character"
   ++ boundsError q "min_length cannot be greater than max_length").
Proof.
  destruct q as [[p|] [lo|] [hi|] [wc|] [cc|]];
    unfold V1.validate, ruleError, boundsError, notBoolean, notNatural,
      notSingle; simpl;
    split_rules; reflexivity.
Qed.

Lemma validate_errors2 (q : Raw.t) :
  (V2.validate q).2 =
  (ruleError (Raw.is_palindrome q) notBoolean
     "is_palindrome must be true or false"
   ++ ruleError (Raw.min_length q) notNatural
        "Minlength must not be a negative number"
   ++ ruleError (Raw.max_length q) notNatural
        "Maxlength must not be a negative number"
   ++ ruleError (Raw.word_count q) notNatural
        "Wordcount must not be a negative number"
   ++ ruleError (Raw.contains_character q) notSingle
        "contains_character must be a single character"
   ++ boundsError q "min_length cannot be greater than max_length").
Proof.
  destruct q as [[p|] [lo|] [hi|] [wc|] [cc|]];
    unfold V2.validate, ruleError, boundsError, notBoolean, notNatural,
      notSingle; simpl;
    split_rules; reflexivity.
Qed.

(** First variant: with one error or more the answer is the 400 with all
    of them and nothing is filtered; with none the filters are applied. *)
Lemma get_strings_returns_every_error (q : Raw.t) (st : V1.store) :
  V1.get_strings q st =
  match (V1.validate q).2 with
  | [] =>
      let data := V1.applyFilters (V1.validate q).1 (JsMap.values st) in
      respond 200 (Listing data (List.length data) (V1.validate q).1)
  | errors => respond 400 (ErrorDetails "Bad Request" errors)
  end.
Proof.
  unfold V1.get_strings. destruct (V1.validate q) as [filters [|e errors]]; done.
Qed.

Lemma ruleError_among raw broken msg (known : list string) :
  In msg known -> Forall (fun m => In m known) (ruleError raw broken msg).
Proof.
  intros Hin. unfold ruleError.
  destruct raw as [v|]; [|constructor].
  destruct (broken v); by repeat constructor.
Qed.

Lemma validate_errors2_among (q : Raw.t) :
  Forall (fun m => In m messages2) (V2.validate q).2.
Proof.
  rewrite validate_errors2.
  repeat (apply Forall_app; split);
    try (apply ruleError_among; unfold messages2; simpl; tauto).
  unfold boundsError.
  destruct (Raw.min_length q) as [lo|], (Raw.max_length q) as [hi|];
    try constructor.
  destruct (negb (notNatural lo) && negb (notNatural hi)
            && num_gt (parseInt lo (Some 10)) (parseInt hi (Some 10)));
    constructor; [|constructor].
  unfold messages2; simpl; tauto.
Qed.

Lemma joinComma_head (c : N) (s : jsstring) (l : list jsstring) :
  exists s', joinComma ((c :: s) :: l) = c :: s'.
Proof. destruct l; simpl; eauto. Qed.

Section Validation.
Context `{JsBuiltins}.

(** Second variant: the array of messages never compares greater than 0. *)
Lemma errors_gt_zero_never (Hnan : LetterStringIsNaN) (q : Raw.t) :
  V2.errors_gt_zero (V2.validate q).2 = false.
Proof.
  destruct Hnan as [Hempty Hletter]. unfold V2.errors_gt_zero.
  pose proof (validate_errors2_among q) as Hamong.
  destruct (V2.validate q).2 as [|m errors]; [done|].
  apply Forall_cons in Hamong as [Hm _].
  assert (Hhead : exists c s, lit m = c :: s /\
            (isAsciiUpper c || isAsciiLower c) && negb (c =? 73) = true).
  { unfold messages2 in Hm. simpl in Hm.
    destruct Hm as [<-|[<-|[<-|[<-|[<-|[<-|[]]]]]]]; by eexists _, _. }
  destruct Hhead as (c & s & Hlit & Hc).
  change (map lit (m :: errors)) with (lit m :: map lit errors). rewrite Hlit.
  destruct (joinComma_head c s (map lit errors)) as [s' ->]. by apply Hletter.
Qed.

(** C2, second variant. The request
    [GET /strings?is_palindrome=maybe&min_length=-1] breaks two rules, and
    both messages are collected; the first variant answers 400 with the two
    messages; the second variant answers 200 with every record of the
    store, as if no parameter had been given.  The second variant answers
    200 to every request, and with the records that pass the parameters that
    were valid. *)
Theorem second_variant_answers_200_despite_errors
    (Hnan : LetterStringIsNaN) (st1 : V1.store) (st2 : V2.store) :
  let q := Raw.mk (Some (lit "maybe")) (Some (lit "-1")) None None None in
  V1.validate q
  = (Filters.empty,
     [("is_palindrome must be " ++ quoted "true" ++ " or " ++ quoted "false")%string;
      "min_length must be a non-negative integer"%string]) /\
  V1.get_strings q st1
  = respond 400
      (ErrorDetails "Bad Request"
         [("is_palindrome must be " ++ quoted "true" ++ " or "
           ++ quoted "false")%string;
          "min_length must be a non-negative integer"%string]) /\
  V2.validate q
  = (Filters.empty,
     ["is_palindrome must be true or false"%string;
      "Minlength must not be a negative number"%string]) /\
  V2.get_strings q st2
  = respond 200
      (Listing (JsMap.values st2) (List.length (JsMap.values st2))
         Filters.empty) /\
  (forall q' : Raw.t,
      let data := V2.applyFilters (V2.validate q').1 (JsMap.values st2) in
      V2.get_strings q' st2
      = respond 200 (Listing data (List.length data) (V2.validate q').1)).
Proof.
  intros q.
  assert (Hall : forall q' : Raw.t,
             let data := V2.applyFilters (V2.validate q').1 (JsMap.values st2) in
             V2.get_strings q' st2
             = respond 200 (Listing data (List.length data) (V2.validate q').1)).
  { intros q' data. unfold V2.get_strings.
    pose proof (errors_gt_zero_never Hnan q') as Hgt.
    destruct (V2.validate q') as [filters errors]. simpl in *. by rewrite Hgt. }
  split_and!; [reflexivity | reflexivity | reflexivity | | exact Hall].
  rewrite (Hall q). reflexivity.
Qed.
End Validation.

Lemma asciiRuntime_letter_is_NaN : @LetterStringIsNaN asciiRuntime.
Proof.
  split; [reflexivity|]. intros c s n Hc. simpl.
  assert (Hd : isDigit c = false).
  { destruct (isDigit c) eqn:Hd; [|done].
    apply Bool.andb_true_iff in Hc as [Hc _]. class_bounds. lia. }
  by rewrite Hd.
Qed.

Lemma second_variant_answers_200_witness :
  @LetterStringIsNaN asciiRuntime /\
  let st2 := @V2.puts asciiRuntime
               [(lit "t1", lit "racecar"); (lit "t2", lit "hello")] [] in
  let q := Raw.mk (Some (lit "maybe")) (Some (lit "-1")) None None None in
  V1.validate q
  = (Filters.empty,
     [("is_palindrome must be " ++ quoted "true" ++ " or " ++ quoted "false")%string;
      "min_length must be a non-negative integer"%string]) /\
  V1.get_strings q []
  = respond 400
      (ErrorDetails "Bad Request"
         [("is_palindrome must be " ++ quoted "true" ++ " or "
           ++ quoted "false")%string;
          "min_length must be a non-negative integer"%string]) /\
  V2.validate q
  = (Filters.empty,
     ["is_palindrome must be true or false"%string;
      "Minlength must not be a negative number"%string]) /\
  @V2.get_strings asciiRuntime q st2
  = respond 200
      (Listing (JsMap.values st2) (List.length (JsMap.values st2))
         Filters.empty) /\
  (forall q' : Raw.t,
      let data := V2.applyFilters (V2.validate q').1 (JsMap.values st2) in
      @V2.get_strings asciiRuntime q' st2
      = respond 200 (Listing data (List.length data) (V2.validate q').1)).
Proof.
  split; [exact asciiRuntime_letter_is_NaN|].
  exact (@second_variant_answers_200_despite_errors asciiRuntime
           asciiRuntime_letter_is_NaN []
           (@V2.puts asciiRuntime
              [(lit "t1", lit "racecar"); (lit "t2", lit "hello")] [])).
Defined.

(** First variant: the [filters] hold the parameters that are there and
    valid, so they are a FilterSet. *)
Lemma validate_filters1 (q : Raw.t) :
  (V1.validate q).1 =
  Filters.mk
    (match Raw.is_palindrome q with
     | Some v => if notBoolean v then None else Some (str_eq v (lit "true"))
     | None => None
     end)
    (match Raw.min_length q with
     | Some v => if notNatural v then None else Some (parseInt v (Some 10))
     | None => None
     end)
    (match Raw.max_length q with
     | Some v => if notNatural v then None else Some (parseInt v (Some 10))
     | None => None
     end)
    (match Raw.word_count q with
     | Some v => if notNatural v then None else Some (parseInt v (Some 10))
     | None => None
     end)
    (match Raw.contains_character q with
     | Some v => if notSingle v then None else Some v
     | None => None
     end).
Proof.
  destruct q as [[p|] [lo|] [hi|] [wc|] [cc|]];
    unfold V1.validate, notBoolean, notNatural, notSingle; simpl;
    split_rules; reflexivity.
Qed.

Lemma natural_number_of (v : jsstring) :
  notNatural v = false ->
  exists n, parseInt v (Some 10) = FilterSet.number_of n.
Proof.
  unfold notNatural. destruct (parseInt v (Some 10)) as [|z]; [done|]. simpl.
  intros Hz%Z.ltb_ge. exists (Z.to_nat z). unfold FilterSet.number_of.
  f_equal. lia.
Qed.

Lemma validate_FilterSet (q : Raw.t) :
  exists fs, (V1.validate q).1 = FilterSet.filters fs.
Proof.
  rewrite validate_filters1.
  assert (Hnum : forall raw : option (list N),
            exists o : option nat,
              match raw with
              | Some v => if notNatural v then None
                          else Some (parseInt v (Some 10))
              | None => None
              end = option_map FilterSet.number_of o).
  { intros [v|]; [|by exists None].
    destruct (notNatural v) eqn:Hv; [by exists None|].
    destruct (natural_number_of v Hv) as [n ->]. by exists (Some n). }
  destruct (Hnum (Raw.min_length q)) as [lo ->].
  destruct (Hnum (Raw.max_length q)) as [hi ->].
  destruct (Hnum (Raw.word_count q)) as [wc ->].
  assert (Hch : exists o : option N,
            match Raw.contains_character q with
            | Some v => if notSingle v then None else Some v
            | None => None
            end = option_map (fun c => [c]) o).
  { destruct (Raw.contains_character q) as [[|c [|]]|];
      [by exists None | by exists (Some c) | by exists None | by exists None]. }
  destruct Hch as [ch ->].
  by eexists (FilterSet.mk _ lo hi wc ch).
Qed.

(** ** The examples of the specification, on the ASCII runtime *)

Example palindrome_normalization :
  V1.is_palindrome
    (V1.properties (@V1.analyzeString asciiRuntime [] (lit "Race car"))) = true /\
  V1.is_palindrome
    (V1.properties (@V1.analyzeString asciiRuntime [] (lit "hello"))) = false.
Proof. split; reflexivity. Qed.

Example filter_conjunction :
  map V1.value
    (V1.applyFilters (Filters.mk None (Some (Num 2)) (Some (Num 2)) None None)
       (JsMap.values
          (@V1.puts asciiRuntime
             [(lit "t1", lit "aa"); (lit "t2", lit "ab"); (lit "t3", lit "abc")]
             [])))
  = [lit "aa"; lit "ab"].
Proof. reflexivity. Qed.

Example delete_then_create_again :
  let st := @V1.serve asciiRuntime
              [V1.Post (lit "t1") (JString (lit "x")); V1.Delete (lit "x")] [] in
  status (@V1.get_string asciiRuntime (lit "x") st) = 404%nat /\
  (@V1.post_strings asciiRuntime (lit "t2") (JString (lit "x")) st).1
  = respond 201 (Analyzed (@V1.analyzeString asciiRuntime (lit "t2") (lit "x"))).
Proof. split; reflexivity. Qed.

Example unparseable_phrase : @interpretQuery asciiRuntime (lit "banana") = None.
Proof. reflexivity. Qed.

Example longer_than_and_letter :
  @interpretQuery asciiRuntime
    (lit "Strings LONGER than 012 containing the letter Z")
  = Some (Filters.mk None (Some (Num 13)) None None (Some (lit "z"))).
Proof. reflexivity. Qed.

(** * Further properties of the code *)

(** ** The analysis *)

Lemma occurrences_le_length (k : list N) (l : list (list N)) :
  (occurrences k l <= List.length l)%nat.
Proof. unfold occurrences. apply List.filter_length_le. Qed.

Lemma codePoints_cons_cons (c d : N) (s : jsstring) :
  codePoints (c :: d :: s) =
  if isHighSurrogate c && isLowSurrogate d
  then [c; d] :: codePoints s else [c] :: codePoints (d :: s).
Proof. reflexivity. Qed.

Lemma codePoints_length (s : jsstring) :
  (List.length (codePoints s) <= List.length s)%nat.
Proof.
  assert (Hboth : forall n (s : jsstring), (List.length s <= n)%nat ->
            (List.length (codePoints s) <= List.length s)%nat).
  { intros n. induction n as [|n IH]; intros s0 Hn.
    - destruct s0; [simpl; lia | simpl in Hn; lia].
    - destruct s0 as [|c [|d s'']]; [simpl; lia | simpl; lia |].
      rewrite codePoints_cons_cons.
      cbn [List.length] in Hn.
      destruct (isHighSurrogate c && isLowSurrogate d); cbn [List.length].
      + assert (List.length (codePoints s'') <= List.length s'')%nat
          by (apply IH; lia). lia.
      + assert (List.length (codePoints (d :: s'')) <= List.length (d :: s''))%nat
          by (apply IH; cbn [List.length]; lia).
        cbn [List.length] in *. lia. }
  by apply (Hboth (List.length s)).
Qed.

Lemma codePoints_nil (s : jsstring) : codePoints s = [] <-> s = [].
Proof.
  split; [|by intros ->].
  destruct s as [|c [|d s'']]; [done|done|].
  rewrite codePoints_cons_cons.
  by destruct (isHighSurrogate c && isLowSurrogate d).
Qed.

(** X1. The frequency map of the analysis gives to each character the
    number of times the string iterator yields it, and has no key for a
    character that is not yielded; no count exceeds the length. *)
Theorem character_frequency_map_counts_occurrences
    `{JsBuiltins} (now v ch : jsstring) (n : nat) :
  let freq := V1.character_frequency_map
                (V1.properties (V1.analyzeString now v)) in
  (freq !! ch = Some n <->
   n = occurrences ch (codePoints v) /\ (0 < n)%nat) /\
  (freq !! ch = None <-> ch ∉ codePoints v) /\
  (freq !! ch = Some n ->
   (n <= V1.length (V1.properties (V1.analyzeString now v)))%nat).
Proof.
  simpl. rewrite lookup_countChar_empty.
  pose proof (occurrences_le_length ch (codePoints v)) as Hle.
  pose proof (codePoints_length v) as Hlen.
  pose proof (occurrences_zero ch (codePoints v)) as Hzero.
  destruct (Nat.eqb_spec (occurrences ch (codePoints v)) 0) as [Hz|Hnz].
  - split_and!.
    + split; [done|]. intros [-> Hpos]. lia.
    + split; [intros _; by apply Hzero | done].
    + done.
  - split_and!.
    + split; [intros [= <-]; split; [done|lia] | intros [-> _]; done].
    + split; [done|]. intros Hnot. by apply Hzero in Hnot.
    + intros [= <-]. lia.
Qed.

Lemma totalCount_insert (freq : gmap (list N) nat) (k : list N) (n : nat) :
  freq !! k = None -> totalCount (<[k := n]> freq) = (n + totalCount freq)%nat.
Proof.
  intros Hk. unfold totalCount.
  apply (map_fold_insert_L (fun _ n acc => (n + acc)%nat)); [|done].
  intros; lia.
Qed.

Lemma totalCount_countChar (freq : gmap (list N) nat) (k : list N) :
  totalCount (countChar freq k) = Datatypes.S (totalCount freq).
Proof.
  cbv beta. destruct (freq !! k) as [n|] eqn:Hk.
  - change (default 0%nat (Some n)) with n.
    assert (Hold : totalCount freq = (n + totalCount (delete k freq))%nat).
    { rewrite <- (insert_delete_id freq k n Hk) at 1.
      apply totalCount_insert, lookup_delete_eq. }
    assert (Hnew : totalCount (<[k := (n + 1)%nat]> freq)
                   = (n + 1 + totalCount (delete k freq))%nat).
    { rewrite <- insert_delete_eq. apply totalCount_insert, lookup_delete_eq. }
    lia.
  - change (default 0%nat None) with 0%nat.
    rewrite totalCount_insert by done. lia.
Qed.

Lemma totalCount_loop (l : list (list N)) (freq : gmap (list N) nat) :
  totalCount (foldl countChar freq l) = (totalCount freq + List.length l)%nat.
Proof.
  revert freq. induction l as [|k l IH]; intros freq; simpl; [lia|].
  rewrite IH, totalCount_countChar. lia.
Qed.

Lemma size_list_to_set_le (l : list (list N)) :
  (size (list_to_set l : gset (list N)) <= List.length l)%nat.
Proof.
  induction l as [|k l IH].
  - rewrite list_to_set_nil, size_empty. done.
  - rewrite list_to_set_cons, size_union_alt, size_singleton.
    assert (Hsub : (list_to_set l ∖ {[k]} : gset (list N)) ⊆ list_to_set l)
      by apply subseteq_difference_l, reflexivity.
    apply subseteq_size in Hsub. simpl. lia.
Qed.

(** X2. The counts of the frequency map add up to the number of
    characters the string iterator yields, which is at most the length and
    at least the number of unique characters; the analysis finds no
    character exactly in the empty string. *)
Theorem counts_add_up_to_the_characters `{JsBuiltins} (now v : jsstring) :
  let p := V1.properties (V1.analyzeString now v) in
  totalCount (V1.character_frequency_map p) = List.length (codePoints v) /\
  (V1.unique_characters p <= List.length (codePoints v))%nat /\
  (List.length (codePoints v) <= V1.length p)%nat /\
  (V1.unique_characters p = 0%nat <-> v = []).
Proof.
  simpl. split_and!.
  - rewrite totalCount_loop. unfold totalCount. by rewrite map_fold_empty.
  - apply size_list_to_set_le.
  - apply codePoints_length.
  - rewrite size_empty_iff, <- codePoints_nil. split.
    + intros Hempty. destruct (codePoints v) as [|ch l]; [done|].
      exfalso. apply (not_elem_of_empty (C:=gset (list N)) ch).
      apply (Hempty ch). rewrite list_to_set_cons.
      apply elem_of_union_l, elem_of_singleton. done.
    + by intros ->.
Qed.

(** ** Words *)

Lemma Boolean_snoc (cur : jsstring) (c : N) : Boolean (cur ++ [c]) = true.
Proof. by destruct cur. Qed.

Lemma splitWhitespaceFrom_words (insep : bool) (cur s : jsstring) :
  (insep = true -> cur = []) ->
  List.length (List.filter Boolean (splitWhitespaceFrom insep cur s))
  = wordRuns (Boolean cur) s.
Proof.
  revert insep cur. induction s as [|c s IH]; intros insep cur Hsep; simpl.
  - by destruct (Boolean cur).
  - pose proof (IH true [] (fun _ => eq_refl)) as IHsep. simpl in IHsep.
    destruct (isWhitespace c).
    + destruct insep.
      * by rewrite (Hsep eq_refl).
      * simpl. destruct (Boolean cur); simpl; by rewrite IHsep.
    + rewrite IH by done. by rewrite Boolean_snoc.
Qed.

Lemma wordRuns_whitespace (b : bool) (w : jsstring) :
  forallb isWhitespace w = true ->
  wordRuns b w = if b then 1%nat else 0%nat.
Proof.
  revert b. induction w as [|c w IH]; intros b; simpl; [done|].
  intros [Hc Hw]%Bool.andb_true_iff. rewrite Hc, (IH false Hw).
  destruct b; lia.
Qed.

Lemma wordRuns_app_whitespace (b : bool) (s w : jsstring) :
  forallb isWhitespace w = true -> wordRuns b (s ++ w) = wordRuns b s.
Proof.
  intros Hw. revert b. induction s as [|c s IH]; intros b; simpl.
  - by apply wordRuns_whitespace.
  - destruct (isWhitespace c); by rewrite IH.
Qed.

Lemma wordRuns_whitespace_app (w s : jsstring) :
  forallb isWhitespace w = true -> wordRuns false (w ++ s) = wordRuns false s.
Proof.
  induction w as [|c w IH]; simpl; [done|].
  intros [Hc Hw]%Bool.andb_true_iff. rewrite Hc. simpl. auto.
Qed.

Lemma trimStart_split (s : jsstring) :
  exists w, s = w ++ trimStart s /\ forallb isWhitespace w = true.
Proof.
  induction s as [|c s (w & Heq & Hw)]; simpl.
  - by exists [].
  - destruct (isWhitespace c) eqn:Hc.
    + exists (c :: w). simpl. rewrite Hc, Hw. split; [congruence | done].
    + by exists [].
Qed.

Lemma trimEnd_split (s : jsstring) :
  exists w, s = trimEnd s ++ w /\ forallb isWhitespace w = true.
Proof.
  unfold trimEnd. destruct (trimStart_split (rev s)) as (w & Heq & Hw).
  exists (rev w). split.
  - rewrite <- rev_app_distr, <- Heq. by rewrite rev_involutive.
  - rewrite forallb_forall in *. intros c Hc. apply Hw. by apply in_rev.
Qed.

Lemma wordRuns_trim (s : jsstring) : wordRuns false (trim s) = wordRuns false s.
Proof.
  unfold trim.
  destruct (trimStart_split s) as (w & Hs & Hw).
  destruct (trimEnd_split (trimStart s)) as (w' & Hs' & Hw').
  rewrite Hs at 2. rewrite wordRuns_whitespace_app by done.
  rewrite Hs' at 2. by rewrite wordRuns_app_whitespace.
Qed.

Lemma wordRuns_true_positive (s : jsstring) : (1 <= wordRuns true s)%nat.
Proof.
  induction s as [|c s IH]; simpl; [lia|]. destruct (isWhitespace c); lia.
Qed.

Lemma wordRuns_zero (s : jsstring) :
  wordRuns false s = 0%nat <-> forallb isWhitespace s = true.
Proof.
  induction s as [|c s IH]; simpl; [done|].
  destruct (isWhitespace c); simpl; [done|].
  pose proof (wordRuns_true_positive s). split; [lia | done].
Qed.

Lemma wordRuns_separated (b : bool) (s : jsstring) (c : N) (t : jsstring) :
  isWhitespace c = true ->
  wordRuns b (s ++ c :: t) = (wordRuns b s + wordRuns false t)%nat.
Proof.
  intros Hc. revert b. induction s as [|d s IH]; intros b; simpl.
  - by rewrite Hc.
  - destruct (isWhitespace d); rewrite IH; lia.
Qed.

Lemma word_count_wordRuns `{JsBuiltins} (now v : jsstring) :
  V1.word_count (V1.properties (V1.analyzeString now v)) = wordRuns false v.
Proof.
  simpl. unfold splitWhitespace.
  rewrite splitWhitespaceFrom_words by done. apply wordRuns_trim.
Qed.

(** X3. The word count of the analysis is the number of maximal runs of
    code units that are not whitespace; the [trim] before the split changes
    nothing, as the empty pieces are filtered out anyway. *)
Theorem word_count_is_the_number_of_runs `{JsBuiltins} (now v : jsstring) :
  V1.word_count (V1.properties (V1.analyzeString now v)) = wordRuns false v /\
  V1.word_count (V1.properties (V1.analyzeString now v))
  = List.length (List.filter Boolean (splitWhitespace v)).
Proof.
  split; [apply word_count_wordRuns|].
  rewrite word_count_wordRuns. unfold splitWhitespace.
  by rewrite splitWhitespaceFrom_words.
Qed.

(** X4. The word count is 0 exactly for the strings made of whitespace
    only (the empty string among them), and is at most half the length
    rounded up. *)
Theorem word_count_zero_iff_whitespace `{JsBuiltins} (now v : jsstring) :
  let p := V1.properties (V1.analyzeString now v) in
  (V1.word_count p = 0%nat <-> forallb isWhitespace v = true) /\
  (2 * V1.word_count p <= V1.length p + 1)%nat.
Proof.
  cbv zeta. rewrite word_count_wordRuns. split; [apply wordRuns_zero|].
  change (V1.length (V1.properties (V1.analyzeString now v)))
    with (List.length v).
  assert (Hboth : forall s : jsstring,
            (2 * wordRuns false s <= List.length s + 1)%nat /\
            (2 * wordRuns true s <= List.length s + 2)%nat).
  { induction s as [|c s [IHf IHt]]; simpl; [lia|].
    destruct (isWhitespace c); lia. }
  apply Hboth.
Qed.

(** X5. Joining two strings with whitespace adds their word counts. *)
Theorem word_count_adds_over_whitespace
    `{JsBuiltins} (now a w b : jsstring)
    (Hne : w <> []) (Hw : forallb isWhitespace w = true) :
  V1.word_count (V1.properties (V1.analyzeString now (a ++ w ++ b)))
  = (V1.word_count (V1.properties (V1.analyzeString now a))
     + V1.word_count (V1.properties (V1.analyzeString now b)))%nat.
Proof.
  rewrite !word_count_wordRuns. destruct w as [|c w]; [done|].
  simpl in Hw. apply Bool.andb_true_iff in Hw as [Hc Hw].
  change (a ++ (c :: w) ++ b) with (a ++ c :: (w ++ b)).
  rewrite wordRuns_separated by done.
  by rewrite wordRuns_whitespace_app.
Qed.

Lemma word_count_adds_over_whitespace_witness :
  lit "  " <> [] /\ forallb isWhitespace (lit "  ") = true /\
  V1.word_count
    (V1.properties
       (@V1.analyzeString asciiRuntime (lit "t")
          (lit "one two" ++ lit "  " ++ lit " three")))
  = (V1.word_count
       (V1.properties (@V1.analyzeString asciiRuntime (lit "t") (lit "one two")))
     + V1.word_count
         (V1.properties
            (@V1.analyzeString asciiRuntime (lit "t") (lit " three"))))%nat.
Proof.
  split; [discriminate|]. split; [reflexivity|].
  exact (@word_count_adds_over_whitespace asciiRuntime (lit "t")
           (lit "one two") (lit "  ") (lit " three")
           ltac:(discriminate) eq_refl).
Defined.

(** ** Palindromes *)

Lemma removeWhitespace_app (a b : jsstring) :
  removeWhitespace (a ++ b) = removeWhitespace a ++ removeWhitespace b.
Proof. apply List.filter_app. Qed.

Lemma removeWhitespace_rev (a : jsstring) :
  removeWhitespace (rev a) = rev (removeWhitespace a).
Proof. apply List.filter_rev. Qed.

Lemma str_eq_rev (a : jsstring) : str_eq (rev a) (rev (rev a)) = str_eq a (rev a).
Proof.
  unfold str_eq. rewrite rev_involutive.
  apply bool_decide_ext. split; congruence.
Qed.

(** X6. On a runtime that lower-cases ASCII text letter by letter, the
    palindrome verdict of an ASCII string depends only on what is left of it
    once whitespace is removed and letters are lower-cased: two strings with
    the same rest get the same verdict, a string and its reversal get the
    same verdict, and a string followed by the reversal of a string with the
    same rest is a palindrome. *)
Theorem is_palindrome_ignores_case_whitespace_and_direction
    `{JsBuiltins} (Hascii : LowerCaseOfAscii) (now a b : jsstring)
    (Ha : isAscii a = true) (Hb : isAscii b = true)
    (Hsame : removeWhitespace (map asciiLowerUnit a)
             = removeWhitespace (map asciiLowerUnit b)) :
  let verdict := fun v => V1.is_palindrome (V1.properties (V1.analyzeString now v)) in
  verdict a = verdict b /\
  verdict (rev a) = verdict a /\
  verdict (a ++ rev b) = true.
Proof.
  assert (Hra : isAscii (rev a) = true).
  { unfold isAscii in *. rewrite forallb_forall in *.
    intros c Hc. apply Ha. by apply in_rev. }
  assert (Hrb : isAscii (rev b) = true).
  { unfold isAscii in *. rewrite forallb_forall in *.
    intros c Hc. apply Hb. by apply in_rev. }
  assert (Hab : isAscii (a ++ rev b) = true).
  { unfold isAscii in *. rewrite forallb_app. by rewrite Ha, Hrb. }
  simpl. rewrite (Hascii a Ha), (Hascii b Hb), (Hascii (rev a) Hra),
    (Hascii (a ++ rev b) Hab).
  split_and!.
  - by rewrite Hsame.
  - rewrite map_rev, removeWhitespace_rev. apply str_eq_rev.
  - rewrite map_app, map_rev, removeWhitespace_app, removeWhitespace_rev, Hsame.
    unfold str_eq. apply bool_decide_eq_true.
    by rewrite rev_app_distr, rev_involutive.
Qed.

Lemma is_palindrome_ignores_witness :
  @LowerCaseOfAscii asciiRuntime /\
  isAscii (lit "Never odd") = true /\ isAscii (lit "n  EVERO dd") = true /\
  removeWhitespace (map asciiLowerUnit (lit "Never odd"))
  = removeWhitespace (map asciiLowerUnit (lit "n  EVERO dd")) /\
  let verdict := fun v =>
    V1.is_palindrome
      (V1.properties (@V1.analyzeString asciiRuntime (lit "t") v)) in
  verdict (lit "Never odd") = verdict (lit "n  EVERO dd") /\
  verdict (rev (lit "Never odd")) = verdict (lit "Never odd") /\
  verdict (lit "Never odd" ++ rev (lit "n  EVERO dd")) = true.
Proof.
  split; [exact asciiRuntime_ascii|].
  split; [reflexivity|]. split; [reflexivity|]. split; [reflexivity|].
  exact (@is_palindrome_ignores_case_whitespace_and_direction asciiRuntime
           asciiRuntime_ascii (lit "t") (lit "Never odd") (lit "n  EVERO dd")
           eq_refl eq_refl eq_refl).
Defined.

(** ** The two variants of the analysis *)

(** X7. The two variants of [analyzeString] say the same of every string:
    same [id], [value], six properties and [created_at]; they differ in
    where [created_at] is put and in how the empty pieces are filtered. *)
Theorem variants_analyze_alike `{JsBuiltins} (now v : jsstring) :
  facts1 (V1.analyzeString now v) = facts2 (V2.analyzeString now v).
Proof.
  assert (Hfilter : forall l : list (list N),
            List.filter Boolean l
            = List.filter (fun word => (0 <? List.length word)%nat) l).
  { intros l. apply List.filter_ext. intros [|c w]; reflexivity. }
  unfold facts1, facts2. simpl. by rewrite Hfilter.
Qed.

(** ** Characters outside the basic plane *)

(** X8. A surrogate pair is one character for the analysis (unique
    character count 1, one key in the frequency map) while its length is 2;
    as [contains_character] it breaks the rule of the single character and
    leaves the filter unset. *)
Theorem surrogate_pair_is_one_character_but_no_filter
    `{JsBuiltins} (now : jsstring) (c d : N)
    (Hc : isHighSurrogate c = true) (Hd : isLowSurrogate d = true) :
  let p := V1.properties (V1.analyzeString now [c; d]) in
  V1.length p = 2%nat /\ V1.unique_characters p = 1%nat /\
  V1.character_frequency_map p = {[ [c; d] := 1%nat ]} /\
  V1.validate (Raw.mk None None None None (Some [c; d]))
  = (Filters.empty, ["contains_character must be a single character"%string]).
Proof.
  assert (Hcp : codePoints [c; d] = [[c; d]]).
  { by rewrite codePoints_cons_cons, Hc, Hd. }
  cbv zeta. split_and!.
  - reflexivity.
  - change (V1.unique_characters (V1.properties (V1.analyzeString now [c; d])))
      with (size (list_to_set (codePoints [c; d]) : gset (list N))).
    rewrite Hcp, list_to_set_cons, list_to_set_nil, (right_id_L ∅ (∪)).
    apply size_singleton.
  - change (V1.character_frequency_map
              (V1.properties (V1.analyzeString now [c; d])))
      with (foldl countChar (∅ : gmap (list N) nat) (codePoints [c; d])).
    rewrite Hcp. cbn [foldl]. rewrite lookup_empty. apply insert_empty.
  - reflexivity.
Qed.

Lemma surrogate_pair_witness :
  isHighSurrogate 55357 = true /\ isLowSurrogate 56832 = true /\
  let p := V1.properties
             (@V1.analyzeString asciiRuntime (lit "t") [55357; 56832]) in
  V1.length p = 2%nat /\ V1.unique_characters p = 1%nat /\
  V1.character_frequency_map p = {[ [55357; 56832] := 1%nat ]} /\
  V1.validate (Raw.mk None None None None (Some [55357; 56832]))
  = (Filters.empty, ["contains_character must be a single character"%string]).
Proof.
  split; [reflexivity|]. split; [reflexivity|].
  exact (@surrogate_pair_is_one_character_but_no_filter asciiRuntime (lit "t")
           55357 56832 eq_refl eq_refl).
Defined.

(** ** The store, further *)
Section JsMapMore.
Context {V : Type}.
Implicit Types (m : JsMap.t V) (k : list N) (v : V).

Lemma get_app_absent k m m' :
  JsMap.get k m = None -> JsMap.get k (m ++ m') = JsMap.get k m'.
Proof.
  induction m as [|[k' v'] m IH]; simpl; [done|].
  case_bool_decide; [done | auto].
Qed.

Lemma delete_absent k m : JsMap.has k m = false -> JsMap.delete k m = m.
Proof.
  rewrite has_false_get.
  induction m as [|[k' v'] m IH]; simpl; [done|].
  case_bool_decide; [done|]. intros Hg. by rewrite IH.
Qed.

Lemma delete_present_length k m :
  JsMap.has k m = true ->
  (List.length (JsMap.delete k m) + 1 = List.length m)%nat.
Proof.
  unfold JsMap.has.
  induction m as [|[k' v'] m IH]; simpl; [done|].
  case_bool_decide; simpl; [lia|]. intros Hg. specialize (IH Hg). lia.
Qed.

Lemma get_delete_eq k m :
  NoDup (JsMap.keys m) -> JsMap.get k (JsMap.delete k m) = None.
Proof.
  induction m as [|[k' v'] m IH]; simpl; [done|].
  intros [Hk' Hnd]%NoDup_cons. case_bool_decide as Hk.
  - subst k'. by apply get_None_keys.
  - simpl. rewrite bool_decide_eq_false_2 by done. auto.
Qed.

Lemma in_delete_other k k' v m :
  In (k', v) m -> k' <> k -> In (k', v) (JsMap.delete k m).
Proof.
  induction m as [|[k0 v0] m IH]; simpl; [done|].
  intros [Heq|Hin] Hne.
  - injection Heq as -> ->. rewrite bool_decide_eq_false_2 by done. by left.
  - case_bool_decide; [done|]. right. auto.
Qed.

(** With distinct keys, [delete] leaves the entries under the other keys,
    in their order. *)
Lemma delete_filter k m :
  NoDup (JsMap.keys m) ->
  JsMap.delete k m
  = List.filter (fun entry => negb (bool_decide (entry.1 = k))) m.
Proof.
  induction m as [|[k' v'] m IH]; simpl; [done|].
  intros [Hk' Hnd]%NoDup_cons. case_bool_decide as Hk; simpl.
  - subst k'. symmetry. clear IH Hnd.
    induction m as [|[k1 v1] m IHm]; simpl; [done|].
    unfold JsMap.keys in Hk'. simpl in Hk'.
    rewrite not_elem_of_cons in Hk'. destruct Hk' as [Hne Hk'].
    rewrite bool_decide_eq_false_2 by congruence. simpl. f_equal. auto.
  - f_equal. auto.
Qed.
End JsMapMore.

Section StoreMore.
Context `{JsBuiltins}.

(** The stores reached through the router are stores of [V1.serve]: the
    requests that match a route are served by their handlers, and the
    others leave the store as it is. *)
Lemma served_serve (requests : list V1.http) (st : V1.store) :
  V1.served requests st = V1.serve (omap V1.route requests) st.
Proof.
  revert st. induction requests as [|h requests IH]; intros st; [done|].
  unfold V1.served, V1.answer in *. simpl.
  destruct (V1.route h) as [r|]; simpl; apply IH.
Qed.

(** X9. Reading a value right after creating it answers 200: with the
    record just created when the creation was answered 201, and as before
    the creation when it was answered 409.  The value is not empty, and is
    not "filter-by-natural-language" in any case of its letters: the path
    of these reaches another route. *)
Theorem read_after_create
    (st : V1.store) (now v : jsstring) (q : Raw.t) (query : option jsstring)
    (Hne : v <> [])
    (Hname : map asciiLowerUnit v <> lit "filter-by-natural-language") :
  let created := V1.answer (V1.HttpPost [] now (JString v)) st in
  let read := fun st' => (V1.answer (V1.HttpGet v q query) st').1 in
  status (read created.2) = 200%nat /\
  (status created.1 = 201%nat ->
   read created.2 = respond 200 (Analyzed (V1.analyzeString now v))) /\
  (status created.1 = 409%nat -> read created.2 = read st) /\
  (status created.1 = 201%nat \/ status created.1 = 409%nat).
Proof.
  cbv zeta. unfold V1.answer, V1.route, str_eq.
  rewrite (bool_decide_eq_true_2 ([] = [])) by done.
  rewrite (bool_decide_eq_false_2 (v = [])) by done.
  rewrite (bool_decide_eq_false_2 (map asciiLowerUnit v = _)) by done.
  cbn [V1.handle fst snd].
  rewrite post_strings1. unfold V1.get_string.
  destruct (JsMap.has (generateHash v) st) eqn:Hhas; simpl.
  - rewrite Hhas. simpl. split_and!; [|done|done|by right].
    apply has_get in Hhas as [r Hr]. by rewrite Hr.
  - assert (Hget : JsMap.get (generateHash v)
                     (st ++ [(generateHash v, V1.analyzeString now v)])
                   = Some (V1.analyzeString now v)).
    { rewrite get_app_absent by by apply has_false_get.
      simpl. by rewrite bool_decide_eq_true_2. }
    unfold JsMap.has. rewrite Hget. simpl.
    split_and!; [done|done|done|by left].
Qed.

(** X10. After a deletion of [v], on whatever store the process has
    reached, reading [v] and deleting [v] again are answered 404, and
    creating [v] is answered 201 with a new record, which comes last in the
    store.  The value is not empty, and is not
    "filter-by-natural-language" in any case of its letters: the path of
    these reaches another route, or none. *)
Theorem delete_then_absent_then_create_again
    (requests : list V1.request) (v now : jsstring)
    (q : Raw.t) (query : option jsstring)
    (Hne : v <> [])
    (Hname : map asciiLowerUnit v <> lit "filter-by-natural-language") :
  let st := (V1.answer (V1.HttpDelete v) (V1.serve requests [])).2 in
  status (V1.answer (V1.HttpGet v q query) st).1 = 404%nat /\
  V1.answer (V1.HttpDelete v) st
  = (respond 404
       (ErrorMessage "Not Found" "String does not exist in the system"), st) /\
  V1.answer (V1.HttpPost [] now (JString v)) st
  = (respond 201 (Analyzed (V1.analyzeString now v)),
     st ++ [(generateHash v, V1.analyzeString now v)]).
Proof.
  cbv zeta. unfold V1.answer, V1.route, str_eq.
  rewrite (bool_decide_eq_true_2 ([] = [])) by done.
  rewrite (bool_decide_eq_false_2 (v = [])) by done.
  rewrite (bool_decide_eq_false_2 (map asciiLowerUnit v = _)) by done.
  cbn [V1.handle fst snd].
  set (st := (V1.delete_string v (V1.serve requests [])).2).
  destruct (serve_invariant requests [] invariant_nil1) as [[Hnd _] _].
  assert (Habs : JsMap.has (generateHash v) st = false).
  { subst st. unfold V1.delete_string.
    destruct (JsMap.has (generateHash v) (V1.serve requests [])) eqn:Hhas;
      simpl; [|done].
    apply has_false_get. by apply get_delete_eq. }
  split_and!.
  - unfold V1.get_string. by rewrite Habs.
  - unfold V1.delete_string. by rewrite Habs.
  - rewrite post_strings1. by rewrite Habs.
Qed.

(** X11. No request changes a record that is in the store: whatever
    request is served, an entry stays as it is, unless the request is the
    deletion of a value with the digest of its key. *)
Theorem records_are_never_changed
    (r : V1.request) (st : V1.store) (k : jsstring) (rec : V1.AnalyzedString)
    (Hin : In (k, rec) st)
    (Hkept : match r with
             | V1.Delete v => negb (str_eq (generateHash v) k)
             | _ => true
             end = true) :
  In (k, rec) (V1.handle r st).2 /\
  JsMap.get k (V1.handle r st).2 = JsMap.get k st.
Proof.
  destruct r as [now value|query|v|q|v]; simpl; try done.
  - destruct value as [|v|]; [done| |done].
    rewrite post_strings1.
    destruct (JsMap.has (generateHash v) st) eqn:Hhas; simpl; [done|].
    split; [apply in_or_app; by left|].
    destruct (JsMap.get k st) as [r0|] eqn:Hget.
    + clear Hin. induction st as [|[k' v'] st IH]; simpl in *; [done|].
      case_bool_decide; [done|]. apply IH; [|done].
      unfold JsMap.has in *. simpl in Hhas.
      case_bool_decide; [done | exact Hhas].
    + apply get_None_keys in Hget. exfalso. apply Hget.
      apply list_elem_of_fmap. exists (k, rec). split; [done|].
      by apply list_elem_of_In.
  - apply negb_true_iff, bool_decide_eq_false in Hkept.
    unfold V1.delete_string.
    destruct (JsMap.has (generateHash v) st); simpl; [|done].
    split; [apply in_delete_other; [done | congruence]|].
    clear Hin. induction st as [|[k' v'] st IH]; simpl; [done|].
    case_bool_decide as Hk'; simpl.
    + rewrite bool_decide_eq_false_2 by congruence. done.
    + case_bool_decide; [done | apply IH].
Qed.

End StoreMore.

Lemma read_after_create_witness :
  lit "a" <> [] /\
  map asciiLowerUnit (lit "a") <> lit "filter-by-natural-language" /\
  let created :=
    @V1.answer asciiRuntime (V1.HttpPost [] (lit "t1") (JString (lit "a")))
      [] in
  let read := fun st' =>
    (@V1.answer asciiRuntime
       (V1.HttpGet (lit "a") (Raw.mk None None None None None) None) st').1 in
  status (read created.2) = 200%nat /\
  (status created.1 = 201%nat ->
   read created.2
   = respond 200 (Analyzed (@V1.analyzeString asciiRuntime (lit "t1") (lit "a")))) /\
  (status created.1 = 409%nat -> read created.2 = read []) /\
  (status created.1 = 201%nat \/ status created.1 = 409%nat).
Proof.
  split; [discriminate|]. split; [discriminate|].
  exact (@read_after_create asciiRuntime [] (lit "t1") (lit "a")
           (Raw.mk None None None None None) None
           ltac:(discriminate) ltac:(discriminate)).
Defined.

Lemma delete_then_absent_then_create_again_witness :
  lit "a" <> [] /\
  map asciiLowerUnit (lit "a") <> lit "filter-by-natural-language" /\
  let st :=
    (@V1.answer asciiRuntime (V1.HttpDelete (lit "a"))
       (@V1.serve asciiRuntime
          [V1.Post (lit "t1") (JString (lit "a"));
           V1.Post (lit "t2") (JString (lit "b"))] [])).2 in
  status (@V1.answer asciiRuntime
            (V1.HttpGet (lit "a") (Raw.mk None None None None None) None)
            st).1 = 404%nat /\
  @V1.answer asciiRuntime (V1.HttpDelete (lit "a")) st
  = (respond 404
       (ErrorMessage "Not Found" "String does not exist in the system"), st) /\
  @V1.answer asciiRuntime (V1.HttpPost [] (lit "t3") (JString (lit "a"))) st
  = (respond 201
       (Analyzed (@V1.analyzeString asciiRuntime (lit "t3") (lit "a"))),
     st ++ [(@generateHash asciiRuntime (lit "a"),
             @V1.analyzeString asciiRuntime (lit "t3") (lit "a"))]).
Proof.
  split; [discriminate|]. split; [discriminate|].
  exact (@delete_then_absent_then_create_again asciiRuntime
           [V1.Post (lit "t1") (JString (lit "a"));
            V1.Post (lit "t2") (JString (lit "b"))]
           (lit "a") (lit "t3") (Raw.mk None None None None None) None
           ltac:(discriminate) ltac:(discriminate)).
Defined.

Lemma records_are_never_changed_witness :
  let st := @V1.puts asciiRuntime [(lit "t1", lit "a"); (lit "t2", lit "b")] [] in
  let rec := @V1.analyzeString asciiRuntime (lit "t1") (lit "a") in
  In (lit "a", rec) st /\
  negb (str_eq (@generateHash asciiRuntime (lit "b")) (lit "a")) = true /\
  In (lit "a", rec) (@V1.handle asciiRuntime (V1.Delete (lit "b")) st).2 /\
  JsMap.get (lit "a") (@V1.handle asciiRuntime (V1.Delete (lit "b")) st).2
  = JsMap.get (lit "a") st.
Proof.
  split; [left; reflexivity|]. split; [reflexivity|].
  exact (@records_are_never_changed asciiRuntime (V1.Delete (lit "b"))
           (@V1.puts asciiRuntime [(lit "t1", lit "a"); (lit "t2", lit "b")] [])
           (lit "a") (@V1.analyzeString asciiRuntime (lit "t1") (lit "a"))
           (or_introl eq_refl) eq_refl).
Defined.

Section StoreAccounts.
Context `{JsBuiltins}.

Lemma reading_status (r : V1.request) (st : V1.store) :
  match r with
  | V1.Post _ _ | V1.Delete _ => True
  | _ => status (V1.handle r st).1 = 200%nat \/
         status (V1.handle r st).1 = 400%nat \/
         status (V1.handle r st).1 = 404%nat
  end.
Proof.
  destruct r as [now value|query|v|q|v]; simpl; try done.
  - unfold V1.get_strings_filter_by_natural_language.
    destruct query as [[|c query]|]; [tauto| |tauto].
    destruct (interpretQuery (c :: query)); simpl; tauto.
  - unfold V1.get_string.
    destruct (JsMap.has (generateHash v) st); simpl; [|tauto].
    destruct (JsMap.get (generateHash v) st); simpl; tauto.
  - unfold V1.get_strings. destruct (V1.validate q) as [filters errors].
    destruct (0 <? List.length errors)%nat; simpl; tauto.
Qed.

(** X12. The status of an answer tells what happened to the store: 201
    means one entry was appended, 204 means one entry was removed, and with
    any other status the store is as it was. *)
Theorem status_accounts_for_the_store (r : V1.request) (st : V1.store) :
  let answer := V1.handle r st in
  (status answer.1 = 201%nat -> exists entry, answer.2 = st ++ [entry]) /\
  (status answer.1 = 204%nat ->
   (List.length answer.2 + 1 = List.length st)%nat) /\
  (status answer.1 <> 201%nat -> status answer.1 <> 204%nat -> answer.2 = st).
Proof.
  destruct r as [now value|query|v|q|v]; cbv zeta; simpl.
  - destruct value as [|v|]; [by split_and! | | by split_and!].
    rewrite post_strings1.
    destruct (JsMap.has (generateHash v) st); simpl; split_and!; try done.
    intros _. by eexists.
  - pose proof (reading_status (V1.GetNaturalLanguage query) st) as Hs.
    simpl in Hs. split_and!; [lia | lia | done].
  - pose proof (reading_status (V1.GetOne v) st) as Hs.
    simpl in Hs. split_and!; [lia | lia | done].
  - pose proof (reading_status (V1.GetAll q) st) as Hs.
    simpl in Hs. split_and!; [lia | lia | done].
  - unfold V1.delete_string.
    destruct (JsMap.has (generateHash v) st) eqn:Hhas; simpl;
      split_and!; try done.
    intros _. by apply delete_present_length.
Qed.

(** X13. In the store the process has reached, no two records have the
    same [id] and no two have the same [value]. *)
Theorem records_differ_in_id_and_value (requests : list V1.request) :
  let listing := JsMap.values (V1.serve requests []) in
  NoDup (map V1.id listing) /\ NoDup (map V1.value listing).
Proof.
  cbv zeta.
  destruct (serve_invariant requests [] invariant_nil1) as [[Hnd Hkey] Hid].
  set (st := V1.serve requests []) in *.
  assert (Hids : map V1.id (JsMap.values st) = JsMap.keys st).
  { unfold JsMap.values, JsMap.keys. rewrite map_map.
    apply map_ext_in. intros [k r] Hin. simpl.
    apply list_elem_of_In in Hin. by apply Hid. }
  split; [by rewrite Hids|].
  apply (NoDup_fmap_1 generateHash).
  assert (Hvalues : generateHash <$> map V1.value (JsMap.values st)
                    = JsMap.keys st).
  { unfold JsMap.values, JsMap.keys.
    change (generateHash <$> map V1.value (map snd st))
      with (map generateHash (map V1.value (map snd st))).
    rewrite !map_map. apply map_ext_in. intros [k r] Hin. simpl.
    apply list_elem_of_In in Hin. symmetry. by apply Hkey. }
  by rewrite Hvalues.
Qed.

(** X14. The deletion of a value that is not empty takes out of the
    listing the record whose [id] is the digest of the value given, and
    leaves the other records in their order. *)
Theorem delete_keeps_the_others_in_order
    (requests : list V1.request) (v : jsstring) (Hne : v <> []) :
  let st := V1.serve requests [] in
  JsMap.values (V1.answer (V1.HttpDelete v) st).2
  = List.filter (fun r => negb (str_eq (V1.id r) (generateHash v)))
      (JsMap.values st).
Proof.
  cbv zeta. unfold V1.answer, V1.route. unfold str_eq at 1.
  rewrite (bool_decide_eq_false_2 (v = [])) by done.
  cbn [V1.handle].
  destruct (serve_invariant requests [] invariant_nil1) as [[Hnd Hkey] Hid].
  set (st := V1.serve requests []) in *.
  assert (Hdel : JsMap.values (V1.delete_string v st).2
                 = JsMap.values (JsMap.delete (generateHash v) st)).
  { unfold V1.delete_string.
    destruct (JsMap.has (generateHash v) st) eqn:Hhas; simpl; [done|].
    by rewrite delete_absent. }
  rewrite Hdel, delete_filter by done. clear Hdel Hnd Hkey.
  induction st as [|[k r] st IH]; simpl; [done|].
  assert (Hk : V1.id r = k).
  { apply (Hid k r). apply elem_of_cons. by left. }
  unfold str_eq at 1. rewrite Hk.
  assert (IH' := IH (fun k' r' Hin => Hid k' r' (list_elem_of_further _ _ _ Hin))).
  destruct (bool_decide (k = generateHash v)); simpl; by rewrite IH'.
Qed.
End StoreAccounts.

Lemma delete_keeps_the_others_in_order_witness :
  lit "a" <> [] /\
  let st :=
    @V1.serve asciiRuntime
      [V1.Post (lit "t1") (JString (lit "a"));
       V1.Post (lit "t2") (JString (lit "b"))] [] in
  JsMap.values (@V1.answer asciiRuntime (V1.HttpDelete (lit "a")) st).2
  = List.filter
      (fun r => negb (str_eq (V1.id r) (@generateHash asciiRuntime (lit "a"))))
      (JsMap.values st).
Proof.
  split; [discriminate|].
  exact (@delete_keeps_the_others_in_order asciiRuntime
           [V1.Post (lit "t1") (JString (lit "a"));
            V1.Post (lit "t2") (JString (lit "b"))]
           (lit "a") ltac:(discriminate)).
Defined.

Lemma has_keys {V} (k : jsstring) (m : JsMap.t V) :
  JsMap.has k m = bool_decide (k ∈ JsMap.keys m).
Proof.
  destruct (JsMap.has k m) eqn:Hhas; symmetry.
  - apply bool_decide_eq_true. apply has_get in Hhas as [v Hv].
    apply get_elem_of in Hv. apply list_elem_of_fmap. by exists (k, v).
  - apply bool_decide_eq_false. by apply get_None_keys, has_false_get.
Qed.

Section Creations.
Context `{JsBuiltins}.

Lemma puts_first_creations (calls : list (list N * list N)) (st : V1.store) :
  V1.puts calls st
  = st ++ map (fun call => (generateHash call.2,
                            V1.analyzeString call.1 call.2))
            (firstCreations (JsMap.keys st) calls).
Proof.
  revert st. induction calls as [|call calls IH]; intros st.
  - simpl. by rewrite app_nil_r.
  - change (V1.puts (call :: calls) st)
      with (V1.puts calls (V1.post_strings call.1 (JString call.2) st).2).
    rewrite post_strings1, has_keys. cbn [firstCreations].
    destruct (bool_decide (generateHash call.2 ∈ JsMap.keys st)); simpl.
    + apply IH.
    + rewrite IH. unfold JsMap.keys at 1. rewrite map_app. simpl.
      by rewrite <- app_assoc.
Qed.

(** X15. After a sequence of creations from the empty store, the store
    holds, in the order of the calls, the analysis made at the first call
    for each digest: a later creation of a value already there neither
    replaces the record nor renews its [created_at]. *)
Theorem creations_keep_the_first_of_each_digest
    (calls : list (list N * list N)) :
  V1.puts calls []
  = map (fun call => (generateHash call.2, V1.analyzeString call.1 call.2))
      (firstCreations [] calls) /\
  JsMap.values (V1.puts calls [])
  = map (fun call => V1.analyzeString call.1 call.2) (firstCreations [] calls).
Proof.
  rewrite puts_first_creations. simpl. split; [done|].
  unfold JsMap.values. by rewrite map_map.
Qed.

(** X16. Second variant: a creation that is answered 409 carries the
    record that is in the store, which is the analysis made when the value
    was first created, and leaves the store as it is. *)
Theorem conflict_carries_the_stored_record
    (st : V2.store) (now again v : jsstring) :
  let first := V2.post_strings now (JString v) st in
  let second := V2.post_strings again (JString v) first.2 in
  second.2 = first.2 /\
  (exists r,
      second.1
      = respond 409
          (ErrorExisting "Conflict" " String already exists in the system"
             (Some r)) /\
      JsMap.get (generateHash v) first.2 = Some r /\
      (status first.1 = 201%nat -> r = V2.analyzeString now v)) /\
  (status first.1 = 409%nat -> first.2 = st).
Proof.
  cbv zeta. pose proof (has_after_post2 now v st) as Hhas.
  rewrite (post_strings2 again), Hhas. simpl fst. simpl snd.
  split; [done|]. rewrite post_strings2 in *.
  destruct (JsMap.has (generateHash v) st) eqn:Hst; cbn [fst snd status] in *.
  - apply has_get in Hst as [r Hr]. split; [|done].
    exists r. rewrite Hr. by split_and!.
  - split; [|done]. exists (V2.analyzeString now v).
    rewrite get_set_eq. by split_and!.
Qed.
End Creations.

(** ** The two variants side by side *)
Section Variants.
Context `{JsBuiltins}.

Lemma analyzeString_facts (now v : jsstring) :
  facts1 (V1.analyzeString now v) = facts2 (V2.analyzeString now v).
Proof.
  unfold facts1, facts2. simpl.
  by rewrite (List.filter_ext Boolean
                (fun word => (0 <? List.length word)%nat)
                (fun word => match word with [] => eq_refl | _ :: _ => eq_refl end)).
Qed.

Lemma alike_keys st1 st2 : alike st1 st2 -> JsMap.keys st1 = JsMap.keys st2.
Proof.
  unfold alike, JsMap.keys. intros Heq.
  apply (f_equal (map fst)) in Heq. by rewrite !map_map in Heq.
Qed.

Lemma alike_has st1 st2 k :
  alike st1 st2 -> JsMap.has k st1 = JsMap.has k st2.
Proof. intros Heq. by rewrite !has_keys, (alike_keys st1 st2 Heq). Qed.

Lemma alike_append st1 st2 k r1 r2 :
  alike st1 st2 -> facts1 r1 = facts2 r2 ->
  alike (st1 ++ [(k, r1)]) (st2 ++ [(k, r2)]).
Proof.
  unfold alike. intros Heq Hr. rewrite !map_app, Heq. simpl. by rewrite Hr.
Qed.

Lemma alike_delete st1 st2 k :
  alike st1 st2 -> alike (JsMap.delete k st1) (JsMap.delete k st2).
Proof.
  unfold alike. revert st2.
  induction st1 as [|[k1 r1] st1 IH]; intros [|[k2 r2] st2]; simpl;
    try done.
  intros Hcons.
  pose proof (f_equal (fun l => fst <$> head l) Hcons) as Hk.
  pose proof (f_equal (fun l => snd <$> head l) Hcons) as Hr.
  pose proof (f_equal tail Hcons) as Heq.
  simpl in Hk, Hr, Heq. injection Hk as ->.
  assert (Hfacts : facts1 r1 = facts2 r2) by congruence.
  case_bool_decide; simpl; [done|].
  by rewrite Hfacts, (IH st2 Heq).
Qed.

Lemma handle_alike (r : V1.request) st1 st2 :
  alike st1 st2 -> alike (V1.handle r st1).2 (V2.handle (request2 r) st2).2.
Proof.
  intros Heq. destruct r as [now value|query|v|q|v]; simpl; try done.
  - destruct value as [|v|]; [done| |done].
    rewrite post_strings1, post_strings2, (alike_has st1 st2 _ Heq).
    destruct (JsMap.has (generateHash v) st2); simpl; [done|].
    apply alike_append; [done | apply analyzeString_facts].
  - unfold V1.delete_string, V2.delete_string.
    rewrite (alike_has st1 st2 _ Heq).
    destruct (JsMap.has (generateHash v) st2); simpl; [|done].
    by apply alike_delete.
Qed.

Lemma serve_alike (requests : list V1.request) st1 st2 :
  alike st1 st2 ->
  alike (V1.serve requests st1) (V2.serve (map request2 requests) st2).
Proof.
  revert st1 st2. induction requests as [|r requests IH]; intros st1 st2 Heq;
    [done|].
  apply IH. by apply handle_alike.
Qed.

(** X17. Served the same requests from the start, the two variants keep
    stores with the same keys in the same order and records that say the
    same, and they answer the next request with the same status, except
    that the first answers 400 and the second 404 to a creation without
    [value]; the listing with parameters is left out of the comparison. *)
Theorem variants_keep_alike_stores
    (requests : list V1.request) (r : V1.request) :
  let st1 := V1.serve requests [] in
  let st2 := V2.serve (map request2 requests) [] in
  alike st1 st2 /\
  match r with
  | V1.Post _ JUndefined =>
      status (V1.handle r st1).1 = 400%nat /\
      status (V2.handle (request2 r) st2).1 = 404%nat
  | V1.GetAll _ => True
  | _ => status (V1.handle r st1).1 = status (V2.handle (request2 r) st2).1
  end.
Proof.
  intros st1 st2.
  assert (Heq : alike st1 st2) by (apply serve_alike; reflexivity).
  split; [done|].
  destruct r as [now value|query|v|q|v]; simpl; try done.
  - destruct value as [|v|]; [done| |done].
    rewrite post_strings1, post_strings2, (alike_has st1 st2 _ Heq).
    by destruct (JsMap.has (generateHash v) st2).
  - unfold V1.get_strings_filter_by_natural_language,
      V2.get_strings_filter_by_natural_language.
    destruct query as [[|c query]|]; [done| |done].
    by destruct (interpretQuery (c :: query)).
  - unfold V1.get_string, V2.get_string.
    rewrite (alike_has st1 st2 _ Heq).
    destruct (JsMap.has (generateHash v) st2) eqn:Hhas; simpl; [|done].
    rewrite <- (alike_has st1 st2 _ Heq) in Hhas.
    apply has_get in Hhas as [r1 Hr1]. rewrite Hr1.
    by destruct (JsMap.get (generateHash v) st2).
  - unfold V1.delete_string, V2.delete_string.
    rewrite (alike_has st1 st2 _ Heq).
    by destruct (JsMap.has (generateHash v) st2).
Qed.
End Variants.

(** ** Filters, further *)

Lemma applyFilters_passes (f : Filters.t) (rs : list V1.AnalyzedString) :
  V1.applyFilters f rs = List.filter (passes f) rs.
Proof.
  destruct f as [pal lo hi wc ch].
  unfold V1.applyFilters, passes; simpl.
  rewrite (filter_optional pal
             (fun b item => Bool.eqb (V1.is_palindrome (V1.properties item)) b)).
  rewrite (filter_optional lo
             (fun n item =>
                num_ge (Num (Z.of_nat (V1.length (V1.properties item)))) n)).
  rewrite (filter_optional hi
             (fun n item =>
                num_le (Num (Z.of_nat (V1.length (V1.properties item)))) n)).
  rewrite (filter_optional wc
             (fun n item =>
                num_eq (Num (Z.of_nat (V1.word_count (V1.properties item)))) n)).
  rewrite (filter_optional ch (fun c item => includes c (V1.value item))).
  rewrite !filter_filter_and. apply List.filter_ext. intros r.
  by rewrite ?Bool.andb_assoc.
Qed.

Lemma filter_sublist {A} (test : A -> bool) (l : list A) :
  List.filter test l `sublist_of` l.
Proof.
  induction l as [|x l IH]; simpl; [constructor|].
  destruct (test x); by constructor.
Qed.

(** X18. The filtering of [GET /strings], with any [filters] object,
    returns a sublist of the records given; filtering twice with the same
    filters is filtering once; two filterings may be done in either order;
    and filtering a concatenation is filtering its parts. *)
Theorem filtering_composes
    (f g : Filters.t) (rs rs' : list V1.AnalyzedString) :
  V1.applyFilters f rs `sublist_of` rs /\
  V1.applyFilters f (V1.applyFilters f rs) = V1.applyFilters f rs /\
  V1.applyFilters f (V1.applyFilters g rs)
  = V1.applyFilters g (V1.applyFilters f rs) /\
  V1.applyFilters f (rs ++ rs') = V1.applyFilters f rs ++ V1.applyFilters f rs'.
Proof.
  rewrite !applyFilters_passes. split_and!.
  - apply filter_sublist.
  - rewrite filter_filter_and. apply List.filter_ext.
    intros r. by destruct (passes f r).
  - rewrite !filter_filter_and. apply List.filter_ext.
    intros r. apply Bool.andb_comm.
  - apply List.filter_app.
Qed.

(** ** Validation, further *)

Lemma trimStart_whitespace_app (w s : jsstring) :
  forallb isWhitespace w = true -> trimStart (w ++ s) = trimStart s.
Proof.
  induction w as [|c w IH]; simpl; [done|].
  intros [Hc Hw]%Bool.andb_true_iff. rewrite Hc. auto.
Qed.

Lemma digit_not_whitespace (d : N) : isDigit d = true -> isWhitespace d = false.
Proof.
  intros Hd. destruct (isWhitespace d) eqn:Hw; [|done]. class_bounds. lia.
Qed.

Lemma parseDigits_stop (acc : option N) (c : N) (rest : jsstring) :
  isDigit c = false -> parseDigits 10 acc (c :: rest) = acc.
Proof.
  intros Hc. simpl. unfold digitValue. rewrite Hc.
  destruct (isAsciiLower c) eqn:Hl.
  - assert ((c - 97 + 10 <? 10) = false) as -> by (apply N.ltb_ge; lia). done.
  - destruct (isAsciiUpper c) eqn:Hu; [|done].
    assert ((c - 65 + 10 <? 10) = false) as -> by (apply N.ltb_ge; lia). done.
Qed.

Lemma parseDigits_leading (acc : N) (ds rest : jsstring) :
  Forall (fun c => isDigit c = true) ds ->
  (forall c rest', rest = c :: rest' -> isDigit c = false) ->
  parseDigits 10 (Some acc) (ds ++ rest) = Some (decimalValue acc ds).
Proof.
  intros Hall Hrest. revert acc.
  induction Hall as [|d ds Hd Hall IH]; intros acc.
  - simpl. destruct rest as [|c rest']; [done|].
    by rewrite parseDigits_stop by by apply (Hrest c rest').
  - simpl. rewrite (digitValue_digit d Hd).
    assert (Hlt : (d - 48 <? 10) = true) by (apply N.ltb_lt; class_bounds; lia).
    rewrite Hlt. apply IH.
Qed.

(** What [parseInt] in base 10 makes of a numeral that comes after
    whitespace and before other text. *)
Lemma parseInt_leading (w ds rest : jsstring) :
  forallb isWhitespace w = true ->
  ds <> [] -> Forall (fun c => isDigit c = true) ds ->
  (forall c rest', rest = c :: rest' -> isDigit c = false) ->
  parseInt (w ++ ds ++ rest) (Some 10)
  = Num (Z.of_N (roundDouble (decimalValue 0 ds))).
Proof.
  intros Hw Hne Hall Hrest. destruct ds as [|d ds]; [done|].
  apply Forall_cons in Hall as [Hd Hall].
  assert (H45 : (d =? 45) = false) by (apply N.eqb_neq; class_bounds; lia).
  assert (H43 : (d =? 43) = false) by (apply N.eqb_neq; class_bounds; lia).
  assert (Hlt : (d - 48 <? 10) = true) by (apply N.ltb_lt; class_bounds; lia).
  unfold parseInt. rewrite trimStart_whitespace_app by done.
  cbn [app trimStart]. rewrite (digit_not_whitespace d Hd).
  unfold stripSign. rewrite H45, H43.
  change (10 =? 16) with false. cbv iota.
  change ((10 <? 2) || (36 <? 10)) with false. cbv iota.
  cbn [parseDigits]. rewrite (digitValue_digit d Hd), Hlt.
  rewrite parseDigits_leading by done.
  cbn [default from_option id]. rewrite Z.mul_1_l, toDouble_of_N.
  reflexivity.
Qed.

(** X19. Validation reads a number the way [parseInt] does: a parameter
    made of whitespace, then a decimal numeral, then any text that does not
    go on with a digit, is accepted with the double nearest to the value of
    the numeral, be it [min_length], [max_length] or [word_count]; that
    double is the value itself when the value is below 2^53. *)
Theorem validate_reads_the_leading_numeral
    (w ds rest : jsstring)
    (Hw : forallb isWhitespace w = true)
    (Hne : ds <> []) (Hall : Forall (fun c => isDigit c = true) ds)
    (Hrest : forall c rest', rest = c :: rest' -> isDigit c = false) :
  let text := w ++ ds ++ rest in
  let n := Num (Z.of_N (roundDouble (decimalValue 0 ds))) in
  V1.validate (Raw.mk None (Some text) None None None)
  = (Filters.set_min_length n Filters.empty, []) /\
  V1.validate (Raw.mk None None (Some text) None None)
  = (Filters.set_max_length n Filters.empty, []) /\
  V1.validate (Raw.mk None None None (Some text) None)
  = (Filters.set_word_count n Filters.empty, []) /\
  (decimalValue 0 ds < 2 ^ 53 -> n = Num (Z.of_N (decimalValue 0 ds))).
Proof.
  intros text n.
  assert (Hparse : parseInt text (Some 10) = n) by by apply parseInt_leading.
  assert (Hnn : (Z.of_N (roundDouble (decimalValue 0 ds)) <? 0)%Z = false)
    by (apply Z.ltb_ge; lia).
  unfold V1.validate. simpl. rewrite Hparse. subst n. simpl. rewrite Hnn.
  split_and!; [done..|].
  intros Hbound. by rewrite roundDouble_small.
Qed.

Lemma validate_reads_the_leading_numeral_witness :
  forallb isWhitespace (lit "  ") = true /\ lit "12" <> [] /\
  Forall (fun c => isDigit c = true) (lit "12") /\
  (forall c rest', lit "abc" = c :: rest' -> isDigit c = false) /\
  let text := lit "  " ++ lit "12" ++ lit "abc" in
  let n := Num (Z.of_N (roundDouble (decimalValue 0 (lit "12")))) in
  V1.validate (Raw.mk None (Some text) None None None)
  = (Filters.set_min_length n Filters.empty, []) /\
  V1.validate (Raw.mk None None (Some text) None None)
  = (Filters.set_max_length n Filters.empty, []) /\
  V1.validate (Raw.mk None None None (Some text) None)
  = (Filters.set_word_count n Filters.empty, []) /\
  (decimalValue 0 (lit "12") < 2 ^ 53 ->
   n = Num (Z.of_N (decimalValue 0 (lit "12")))).
Proof.
  assert (Hall : Forall (fun c => isDigit c = true) (lit "12"))
    by (repeat constructor).
  assert (Hrest : forall c rest', lit "abc" = c :: rest' -> isDigit c = false)
    by (by intros c rest' [= <- _]).
  split; [reflexivity|]. split; [discriminate|].
  split; [exact Hall|]. split; [exact Hrest|].
  exact (validate_reads_the_leading_numeral (lit "  ") (lit "12") (lit "abc")
           eq_refl ltac:(discriminate) Hall Hrest).
Defined.

Lemma parseInt_signed (sign : N) (ds : jsstring) :
  sign = 45 \/ sign = 43 ->
  ds <> [] -> Forall (fun c => isDigit c = true) ds ->
  parseInt (sign :: ds) (Some 10)
  = Num ((if sign =? 45 then -1 else 1)
         * Z.of_N (roundDouble (decimalValue 0 ds))).
Proof.
  intros Hsign Hne Hall. destruct ds as [|d ds]; [done|].
  apply Forall_cons in Hall as [Hd Hall].
  assert (Hlt : (d - 48 <? 10) = true) by (apply N.ltb_lt; class_bounds; lia).
  assert (Hdigits : parseDigits 10 None (d :: ds)
                    = Some (decimalValue 0 (d :: ds))).
  { cbn [parseDigits]. rewrite (digitValue_digit d Hd), Hlt.
    by rewrite parseDigits_decimal. }
  destruct Hsign as [-> | ->].
  - assert (Htrim : trimStart (45 :: d :: ds) = 45 :: d :: ds) by reflexivity.
    unfold parseInt. rewrite Htrim. unfold stripSign.
    change (45 =? 45) with true. change (10 =? 16) with false.
    change ((10 <? 2) || (36 <? 10)) with false. cbv iota beta.
    rewrite Hdigits.
    replace (-1 * Z.of_N (decimalValue 0 (d :: ds)))%Z
      with (- Z.of_N (decimalValue 0 (d :: ds)))%Z by lia.
    rewrite toDouble_opp_of_N. f_equal; lia.
  - assert (Htrim : trimStart (43 :: d :: ds) = 43 :: d :: ds) by reflexivity.
    unfold parseInt. rewrite Htrim. unfold stripSign.
    change (43 =? 45) with false. change (43 =? 43) with true.
    change (10 =? 16) with false.
    change ((10 <? 2) || (36 <? 10)) with false. cbv iota beta.
    rewrite Hdigits, Z.mul_1_l, toDouble_of_N. f_equal; lia.
Qed.

(** X20. A numeral with a minus sign is refused as [min_length] unless
    its value is 0, in which case the filter is set to 0; a numeral with a
    plus sign is accepted with the double nearest to its value, which is
    the value itself below 2^53. *)
Theorem validate_signed_numerals
    (ds : jsstring) (Hne : ds <> [])
    (Hall : Forall (fun c => isDigit c = true) ds) :
  let n := Num (Z.of_N (roundDouble (decimalValue 0 ds))) in
  V1.validate (Raw.mk None (Some (45 :: ds)) None None None)
  = (if decimalValue 0 ds =? 0
     then (Filters.set_min_length (Num 0) Filters.empty, [])
     else (Filters.empty,
           ["min_length must be a non-negative integer"%string])) /\
  V1.validate (Raw.mk None (Some (43 :: ds)) None None None)
  = (Filters.set_min_length n Filters.empty, []) /\
  (decimalValue 0 ds < 2 ^ 53 -> n = Num (Z.of_N (decimalValue 0 ds))).
Proof.
  cbv zeta.
  unfold V1.validate. cbn [Raw.is_palindrome Raw.min_length Raw.max_length
                             Raw.word_count Raw.contains_character].
  rewrite !parseInt_signed by auto. simpl N.eqb. cbv iota.
  split_and!.
  - destruct (N.eqb_spec (decimalValue 0 ds) 0) as [->|Hnz]; [reflexivity|].
    pose proof (roundDouble_positive (decimalValue 0 ds) ltac:(lia)) as Hpos.
    assert (Hneg : (-1 * Z.of_N (roundDouble (decimalValue 0 ds)) <? 0)%Z
                   = true)
      by (apply Z.ltb_lt; lia).
    simpl. simpl in Hneg. by rewrite Hneg.
  - assert (Hpos : (1 * Z.of_N (roundDouble (decimalValue 0 ds)) <? 0)%Z
                   = false)
      by (apply Z.ltb_ge; lia).
    rewrite Z.mul_1_l in *. simpl. by rewrite Hpos.
  - intros Hbound. by rewrite roundDouble_small.
Qed.

Lemma validate_signed_numerals_witness :
  lit "07" <> [] /\ Forall (fun c => isDigit c = true) (lit "07") /\
  let n := Num (Z.of_N (roundDouble (decimalValue 0 (lit "07")))) in
  V1.validate (Raw.mk None (Some (45 :: lit "07")) None None None)
  = (if decimalValue 0 (lit "07") =? 0
     then (Filters.set_min_length (Num 0) Filters.empty, [])
     else (Filters.empty,
           ["min_length must be a non-negative integer"%string])) /\
  V1.validate (Raw.mk None (Some (43 :: lit "07")) None None None)
  = (Filters.set_min_length n Filters.empty, []) /\
  (decimalValue 0 (lit "07") < 2 ^ 53 ->
   n = Num (Z.of_N (decimalValue 0 (lit "07")))).
Proof.
  assert (Hall : Forall (fun c => isDigit c = true) (lit "07"))
    by (repeat constructor).
  split; [discriminate|]. split; [exact Hall|].
  exact (validate_signed_numerals (lit "07") ltac:(discriminate) Hall).
Defined.

Lemma ruleError_nil raw broken msg :
  ruleError raw broken msg = [] ->
  forall v, raw = Some v -> broken v = false.
Proof.
  unfold ruleError. intros Hnil v ->. by destruct (broken v).
Qed.

(** X21. For a request whose parameters are each given once, as text:
    when validation reports no error, the [filters] it leaves are a
    FilterSet: booleans as they were read; numbers that are not NaN and not
    negative, each a double (an integer, or the infinity that a numeral
    beyond the doubles is read as); one code unit for the character; the
    lower bound not above the upper one; and a filter is set exactly for
    the parameters that were given. *)
Theorem validate_without_error_gives_a_FilterSet
    (q : Raw.t) (f : Filters.t) (Hok : V1.validate q = (f, [])) :
  exists fs,
    f = FilterSet.filters fs /\
    (forall lo hi, FilterSet.min_length fs = Some lo ->
                   FilterSet.max_length fs = Some hi -> (lo <= hi)%nat) /\
    (is_Some (Raw.is_palindrome q) <-> is_Some (FilterSet.is_palindrome fs)) /\
    (is_Some (Raw.min_length q) <-> is_Some (FilterSet.min_length fs)) /\
    (is_Some (Raw.max_length q) <-> is_Some (FilterSet.max_length fs)) /\
    (is_Some (Raw.word_count q) <-> is_Some (FilterSet.word_count fs)) /\
    (forall c, FilterSet.contains_character fs = Some c <->
               Raw.contains_character q = Some [c]) /\
    (forall n, FilterSet.min_length fs = Some n \/
               FilterSet.max_length fs = Some n \/
               FilterSet.word_count fs = Some n ->
               roundDouble (N.of_nat n) = N.of_nat n).
Proof.
  pose proof (validate_filters1 q) as Hf.
  pose proof (validate_errors1 q) as He.
  rewrite Hok in Hf, He. simpl in Hf, He. symmetry in He.
  apply app_eq_nil in He as [Hrpal He]. apply app_eq_nil in He as [Hrlo He].
  apply app_eq_nil in He as [Hrhi He]. apply app_eq_nil in He as [Hrwc He].
  apply app_eq_nil in He as [Hrch He].
  pose proof (ruleError_nil _ _ _ Hrpal) as H.
  pose proof (ruleError_nil _ _ _ Hrlo) as H0.
  pose proof (ruleError_nil _ _ _ Hrhi) as H1.
  pose proof (ruleError_nil _ _ _ Hrwc) as H2.
  pose proof (ruleError_nil _ _ _ Hrch) as H3.
  clear Hrpal Hrlo Hrhi Hrwc Hrch.
  destruct q as [pal lo hi wc ch]. simpl in *.
  assert (Hnum : forall raw : option (list N),
            (forall v, raw = Some v -> notNatural v = false) ->
            exists o : option nat,
              match raw with
              | Some v => if notNatural v then None
                          else Some (parseInt v (Some 10))
              | None => None
              end = option_map FilterSet.number_of o /\
              (is_Some raw <-> is_Some o) /\
              (forall v n, raw = Some v -> o = Some n ->
                           parseInt v (Some 10) = FilterSet.number_of n)).
  { intros [v|] Hv; [|exists None; split_and!; [done| |done];
                       split; intros [? ?]; done].
    rewrite (Hv v eq_refl).
    destruct (natural_number_of v (Hv v eq_refl)) as [n Hn].
    exists (Some n). rewrite Hn. split_and!; [done| |].
    - split; intros _; by eexists.
    - by intros ? ? [= <-] [= <-]. }
  assert (Hdouble : forall (raw : option (list N)) (o : option nat) n,
            (is_Some raw <-> is_Some o) ->
            (forall v n, raw = Some v -> o = Some n ->
                         parseInt v (Some 10) = FilterSet.number_of n) ->
            o = Some n -> roundDouble (N.of_nat n) = N.of_nat n).
  { intros raw o n Hsome Hv ->.
    destruct raw as [v|]; [|by destruct Hsome as [_ []]].
    pose proof (parseInt_range v (Some 10) (Z.of_nat n)
                  (Hv v n eq_refl eq_refl) ltac:(lia)) as Hr.
    by replace (Z.to_N (Z.of_nat n)) with (N.of_nat n) in Hr by lia. }
  destruct (Hnum lo) as (flo & Hlo & Hlo' & Hlov); [done|].
  destruct (Hnum hi) as (fhi & Hhi & Hhi' & Hhiv); [done|].
  destruct (Hnum wc) as (fwc & Hwc & Hwc' & Hwcv); [done|].
  exists (FilterSet.mk
            (match pal with
             | Some v => Some (str_eq v (lit "true"))
             | None => None
             end)
            flo fhi fwc
            (match ch with Some [c] => Some c | _ => None end)).
  split_and!; simpl.
  - rewrite Hf, Hlo, Hhi, Hwc. unfold FilterSet.filters. simpl. f_equal.
    + destruct pal as [v|]; [|done]. by rewrite (H v eq_refl).
    + destruct ch as [v|]; [|done].
      pose proof (H3 v eq_refl) as Hv. rewrite Hv.
      by destruct v as [|c [|]].
  - intros nlo nhi -> ->.
    destruct lo as [vlo|]; [|by destruct Hlo' as [_ []]].
    destruct hi as [vhi|]; [|by destruct Hhi' as [_ []]].
    unfold boundsError in He. simpl in He.
    rewrite (H0 vlo eq_refl), (H1 vhi eq_refl) in He. simpl in He.
    rewrite (Hlov vlo nlo eq_refl eq_refl), (Hhiv vhi nhi eq_refl eq_refl) in He.
    unfold FilterSet.number_of in He. simpl in He.
    destruct (Z.ltb_spec (Z.of_nat nhi) (Z.of_nat nlo)); [done | lia].
  - destruct pal; [split; intros _; by eexists | split; intros [? ?]; done].
  - done.
  - done.
  - done.
  - intros c. destruct ch as [[|c' [|c'' rest]]|]; simpl.
    + pose proof (H3 [] eq_refl) as Hx. simpl in Hx. discriminate.
    + split; intros [= ->]; done.
    + pose proof (H3 _ eq_refl) as Hx. simpl in Hx. discriminate.
    + split; intros; discriminate.
  - intros n [Hn|[Hn|Hn]].
    + by apply (Hdouble lo flo n).
    + by apply (Hdouble hi fhi n).
    + by apply (Hdouble wc fwc n).
Qed.

Lemma validate_without_error_witness :
  V1.validate
    (Raw.mk (Some (lit "true")) (Some (lit "2")) (Some (lit "5")) None
       (Some (lit "a")))
  = (Filters.mk (Some true) (Some (Num 2)) (Some (Num 5)) None
       (Some (lit "a")), []) /\
  exists fs,
    Filters.mk (Some true) (Some (Num 2)) (Some (Num 5)) None (Some (lit "a"))
    = FilterSet.filters fs /\
    (forall lo hi, FilterSet.min_length fs = Some lo ->
                   FilterSet.max_length fs = Some hi -> (lo <= hi)%nat) /\
    (is_Some (Some (lit "true")) <-> is_Some (FilterSet.is_palindrome fs)) /\
    (is_Some (Some (lit "2")) <-> is_Some (FilterSet.min_length fs)) /\
    (is_Some (Some (lit "5")) <-> is_Some (FilterSet.max_length fs)) /\
    (is_Some (@None (list N)) <-> is_Some (FilterSet.word_count fs)) /\
    (forall c, FilterSet.contains_character fs = Some c <->
               Some (lit "a") = Some [c]) /\
    (forall n, FilterSet.min_length fs = Some n \/
               FilterSet.max_length fs = Some n \/
               FilterSet.word_count fs = Some n ->
               roundDouble (N.of_nat n) = N.of_nat n).
Proof.
  split; [reflexivity|].
  exact (validate_without_error_gives_a_FilterSet
           (Raw.mk (Some (lit "true")) (Some (lit "2")) (Some (lit "5")) None
              (Some (lit "a")))
           (Filters.mk (Some true) (Some (Num 2)) (Some (Num 5)) None
              (Some (lit "a")))
           eq_refl).
Defined.

(** ** What the interpreter can ask for *)

(** X22. Whatever the phrase, the filters of [interpretQuery] never ask
    for strings that are not palindromes, never bound the length from above,
    ask for no word count but 1 and for no minimal length below 1, and hold
    at least one filter. *)
Theorem interpretQuery_range
    `{JsBuiltins} (phrase : jsstring) (f : Filters.t)
    (Hf : interpretQuery phrase = Some f) :
  Filters.is_palindrome f <> Some false /\
  Filters.max_length f = None /\
  (forall n, Filters.word_count f = Some n -> n = Num 1) /\
  (forall n, Filters.min_length f = Some n -> exists z, n = Num z /\ (1 <= z)%Z) /\
  (1 <= Filters.keys_length f)%nat.
Proof.
  pose proof (longerThan_search (toLowerCase phrase)) as [Hlong _].
  rewrite interpretQuery_filters in Hf.
  destruct (Nat.eqb_spec
              (Filters.keys_length
                 (Filters.mk
                    (if includes (lit "palindromic") (toLowerCase phrase)
                     then Some true else None)
                    (option_map (fun g => num_add (parseInt g None) (Num 1))
                       (regexSearch longerThanAt (toLowerCase phrase)))
                    None
                    (if includes (lit "single word") (toLowerCase phrase)
                        || includes (lit "one word") (toLowerCase phrase)
                     then Some (Num 1) else None)
                    (regexSearch containingLetterAt (toLowerCase phrase)))) 0)
    as [Hz|Hnz]; [done|].
  injection Hf as <-. split_and!; simpl.
  - by destruct (includes (lit "palindromic") (toLowerCase phrase)).
  - done.
  - intros n. destruct (includes (lit "single word") (toLowerCase phrase)
                        || includes (lit "one word") (toLowerCase phrase));
      [by intros [= <-] | done].
  - intros n Hn. apply Hlong in Hn as (pre & ds & _ & _ & ->).
    eexists. split; [done|].
    pose proof (roundDouble_positive
                  (roundDouble (decimalValue 0 ds) + 1) ltac:(lia)).
    lia.
  - lia.
Qed.

Lemma interpretQuery_range_witness :
  @interpretQuery asciiRuntime (lit "one word strings longer than 0")
  = Some (Filters.mk None (Some (Num 1)) None (Some (Num 1)) None) /\
  let f := Filters.mk None (Some (Num 1)) None (Some (Num 1)) None in
  Filters.is_palindrome f <> Some false /\
  Filters.max_length f = None /\
  (forall n, Filters.word_count f = Some n -> n = Num 1) /\
  (forall n, Filters.min_length f = Some n -> exists z, n = Num z /\ (1 <= z)%Z) /\
  (1 <= Filters.keys_length f)%nat.
Proof.
  split; [reflexivity|].
  exact (@interpretQuery_range asciiRuntime
           (lit "one word strings longer than 0")
           (Filters.mk None (Some (Num 1)) None (Some (Num 1)) None) eq_refl).
Defined.

(** ** The variants filter alike *)

Lemma facts_tests (r1 : V1.AnalyzedString) (r2 : V2.AnalyzedString) :
  facts1 r1 = facts2 r2 ->
  V1.value r1 = V2.value r2 /\
  V1.length (V1.properties r1) = V2.length (V2.properties r2) /\
  V1.is_palindrome (V1.properties r1) = V2.is_palindrome (V2.properties r2) /\
  V1.word_count (V1.properties r1) = V2.word_count (V2.properties r2).
Proof. unfold facts1, facts2. intros [= ? ? ? ? ? ? ? ? ?]. by split_and!. Qed.

Lemma filter_alike (p1 : V1.AnalyzedString -> bool)
    (p2 : V2.AnalyzedString -> bool) l1 l2 :
  (forall r1 r2, facts1 r1 = facts2 r2 -> p1 r1 = p2 r2) ->
  map facts1 l1 = map facts2 l2 ->
  map facts1 (List.filter p1 l1) = map facts2 (List.filter p2 l2).
Proof.
  intros Hp. revert l2.
  induction l1 as [|r1 l1 IH]; intros [|r2 l2]; simpl; try done.
  intros Hcons.
  pose proof (f_equal head Hcons) as Hhd. pose proof (f_equal tail Hcons) as Htl.
  simpl in Hhd, Htl. assert (Hr : facts1 r1 = facts2 r2) by congruence.
  rewrite (Hp r1 r2 Hr). destruct (p2 r2); simpl; [rewrite Hr; f_equal|]; auto.
Qed.

Lemma filter_optional_alike {B} (o : option B)
    (t1 : B -> V1.AnalyzedString -> bool)
    (t2 : B -> V2.AnalyzedString -> bool) l1 l2 :
  (forall b r1 r2, facts1 r1 = facts2 r2 -> t1 b r1 = t2 b r2) ->
  map facts1 l1 = map facts2 l2 ->
  map facts1 (match o with Some b => List.filter (t1 b) l1 | None => l1 end)
  = map facts2 (match o with Some b => List.filter (t2 b) l2 | None => l2 end).
Proof.
  intros Ht Hl. destruct o as [b|]; [|done].
  apply filter_alike; [apply Ht | done].
Qed.

Section VariantsFilter.
Context `{JsBuiltins}.

(** X23. Served the same requests from the start, the two variants keep
    the same records for the same filters, in the filtering of
    [GET /strings] and in the filtering of the natural-language route: the
    records kept say the same, in the same order. *)
Theorem variants_filter_alike (requests : list V1.request) (f : Filters.t) :
  let rs1 := JsMap.values (V1.serve requests []) in
  let rs2 := JsMap.values (V2.serve (map request2 requests) []) in
  map facts1 (V1.applyFilters f rs1) = map facts2 (V2.applyFilters f rs2) /\
  map facts1 (V1.applyParsedFilters f rs1)
  = map facts2 (V2.applyParsedFilters f rs2).
Proof.
  intros rs1 rs2.
  assert (Hrs : map facts1 rs1 = map facts2 rs2).
  { pose proof (serve_alike requests [] [] eq_refl) as Heq.
    unfold alike in Heq. apply (f_equal (map snd)) in Heq.
    rewrite !map_map in Heq. simpl in Heq.
    subst rs1 rs2. unfold JsMap.values. by rewrite !map_map. }
  assert (Hpal : forall b r1 r2, facts1 r1 = facts2 r2 ->
            Bool.eqb (V1.is_palindrome (V1.properties r1)) b
            = Bool.eqb (V2.is_palindrome (V2.properties r2)) b).
  { intros b r1 r2 (_ & _ & -> & _)%facts_tests. done. }
  assert (Hge : forall n r1 r2, facts1 r1 = facts2 r2 ->
            num_ge (Num (Z.of_nat (V1.length (V1.properties r1)))) n
            = num_ge (Num (Z.of_nat (V2.length (V2.properties r2)))) n).
  { intros n r1 r2 (_ & -> & _)%facts_tests. done. }
  assert (Hle : forall n r1 r2, facts1 r1 = facts2 r2 ->
            num_le (Num (Z.of_nat (V1.length (V1.properties r1)))) n
            = num_le (Num (Z.of_nat (V2.length (V2.properties r2)))) n).
  { intros n r1 r2 (_ & -> & _)%facts_tests. done. }
  assert (Hwc : forall n r1 r2, facts1 r1 = facts2 r2 ->
            num_eq (Num (Z.of_nat (V1.word_count (V1.properties r1)))) n
            = num_eq (Num (Z.of_nat (V2.word_count (V2.properties r2)))) n).
  { intros n r1 r2 (_ & _ & _ & ->)%facts_tests. done. }
  assert (Hch : forall c r1 r2, facts1 r1 = facts2 r2 ->
            includes c (V1.value r1) = includes c (V2.value r2)).
  { intros c r1 r2 (-> & _)%facts_tests. done. }
  split.
  - unfold V1.applyFilters, V2.applyFilters.
    apply filter_optional_alike; [exact Hch|].
    apply filter_optional_alike; [exact Hwc|].
    apply filter_optional_alike; [exact Hle|].
    apply filter_optional_alike; [exact Hge|].
    apply filter_optional_alike; [exact Hpal|]. exact Hrs.
  - unfold V1.applyParsedFilters, V2.applyParsedFilters.
    apply filter_optional_alike; [exact Hch|].
    apply filter_optional_alike; [exact Hge|].
    apply filter_optional_alike; [exact Hwc|].
    apply filter_optional_alike; [exact Hpal|]. exact Hrs.
Qed.
End VariantsFilter.
